(** * useCanvasImage: a shallow embedding of [src/src/index.js]

    The hook mirrors a canvas into a sibling [img] element.  The hook's own
    functions ([createImg], [updateCanvas], [createImgSrc], [setCanvas], the
    effect and its cleanup, the returned value) are translated one by one
    into a state-and-exception monad over an explicit browser state: a heap
    of elements, the document tree, the timer table, the queue of animation
    frame callbacks and the two refs of the hook instance.

    The browser functions the hook calls ([querySelector], [setAttribute],
    [classList.add], the [style] setter, [after], [toDataURL], [setTimeout],
    [requestAnimationFrame], ...) are modelled after the DOM standard as far
    as the hook can observe them, including the exceptions they raise.

    What is left out: an activation is one call of the hook with one
    configuration (no re-render with other options); time is only the
    order of events, so a timer may fire at any moment after it was set;
    an inline style is its source text, not a parsed declaration block; a
    selector matches an element by the element alone; [toDataURL] never
    fails on a canvas (no tainted canvases); a document is an HTML
    document, whose document element is an [html] element; the bitmap a
    canvas is left with when its dimensions are set is the browser's to
    give. *)

From Stdlib Require Import Ascii String QArith_base.
From stdpp Require Import base strings list gmap pretty.

Local Open Scope string_scope.
Local Open Scope list_scope.

(** ** Strings *)

(** [s.split(sep)] for a one-character separator: never the empty list. *)
Fixpoint js_split (sep : ascii) (s : string) : list string :=
  match s with
  | EmptyString => [EmptyString]
  | String c r =>
      if Ascii.eqb c sep then EmptyString :: js_split sep r
      else match js_split sep r with
           | t :: ts => String c t :: ts
           | [] => [String c EmptyString]
           end
  end.

(** ASCII whitespace of the DOM standard: TAB, LF, FF, CR and SPACE. *)
Definition is_ascii_whitespace (c : ascii) : bool :=
  let n := nat_of_ascii c in
  (n =? 9)%nat || (n =? 10)%nat || (n =? 12)%nat || (n =? 13)%nat
  || (n =? 32)%nat.

Fixpoint string_exists (p : ascii -> bool) (s : string) : bool :=
  match s with
  | EmptyString => false
  | String c r => p c || string_exists p r
  end.

(** Splitting on ASCII whitespace, empty pieces included. *)
Fixpoint split_whitespace (s : string) : list string :=
  match s with
  | EmptyString => [EmptyString]
  | String c r =>
      if is_ascii_whitespace c then EmptyString :: split_whitespace r
      else match split_whitespace r with
           | t :: ts => String c t :: ts
           | [] => [String c EmptyString]
           end
  end.

Definition string_nonempty (s : string) : bool :=
  match s with EmptyString => false | String _ _ => true end.

Definition string_eqb (a b : string) : bool := bool_decide (a = b).

Fixpoint mem_string (x : string) (l : list string) : bool :=
  match l with
  | [] => false
  | y :: r => string_eqb x y || mem_string x r
  end.

(** Appends the tokens of [new] that [set] does not hold yet. *)
Fixpoint append_tokens (set new : list string) : list string :=
  match new with
  | [] => set
  | t :: r => append_tokens (if mem_string t set then set else set ++ [t]) r
  end.

(** The ordered-set parser of the DOM standard, for a [class] attribute. *)
Definition parse_tokens (s : string) : list string :=
  append_tokens [] (filter (fun t => string_nonempty t = true)
                           (split_whitespace s)).

Fixpoint join_tokens (l : list string) : string :=
  match l with
  | [] => ""
  | [t] => t
  | t :: r => t +:+ " " +:+ join_tokens r
  end.

Definition lower_ascii (c : ascii) : ascii :=
  let n := nat_of_ascii c in
  if (65 <=? n)%nat && (n <=? 90)%nat then ascii_of_nat (n + 32) else c.

Fixpoint ascii_lowercase (s : string) : string :=
  match s with
  | EmptyString => EmptyString
  | String c r => String (lower_ascii c) (ascii_lowercase r)
  end.

(** ** JavaScript values the hook handles *)

Abbreviation node := nat.

(** What a ref's [current], or [querySelector], can hold. *)
Inductive jsref :=
| Undefined
| Null
| Ref (n : node).

Definition truthy (r : jsref) : bool :=
  match r with Ref _ => true | _ => false end.

Inductive error :=
| TypeError
| SyntaxError
| InvalidCharacterError
| HierarchyRequestError.

(** The closures the hook hands to the host or to its caller. *)
Inductive callback :=
| CbSetCanvas       (* setCanvas, given to setTimeout *)
| CbCreateImgSrc    (* createImgSrc, given to useInterval and returned *)
| CbCapture.        (* the arrow function given to requestAnimationFrame *)

(** The value [useCanvasImage] returns. *)
Inductive value :=
| VFunction (f : callback)
| VNull.

(** ** Elements and the document *)

Inductive interface :=
| HTMLCanvasElement (bitmap : list Z)
| HTMLImageElement
| HTMLElement (tag : string).

(** [el_attrs] are the content attributes; [class], [style] and [src] are
    read and written through them, as [classList], [style] and [src]
    reflect them.  An inline style is kept as its source text. *)
Record element := Element {
  el_interface : interface;
  el_attrs : gmap string string;
}.

Definition is_canvas (e : element) : bool :=
  match el_interface e with HTMLCanvasElement _ => true | _ => false end.

Definition set_attr (k v : string) (e : element) : element :=
  {| el_interface := el_interface e; el_attrs := <[k := v]> (el_attrs e) |}.

Definition attr (k : string) (e : element) : option string := el_attrs e !! k.

(** The elements attached to the document, as a forest; an element of
    the heap absent from it has no parent.  A tree whose root is an
    [html] element is the document element with all that is below it;
    any other tree at the top stands for a part of the page whose
    ancestors are left out. *)
#[local] Unset Elimination Schemes.
Inductive tree := Node (n : node) (children : list tree).
#[local] Set Elimination Schemes.

Definition root (t : tree) : node := match t with Node n _ => n end.

Definition children (t : tree) : list tree :=
  match t with Node _ ts => ts end.

(** Induction on trees, through the lists of children. *)
Fixpoint tree_ind (P : tree -> Prop)
  (IH : forall n ts, Forall P ts -> P (Node n ts)) (t : tree) : P t :=
  match t with
  | Node n ts =>
      IH n ts ((fix all (l : list tree) : Forall P l :=
                  match l with
                  | [] => List.Forall_nil P
                  | t' :: r =>
                      List.Forall_cons P t' r (tree_ind P IH t') (all r)
                  end) ts)
  end.

Fixpoint preorder (t : tree) : list node :=
  match t with Node n ts => n :: flat_map preorder ts end.

(** Removes the subtree rooted at [n] from below the root of [t]. *)
Fixpoint remove_tree (n : node) (t : tree) : tree :=
  match t with
  | Node m ts =>
      Node m ((fix go (l : list tree) : list tree :=
                 match l with
                 | [] => []
                 | t' :: r => if (root t' =? n)%nat then go r
                              else remove_tree n t' :: go r
                 end) ts)
  end.

(** Inserts the childless element [i] as the next sibling of [c]. *)
Fixpoint insert_after_tree (c i : node) (t : tree) : tree :=
  match t with
  | Node m ts =>
      Node m ((fix go (l : list tree) : list tree :=
                 match l with
                 | [] => []
                 | t' :: r => if (root t' =? c)%nat then t' :: Node i [] :: r
                              else insert_after_tree c i t' :: go r
                 end) ts)
  end.

(** The element that follows [c] among the children of [c]'s parent. *)
Fixpoint next_sibling_tree (c : node) (t : tree) : option node :=
  match t with
  | Node _ ts =>
      (fix go (l : list tree) : option node :=
         match l with
         | [] => None
         | t' :: r =>
             if (root t' =? c)%nat
             then match r with [] => None | t'' :: _ => Some (root t'') end
             else match next_sibling_tree c t' with
                  | Some x => Some x
                  | None => go r
                  end
         end) ts
  end.

(** The forest as one tree, below a root that is never compared with
    anything. *)
Definition body (f : list tree) : tree := Node 0 f.

Definition document_order (f : list tree) : list node := flat_map preorder f.

Definition in_doc (n : node) (f : list tree) : bool :=
  bool_decide (n ∈ document_order f).

Definition remove_node (n : node) (f : list tree) : list tree :=
  children (remove_tree n (body f)).

Definition insert_after (c i : node) (f : list tree) : list tree :=
  children (insert_after_tree c i (body f)).

Definition is_html (e : element) : bool :=
  match el_interface e with
  | HTMLElement tag => bool_decide (tag = "html")
  | _ => false
  end.

(** The document element: an [html] element at the top of the forest.  Its
    parent is the document itself, which takes no second element. *)
Definition is_document_element (h : list element) (d : list tree) (c : node)
  : bool :=
  existsb (fun t => (root t =? c)%nat) d &&
  match h !! c with
  | Some e => is_html e
  | None => false
  end.

Definition next_sibling (c : node) (f : list tree) : option node :=
  next_sibling_tree c (body f).

(** ** The configuration *)

(** The [canvas] option: a selector string, a ref object (whose [current]
    the caller's framework fills in), an element, or anything else. *)
Inductive canvas_arg :=
| ArgString (selector : string)
| ArgRefObject
| ArgElement (n : node)
| ArgOther.

(** The [interval] option: [null], [false] or a number of milliseconds. *)
Inductive interval_arg :=
| IntervalNull
| IntervalFalse
| IntervalMs (ms : Z).

Record config := Config {
  canvas : canvas_arg;
  imgClassname : string;
  canvasClassname : string;
  canvasAttributes : list (string * string);   (* in Object.keys order *)
  fileType : string;
  quality : Q;
  interval : interval_arg;
}.

(** The defaults of the destructured parameter. *)
Definition default_config (c : canvas_arg) : config :=
  {| canvas := c; imgClassname := ""; canvasClassname := "";
     canvasAttributes := []; fileType := "image/jpeg";
     quality := Qmake 7 10; interval := IntervalNull |}.

Definition IMG_STYLE : string :=
  "position: absolute; top: 0; left: 0; z-index: 0;".
Definition CANVAS_STYLE : string :=
  "position: absolute; top: 0; left: 0; z-index: 1;".

(** ** The state: browser, caller and hook instance *)

Record timer := Timer {
  tm_id : nat;
  tm_cb : callback;
  tm_delay : Z;
  tm_repeat : bool;    (* setInterval rather than setTimeout *)
}.

(** The component's life, as the framework drives it. *)
Inductive phase :=
| Uninitialized   (* the hook has not been called *)
| Rendered        (* the hook has returned, its effects have not run *)
| Mounted         (* the effects have run *)
| Unmounted.      (* the cleanups have run *)

(** What happened, newest first; nothing reads it. *)
Inductive event :=
| EvResolved (c : node)    (* setCanvas found canvasRef.current set *)
| EvImage (i : node)       (* new Image() *)
| EvInserted (c i : node)  (* after() attached i behind c *)
| EvRead (c : node)        (* toDataURL read the bitmap of c *)
| EvSrc (i : node).        (* the src of i was assigned *)

Record state := State {
  st_heap : list element;       (* every element, by node number *)
  st_doc : list tree;
  st_timers : list timer;       (* pending timeouts and armed intervals *)
  st_frames : list callback;    (* requestAnimationFrame queue *)
  st_nextTimer : nat;
  st_uncaught : list error;     (* exceptions of host-run callbacks *)
  st_callerRef : jsref;         (* current of the caller's ref object *)
  canvasRef : jsref;            (* canvasRef.current *)
  imgRef : jsref;               (* imgRef.current *)
  reselectTimeout : option nat; (* None while undefined *)
  st_intervalId : option nat;   (* the id useInterval's effect holds *)
  st_phase : phase;
  st_log : list event;
}.

Definition with_heap (v : list element) (s : state) : state :=
  {| st_heap := v; st_doc := st_doc s; st_timers := st_timers s;
     st_frames := st_frames s; st_nextTimer := st_nextTimer s;
     st_uncaught := st_uncaught s; st_callerRef := st_callerRef s;
     canvasRef := canvasRef s; imgRef := imgRef s;
     reselectTimeout := reselectTimeout s; st_intervalId := st_intervalId s;
     st_phase := st_phase s; st_log := st_log s |}.

Definition with_doc (v : list tree) (s : state) : state :=
  {| st_heap := st_heap s; st_doc := v; st_timers := st_timers s;
     st_frames := st_frames s; st_nextTimer := st_nextTimer s;
     st_uncaught := st_uncaught s; st_callerRef := st_callerRef s;
     canvasRef := canvasRef s; imgRef := imgRef s;
     reselectTimeout := reselectTimeout s; st_intervalId := st_intervalId s;
     st_phase := st_phase s; st_log := st_log s |}.

Definition with_timers (v : list timer) (s : state) : state :=
  {| st_heap := st_heap s; st_doc := st_doc s; st_timers := v;
     st_frames := st_frames s; st_nextTimer := st_nextTimer s;
     st_uncaught := st_uncaught s; st_callerRef := st_callerRef s;
     canvasRef := canvasRef s; imgRef := imgRef s;
     reselectTimeout := reselectTimeout s; st_intervalId := st_intervalId s;
     st_phase := st_phase s; st_log := st_log s |}.

Definition with_frames (v : list callback) (s : state) : state :=
  {| st_heap := st_heap s; st_doc := st_doc s; st_timers := st_timers s;
     st_frames := v; st_nextTimer := st_nextTimer s;
     st_uncaught := st_uncaught s; st_callerRef := st_callerRef s;
     canvasRef := canvasRef s; imgRef := imgRef s;
     reselectTimeout := reselectTimeout s; st_intervalId := st_intervalId s;
     st_phase := st_phase s; st_log := st_log s |}.

Definition with_nextTimer (v : nat) (s : state) : state :=
  {| st_heap := st_heap s; st_doc := st_doc s; st_timers := st_timers s;
     st_frames := st_frames s; st_nextTimer := v;
     st_uncaught := st_uncaught s; st_callerRef := st_callerRef s;
     canvasRef := canvasRef s; imgRef := imgRef s;
     reselectTimeout := reselectTimeout s; st_intervalId := st_intervalId s;
     st_phase := st_phase s; st_log := st_log s |}.

Definition with_uncaught (v : list error) (s : state) : state :=
  {| st_heap := st_heap s; st_doc := st_doc s; st_timers := st_timers s;
     st_frames := st_frames s; st_nextTimer := st_nextTimer s;
     st_uncaught := v; st_callerRef := st_callerRef s;
     canvasRef := canvasRef s; imgRef := imgRef s;
     reselectTimeout := reselectTimeout s; st_intervalId := st_intervalId s;
     st_phase := st_phase s; st_log := st_log s |}.

Definition with_callerRef (v : jsref) (s : state) : state :=
  {| st_heap := st_heap s; st_doc := st_doc s; st_timers := st_timers s;
     st_frames := st_frames s; st_nextTimer := st_nextTimer s;
     st_uncaught := st_uncaught s; st_callerRef := v;
     canvasRef := canvasRef s; imgRef := imgRef s;
     reselectTimeout := reselectTimeout s; st_intervalId := st_intervalId s;
     st_phase := st_phase s; st_log := st_log s |}.

Definition with_canvasRef (v : jsref) (s : state) : state :=
  {| st_heap := st_heap s; st_doc := st_doc s; st_timers := st_timers s;
     st_frames := st_frames s; st_nextTimer := st_nextTimer s;
     st_uncaught := st_uncaught s; st_callerRef := st_callerRef s;
     canvasRef := v; imgRef := imgRef s;
     reselectTimeout := reselectTimeout s; st_intervalId := st_intervalId s;
     st_phase := st_phase s; st_log := st_log s |}.

Definition with_imgRef (v : jsref) (s : state) : state :=
  {| st_heap := st_heap s; st_doc := st_doc s; st_timers := st_timers s;
     st_frames := st_frames s; st_nextTimer := st_nextTimer s;
     st_uncaught := st_uncaught s; st_callerRef := st_callerRef s;
     canvasRef := canvasRef s; imgRef := v;
     reselectTimeout := reselectTimeout s; st_intervalId := st_intervalId s;
     st_phase := st_phase s; st_log := st_log s |}.

Definition with_reselectTimeout (v : option nat) (s : state) : state :=
  {| st_heap := st_heap s; st_doc := st_doc s; st_timers := st_timers s;
     st_frames := st_frames s; st_nextTimer := st_nextTimer s;
     st_uncaught := st_uncaught s; st_callerRef := st_callerRef s;
     canvasRef := canvasRef s; imgRef := imgRef s; reselectTimeout := v;
     st_intervalId := st_intervalId s; st_phase := st_phase s;
     st_log := st_log s |}.

Definition with_intervalId (v : option nat) (s : state) : state :=
  {| st_heap := st_heap s; st_doc := st_doc s; st_timers := st_timers s;
     st_frames := st_frames s; st_nextTimer := st_nextTimer s;
     st_uncaught := st_uncaught s; st_callerRef := st_callerRef s;
     canvasRef := canvasRef s; imgRef := imgRef s;
     reselectTimeout := reselectTimeout s; st_intervalId := v;
     st_phase := st_phase s; st_log := st_log s |}.

Definition with_phase (v : phase) (s : state) : state :=
  {| st_heap := st_heap s; st_doc := st_doc s; st_timers := st_timers s;
     st_frames := st_frames s; st_nextTimer := st_nextTimer s;
     st_uncaught := st_uncaught s; st_callerRef := st_callerRef s;
     canvasRef := canvasRef s; imgRef := imgRef s;
     reselectTimeout := reselectTimeout s; st_intervalId := st_intervalId s;
     st_phase := v; st_log := st_log s |}.

Definition with_log (v : list event) (s : state) : state :=
  {| st_heap := st_heap s; st_doc := st_doc s; st_timers := st_timers s;
     st_frames := st_frames s; st_nextTimer := st_nextTimer s;
     st_uncaught := st_uncaught s; st_callerRef := st_callerRef s;
     canvasRef := canvasRef s; imgRef := imgRef s;
     reselectTimeout := reselectTimeout s; st_intervalId := st_intervalId s;
     st_phase := st_phase s; st_log := v |}.

(** ** Computations that read and write the state and may throw *)

Inductive result (A : Type) :=
| Ret (a : A) (s : state)
| Throw (e : error) (s : state).
Arguments Ret {A} a s.
Arguments Throw {A} e s.

Definition M (A : Type) : Type := state -> result A.

Definition ret {A} (a : A) : M A := fun s => Ret a s.

Definition bind {A B} (m : M A) (k : A -> M B) : M B :=
  fun s => match m s with
           | Ret a s' => k a s'
           | Throw e s' => Throw e s'
           end.

Definition throw {A} (e : error) : M A := fun s => Throw e s.

Definition get {A} (f : state -> A) : M A := fun s => Ret (f s) s.

Definition modify (f : state -> state) : M unit := fun s => Ret tt (f s).

Notation "'let*' x ':=' m 'in' k" := (bind m (fun x => k))
  (at level 10, x name, m at level 100, k at level 200).
Notation "m '>>' k" := (bind m (fun _ => k))
  (at level 100, k at level 200, right associativity).

Definition final {A} (r : result A) : state :=
  match r with Ret _ s => s | Throw _ s => s end.

Definition thrown {A} (r : result A) : option error :=
  match r with Ret _ _ => None | Throw e _ => Some e end.

Definition when (b : bool) (m : M unit) : M unit := if b then m else ret tt.

Fixpoint for_each {A} (f : A -> M unit) (l : list A) : M unit :=
  match l with
  | [] => ret tt
  | x :: r => f x >> for_each f r
  end.

Definition emit (e : event) : M unit :=
  modify (fun s => with_log (e :: st_log s) s).

(** Member access on a value: [undefined.x] and [null.x] throw. *)
Definition deref (r : jsref) : M node :=
  match r with
  | Ref n => ret n
  | _ => throw TypeError
  end.

(** The element a node number stands for.  (A number beyond the heap
    stands for none; [Inv] below keeps the document within the heap, and
    the hook only ever holds nodes it has looked up or created.) *)
Definition element_of (n : node) : M element :=
  fun s => match st_heap s !! n with
           | Some e => Ret e s
           | None => Throw TypeError s
           end.

Definition update_element (n : node) (f : element -> element) : M unit :=
  let* e := element_of n in
  modify (fun s => with_heap (<[n := f e]> (st_heap s)) s).

(** ** The browser, as the hook sees it *)

(** What the embedding leaves to the browser: which elements a selector
    matches ([None] for a string that is no selector; matching is by the
    element alone), how [toDataURL] encodes a bitmap for a MIME type and
    a quality, and the bitmap of a canvas whose dimensions have just been
    set: transparent black, of the size the [width] and [height]
    attributes give. *)
Class Browser := {
  selector : string -> option (element -> bool);
  encode : list Z -> string -> Q -> string;
  blank : option string -> option string -> list Z;
}.

(** [new Image()]: a fresh image element, attached nowhere. *)
Definition new_Image : M node :=
  let* i := get (fun s => length (st_heap s)) in
  modify (fun s => with_heap (st_heap s ++ [Element HTMLImageElement ∅]) s) >>
  emit (EvImage i) >>
  ret i.

(** A valid attribute local name, by the current rule of the DOM
    standard: not empty, and free of ASCII whitespace, NUL, [/], [=] and
    [>]. *)
Definition forbidden_in_name (c : ascii) : bool :=
  let n := nat_of_ascii c in
  is_ascii_whitespace c || (n =? 0)%nat || (n =? 47)%nat || (n =? 61)%nat
  || (n =? 62)%nat.

Definition valid_attribute_name (k : string) : bool :=
  string_nonempty k && negb (string_exists forbidden_in_name k).

Definition is_dimension (k : string) : bool :=
  bool_decide (k = "width") || bool_decide (k = "height").

(** What a canvas does when its [width] or [height] attribute is set,
    even to the value it has: the bitmap is cleared. *)
Definition set_bitmap_dimensions `{Browser} (e : element) : element :=
  match el_interface e with
  | HTMLCanvasElement _ =>
      {| el_interface :=
           HTMLCanvasElement (blank (attr "width" e) (attr "height" e));
         el_attrs := el_attrs e |}
  | _ => e
  end.

(** An element once the attribute [k] has been set to [v]. *)
Definition write_attribute `{Browser} (k v : string) (e : element)
  : element :=
  if is_dimension k then set_bitmap_dimensions (set_attr k v e)
  else set_attr k v e.

(** [el.setAttribute(k, v)] on an HTML element: the name is lowercased. *)
Definition setAttribute `{Browser} (n : node) (k v : string) : M unit :=
  if valid_attribute_name k
  then update_element n (write_attribute (ascii_lowercase k) v)
  else throw InvalidCharacterError.

(** The first token [classList.add] rejects, with its exception. *)
Fixpoint invalid_token (tokens : list string) : option error :=
  match tokens with
  | [] => None
  | t :: r =>
      if negb (string_nonempty t) then Some SyntaxError
      else if string_exists is_ascii_whitespace t
           then Some InvalidCharacterError
           else invalid_token r
  end.

Definition class_tokens (e : element) : list string :=
  match attr "class" e with
  | Some v => parse_tokens v
  | None => []
  end.

(** [el.classList.add(...tokens)]: all tokens are validated first. *)
Definition classList_add (n : node) (tokens : list string) : M unit :=
  match invalid_token tokens with
  | Some e => throw e
  | None =>
      update_element n (fun e =>
        set_attr "class" (join_tokens (append_tokens (class_tokens e) tokens))
                 e)
  end.

(** [el.style = text]: the inline style is replaced as a whole. *)
Definition set_style (n : node) (text : string) : M unit :=
  update_element n (set_attr "style" text).

(** [img.src = url]. *)
Definition set_src (n : node) (url : string) : M unit :=
  update_element n (set_attr "src" url) >>
  emit (EvSrc n).

(** [c.after(x)]: nothing happens when [c] has no parent; the document,
    the parent of the document element, refuses a second element with a
    HierarchyRequestError; else the childless element [x] leaves where it
    was and becomes the next sibling of [c].  (A value that is no node
    would be inserted as text; the hook passes [imgRef.current] right
    after [createImg] has set it.) *)
Definition after (c : node) (x : jsref) : M unit :=
  match x with
  | Ref i =>
      let* d := get st_doc in
      let* h := get st_heap in
      if is_document_element h d c then throw HierarchyRequestError
      else if in_doc c d
           then modify (with_doc (insert_after c i (remove_node i d))) >>
                emit (EvInserted c i)
           else ret tt
  | _ => ret tt
  end.

(** [el.toDataURL(type, quality)]: only canvas elements have the method. *)
Definition toDataURL `{Browser} (n : node) (type : string) (q : Q)
  : M string :=
  let* e := element_of n in
  match el_interface e with
  | HTMLCanvasElement bitmap => emit (EvRead n) >> ret (encode bitmap type q)
  | _ => throw TypeError
  end.

(** [document.querySelector(sel)]: the first match in document order. *)
Fixpoint first_match (p : element -> bool) (h : list element)
  (order : list node) : jsref :=
  match order with
  | [] => Null
  | n :: r =>
      match h !! n with
      | Some e => if p e then Ref n else first_match p h r
      | None => first_match p h r
      end
  end.

Definition querySelector `{Browser} (sel : string) : M jsref :=
  match selector sel with
  | None => throw SyntaxError
  | Some p =>
      get (fun s => first_match p (st_heap s) (document_order (st_doc s)))
  end.

(** [x instanceof HTMLCanvasElement] for a value [x]. *)
Definition instanceof_HTMLCanvasElement (x : jsref) : M bool :=
  match x with
  | Ref n => get (fun s => match st_heap s !! n with
                           | Some e => is_canvas e
                           | None => false
                           end)
  | _ => ret false
  end.

Definition new_timer (cb : callback) (delay : Z) (repeat : bool) : M nat :=
  let* id := get st_nextTimer in
  modify (fun s => with_nextTimer (S id)
                     (with_timers (st_timers s ++ [Timer id cb delay repeat])
                                  s)) >>
  ret id.

Definition setTimeout (cb : callback) (delay : Z) : M nat :=
  new_timer cb delay false.

Definition setInterval (cb : callback) (delay : Z) : M nat :=
  new_timer cb delay true.

(** [clearTimeout(id)] and [clearInterval(id)] share one table. *)
Definition clearTimeout (id : nat) : M unit :=
  modify (fun s => with_timers
                     (filter (fun t => tm_id t ≠ id) (st_timers s)) s).

Definition clearInterval (id : nat) : M unit := clearTimeout id.

Definition requestAnimationFrame (cb : callback) : M unit :=
  modify (fun s => with_frames (st_frames s ++ [cb]) s).

(** ** The hook *)

Section Hook.
Context `{Browser} (cfg : config).

(** [ref.current.m(...)]: the member access throws on a missing value. *)
Definition current (ref : state -> jsref) : M node :=
  let* r := get ref in
  deref r.

Definition createImg : M unit :=
  (let* i := new_Image in
   modify (with_imgRef (Ref i))) >>
  when (string_nonempty (imgClassname cfg))
    (let* i := current imgRef in
     classList_add i (js_split " "%char (imgClassname cfg))) >>
  let* i := current imgRef in
  set_style i IMG_STYLE.

Definition updateCanvas : M unit :=
  for_each (fun kv => let* c := current canvasRef in
                      setAttribute c (fst kv) (snd kv))
           (canvasAttributes cfg) >>
  when (string_nonempty (canvasClassname cfg))
    (let* c := current canvasRef in
     classList_add c (js_split " "%char (canvasClassname cfg))) >>
  (let* c := current canvasRef in
   set_style c CANVAS_STYLE) >>
  createImg >>
  let* c := current canvasRef in
  let* img := get imgRef in
  after c img.

Definition createImgSrc : M unit :=
  requestAnimationFrame CbCapture.

(** The arrow function [createImgSrc] hands to requestAnimationFrame. *)
Definition capture : M unit :=
  let* c := get canvasRef in
  let* i := get imgRef in
  if negb (truthy c) || negb (truthy i) then ret tt
  else
    let* c := current canvasRef in
    let* dataUrl := toDataURL c (fileType cfg) (quality cfg) in
    let* i := current imgRef in
    set_src i dataUrl.

(** [canvas?.current]: only a ref object has the property. *)
Definition canvas_current : M jsref :=
  match canvas cfg with
  | ArgRefObject => get st_callerRef
  | _ => ret Undefined
  end.

(** [canvas] as the operand of [instanceof]: what is no element fails
    the test just as [undefined] does. *)
Definition canvas_element : jsref :=
  match canvas cfg with
  | ArgElement n => Ref n
  | _ => Undefined
  end.

Definition setCanvas : M unit :=
  match canvas cfg with
  | ArgString sel =>
      let* found := querySelector sel in
      modify (with_canvasRef found)
  | _ =>
      let* cur := canvas_current in
      let* is_ref := instanceof_HTMLCanvasElement cur in
      if is_ref then modify (with_canvasRef cur)
      else
        let* is_el := instanceof_HTMLCanvasElement canvas_element in
        if is_el then modify (with_canvasRef canvas_element) else ret tt
  end >>
  let* found := get canvasRef in
  match found with
  | Ref c => emit (EvResolved c) >> updateCanvas
  | _ =>
      let* id := setTimeout CbSetCanvas 100 in
      modify (with_reselectTimeout (Some id))
  end.

(** The effect of [useEffect(..., [])] and the cleanup it returns. *)
Definition effect : M unit := setCanvas.

Definition cleanup : M unit :=
  let* t := get reselectTimeout in
  match t with
  | Some (S _ as id) => clearTimeout id
  | _ => ret tt
  end.

(** Modelled from the spec: [useInterval], imported from usehooks-ts and
    absent from the sources.  With a duration it arms a recurring timer
    that invokes the callback and that its cleanup clears; with the
    disabled marker ([null] or [false]) it arms nothing. *)
Definition useInterval_effect (cb : callback) (delay : interval_arg)
  : M unit :=
  match delay with
  | IntervalMs ms =>
      let* id := setInterval cb ms in
      modify (with_intervalId (Some id))
  | _ => ret tt
  end.

Definition useInterval_cleanup : M unit :=
  let* t := get st_intervalId in
  match t with
  | Some id => clearInterval id
  | None => ret tt
  end.

(** [interval === null || interval === false ? createImgSrc : null] *)
Definition returned : value :=
  match interval cfg with
  | IntervalNull | IntervalFalse => VFunction CbCreateImgSrc
  | IntervalMs _ => VNull
  end.

(** The body of the hook, for the one render of an activation: the two
    refs start undefined.  [useEffect] and [useInterval] only register
    here: the framework runs [effect] and [useInterval_effect] at the
    commit and the two cleanups at the unmount ([Mount] and [Unmount]
    below). *)
Definition useCanvasImage : M value :=
  modify (with_canvasRef Undefined) >>
  modify (with_imgRef Undefined) >>
  ret returned.

Definition run_callback (cb : callback) : M unit :=
  match cb with
  | CbSetCanvas => setCanvas
  | CbCreateImgSrc => createImgSrc
  | CbCapture => capture
  end.

(** The call expression [v()]. *)
Definition call (v : value) : M unit :=
  match v with
  | VFunction f => run_callback f
  | VNull => throw TypeError
  end.

(** ** The host: who runs what, and when *)

(** A callback run by the browser: its exception goes nowhere but the
    browser's error report. *)
Definition host_run (cb : callback) (s : state) : state :=
  match run_callback cb s with
  | Ret _ s' => s'
  | Throw e s' => with_uncaught (e :: st_uncaught s') s'
  end.

(** What the surroundings do on their own: the document is rebuilt from
    existing elements, an element is created, the caller's ref object is
    filled, a canvas is drawn on. *)
Inductive change :=
| SetDocument (d : list tree)
| CreateElement (e : element)
| SetCallerRef (r : jsref)
| Draw (n : node) (bitmap : list Z).

Definition nodes_exist (h : list element) (d : list tree) : bool :=
  forallb (fun n => n <? length h)%nat (document_order d).

Definition draw (bitmap : list Z) (e : element) : element :=
  match el_interface e with
  | HTMLCanvasElement _ =>
      {| el_interface := HTMLCanvasElement bitmap; el_attrs := el_attrs e |}
  | _ => e
  end.

Definition apply_change (c : change) (s : state) : state :=
  match c with
  | SetDocument d => if nodes_exist (st_heap s) d then with_doc d s else s
  | CreateElement e => with_heap (st_heap s ++ [e]) s
  | SetCallerRef r =>
      match r with
      | Ref n => if (n <? length (st_heap s))%nat
                 then with_callerRef r s else s
      | _ => with_callerRef r s
      end
  | Draw n bitmap =>
      match st_heap s !! n with
      | Some e => with_heap (<[n := draw bitmap e]> (st_heap s)) s
      | None => s
      end
  end.

Inductive action :=
| Render            (* the component calls the hook *)
| Mount             (* the framework commits and runs the effects *)
| Unmount           (* the framework runs the cleanups *)
| Invoke            (* the caller calls the value the hook returned *)
| Fire (id : nat)   (* the browser fires the timer [id] *)
| Frame             (* the browser runs the queued frame callbacks *)
| Env (c : change).

Definition find_timer (id : nat) (l : list timer) : option timer :=
  List.find (fun t => (tm_id t =? id)%nat) l.

(** One action.  [Throw] is an exception that reaches whoever acted: the
    caller for [Render] and [Invoke], the framework for [Mount] and
    [Unmount].  An action that cannot happen in a state leaves it as it
    is.  An effect that throws makes the framework unmount the component
    before the later effects of the hook have run. *)
Definition step (a : action) : M unit := fun s =>
  match a, st_phase s with
  | Render, Uninitialized =>
      (useCanvasImage >> modify (with_phase Rendered)) s
  | Mount, Rendered =>
      match (effect >> useInterval_effect CbCreateImgSrc (interval cfg))
              (with_phase Mounted s) with
      | Ret _ s' => Ret tt s'
      | Throw e s' => Throw e (with_phase Unmounted s')
      end
  | Unmount, Mounted =>
      (cleanup >> useInterval_cleanup >> modify (with_phase Unmounted)) s
  | Invoke, (Rendered | Mounted | Unmounted) => call returned s
  | Fire id, _ =>
      match find_timer id (st_timers s) with
      | Some t =>
          let s' := if tm_repeat t then s
                    else with_timers
                           (filter (fun t' => tm_id t' ≠ id) (st_timers s))
                           s in
          Ret tt (host_run (tm_cb t) s')
      | None => Ret tt s
      end
  | Frame, _ =>
      Ret tt (fold_left (fun s' cb => host_run cb s') (st_frames s)
                        (with_frames [] s))
  | Env c, _ => Ret tt (apply_change c s)
  | _, _ => Ret tt s
  end.

(** A run of actions; an exception does not stop the world. *)
Fixpoint run (acts : list action) (s : state) : state :=
  match acts with
  | [] => s
  | a :: r => run r (final (step a s))
  end.

(** The exceptions that reached the caller or the framework. *)
Fixpoint surfaced (acts : list action) (s : state) : list error :=
  match acts with
  | [] => []
  | a :: r =>
      match step a s with
      | Ret _ s' => surfaced r s'
      | Throw e s' => e :: surfaced r s'
      end
  end.

End Hook.

(** A page before the hook is called: elements, document, the caller's
    ref object; timer ids start at 1 as in browsers. *)
Definition initial (h : list element) (d : list tree) (r : jsref) : state :=
  {| st_heap := h; st_doc := d; st_timers := []; st_frames := [];
     st_nextTimer := 1; st_uncaught := []; st_callerRef := r;
     canvasRef := Undefined; imgRef := Undefined; reselectTimeout := None;
     st_intervalId := None; st_phase := Uninitialized; st_log := [] |}.

(** ** Vocabulary of the statements *)

Definition is_read (e : event) : bool :=
  match e with EvRead _ => true | _ => false end.

Definition is_image (e : event) : bool :=
  match e with EvImage _ => true | _ => false end.

Definition is_resolved (e : event) : bool :=
  match e with EvResolved _ => true | _ => false end.

(** How many events of a kind a log holds. *)
Definition count (p : event -> bool) (log : list event) : nat :=
  length (List.filter p log).

(** The log a frame of [n] captures of canvas [c] into image [i] adds. *)
Fixpoint captures (n : nat) (c i : node) (log : list event) : list event :=
  match n with
  | 0 => log
  | S k => EvSrc i :: EvRead c :: captures k c i log
  end.

Definition with_interval (iv : interval_arg) (cfg : config) : config :=
  {| canvas := canvas cfg; imgClassname := imgClassname cfg;
     canvasClassname := canvasClassname cfg;
     canvasAttributes := canvasAttributes cfg; fileType := fileType cfg;
     quality := quality cfg; interval := iv |}.

(** What [updateCanvas] does before it creates the image. *)
Definition prepare `{Browser} (cfg : config) : M unit :=
  for_each (fun kv => let* c := current canvasRef in
                      setAttribute c (fst kv) (snd kv))
           (canvasAttributes cfg) >>
  when (string_nonempty (canvasClassname cfg))
    (let* c := current canvasRef in
     classList_add c (js_split " "%char (canvasClassname cfg))).

(** A computation that touches nothing but the elements of the heap, and
    creates none. *)
Definition heap_only (m : M unit) : Prop :=
  forall s, exists h,
    length h = length (st_heap s) /\
    (m s = Ret tt (with_heap h s) \/ exists e, m s = Throw e (with_heap h s)).

(** The state once [createImg] has created the image [i] in [s]. *)
Definition image_created (i : node) (h : list element) (s : state) : state :=
  with_log (EvImage i :: st_log s) (with_imgRef (Ref i) (with_heap h s)).

(** The state once [after] has attached [i] behind [c]. *)
Definition image_inserted (c i : node) (h : list element) (s : state)
  : state :=
  with_log (EvInserted c i :: EvImage i :: st_log s)
    (with_doc (insert_after c i (remove_node i (st_doc s)))
       (with_imgRef (Ref i) (with_heap h s))).

Definition styled (style : string) (h : list element) (n : node) : Prop :=
  exists e, h !! n = Some e /\ attr "style" e = Some style.

(** How [updateCanvas] can end when it starts in [s] with
    [canvasRef.current] the node [c]. *)
Inductive setup_outcome (s : state) (c : node) : result unit -> Prop :=
| setup_threw_early e h :
    length h = length (st_heap s) ->
    setup_outcome s c (Throw e (with_heap h s))
| setup_threw_late e h :
    length h = S (length (st_heap s)) ->
    setup_outcome s c (Throw e (image_created (length (st_heap s)) h s))
| setup_detached h :
    length h = S (length (st_heap s)) ->
    in_doc c (st_doc s) = false ->
    styled CANVAS_STYLE h c -> styled IMG_STYLE h (length (st_heap s)) ->
    setup_outcome s c (Ret tt (image_created (length (st_heap s)) h s))
| setup_attached h :
    length h = S (length (st_heap s)) ->
    in_doc c (st_doc s) = true ->
    styled CANVAS_STYLE h c -> styled IMG_STYLE h (length (st_heap s)) ->
    setup_outcome s c (Ret tt (image_inserted c (length (st_heap s)) h s)).

(** The state in which [setCanvas] has found no canvas and has scheduled
    itself again. *)
Definition retry_state (s : state) : state :=
  with_reselectTimeout (Some (st_nextTimer s))
    (with_nextTimer (S (st_nextTimer s))
       (with_timers
          (st_timers s ++ [Timer (st_nextTimer s) CbSetCanvas 100 false]) s)).

(** The state in which [setCanvas] has found [c] and is about to call
    [updateCanvas]. *)
Definition resolved_state (c : node) (s : state) : state :=
  with_log (EvResolved c :: st_log s) (with_canvasRef (Ref c) s).

(** What [setCanvas] does once it has assigned [canvasRef.current]. *)
Definition setCanvas_rest `{Browser} (cfg : config) : M unit :=
  let* found := get canvasRef in
  match found with
  | Ref c => emit (EvResolved c) >> updateCanvas cfg
  | _ =>
      let* id := setTimeout CbSetCanvas 100 in
      modify (with_reselectTimeout (Some id))
  end.

(** How [setCanvas] can end. *)
Inductive setCanvas_outcome (s : state) : result unit -> Prop :=
| resolve_threw :
    setCanvas_outcome s (Throw SyntaxError s)
| resolve_retry r :
    truthy r = false ->
    setCanvas_outcome s (Ret tt (retry_state (with_canvasRef r s)))
| resolve_found c res :
    is_Some (st_heap s !! c) ->
    setup_outcome (resolved_state c s) c res ->
    setCanvas_outcome s res.

(** How the arrow function of [createImgSrc] can end. *)
Inductive capture_outcome (s : state) : result unit -> Prop :=
| capture_abandoned :
    truthy (canvasRef s) = false \/ truthy (imgRef s) = false ->
    capture_outcome s (Ret tt s)
| capture_no_method c :
    canvasRef s = Ref c -> truthy (imgRef s) = true ->
    capture_outcome s (Throw TypeError s)
| capture_no_image c i :
    canvasRef s = Ref c -> imgRef s = Ref i ->
    capture_outcome s (Throw TypeError (with_log (EvRead c :: st_log s) s))
| capture_done c i h :
    canvasRef s = Ref c -> imgRef s = Ref i ->
    length h = length (st_heap s) ->
    capture_outcome s
      (Ret tt (with_log (EvSrc i :: EvRead c :: st_log s) (with_heap h s))).

(** ** The invariant of an activation *)

(** What the log must hold before an event may be added: resolution comes
    first and once, the image once and after it, everything else after
    the image. *)
Definition event_ok (e : event) (pre : list event) : Prop :=
  match e with
  | EvResolved _ => pre = []
  | EvImage _ => (exists c, In (EvResolved c) pre) /\ count is_image pre = 0
  | EvInserted c i => In (EvImage i) pre /\ In (EvResolved c) pre
  | EvRead c => In (EvResolved c) pre /\ exists i, In (EvImage i) pre
  | EvSrc i => In (EvImage i) pre
  end.

Fixpoint log_ok (log : list event) : Prop :=
  match log with
  | [] => True
  | e :: pre => event_ok e pre /\ log_ok pre
  end.

(** The timers of the hook: the one pending retry of [setCanvas], held in
    [reselectTimeout] and there only while nothing is resolved, and the
    interval of [useInterval]. *)
Definition timer_ok (cfg : config) (s : state) (t : timer) : Prop :=
  st_phase s = Mounted /\
  match tm_cb t with
  | CbSetCanvas =>
      tm_delay t = 100%Z /\ tm_repeat t = false /\
      reselectTimeout s = Some (tm_id t) /\ tm_id t <> 0 /\ st_log s = []
  | CbCreateImgSrc =>
      tm_repeat t = true /\ interval cfg = IntervalMs (tm_delay t) /\
      st_intervalId s = Some (tm_id t)
  | CbCapture => False
  end.

Record Inv (cfg : config) (s : state) : Prop := {
  inv_log : log_ok (st_log s);
  inv_canvas : forall c, canvasRef s = Ref c -> In (EvResolved c) (st_log s);
  inv_img : forall i, imgRef s = Ref i -> In (EvImage i) (st_log s);
  inv_unresolved : truthy (canvasRef s) = false -> st_log s = [];
  inv_frames : Forall (fun cb => cb = CbCapture) (st_frames s);
  inv_timers : Forall (timer_ok cfg s) (st_timers s);
  inv_early : st_phase s = Uninitialized \/ st_phase s = Rendered ->
              st_log s = [];
  inv_next : st_nextTimer s <> 0;
  inv_doc : nodes_exist (st_heap s) (st_doc s) = true;
}.

(** Deactivated before anything was resolved. *)
Definition torn_down_unresolved (s : state) : Prop :=
  st_phase s = Unmounted /\ st_log s = [] /\ st_timers s = [] /\
  truthy (canvasRef s) = false /\ truthy (imgRef s) = false /\
  Forall (fun cb => cb = CbCapture) (st_frames s).

Definition is_env `{Browser} (a : action) : bool :=
  match a with Env _ => true | _ => false end.


(** The id of the pending retry, as the effect's closure holds it. *)
Definition retry_id (s : state) : nat :=
  match reselectTimeout s with Some id => id | None => 0 end.




(** ** The claims that the code does not meet, as they are stated *)

(** "The trigger function is only wired up after setup completes": the
    trigger can queue a capture only once the image exists. *)
Definition trigger_wired_after_setup `{Browser} (cfg : config) (s0 : state)
  : Prop :=
  forall acts,
    let s := run cfg acts s0 in
    st_frames (final (step cfg Invoke s)) <> st_frames s ->
    exists i, In (EvImage i) (st_log s).

(** "No error is ever surfaced to the activation's caller." *)
Definition no_error_surfaced `{Browser} (cfg : config) (s0 : state) : Prop :=
  forall acts, surfaced cfg acts s0 = [].


(** "When created the mirror image is always inserted immediately after
    the surface element": right after the action that created it. *)
Definition image_always_inserted `{Browser} (cfg : config) (s0 : state)
  : Prop :=
  forall acts a,
    let s := run cfg acts s0 in
    let s' := final (step cfg a s) in
    forall i, imgRef s' = Ref i -> imgRef s <> Ref i ->
    exists c, canvasRef s' = Ref c /\ next_sibling c (st_doc s') = Some i.

(** ** A browser and some pages to run the hook on *)

(** Selectors of the form [#id] only; the encoder shows the MIME type and
    how many samples it read; a cleared bitmap is shown as one
    transparent pixel, whatever the dimensions. *)
Definition id_selectors : Browser :=
  {| selector sel :=
       match sel with
       | String "#" id =>
           if string_nonempty id
           then Some (fun e => bool_decide (attr "id" e = Some id))
           else None
       | _ => None
       end;
     encode bitmap type q :=
       "data:" +:+ type +:+ ";base64," +:+ pretty (length bitmap);
     blank width height := [0; 0; 0; 0]%Z |}.

Definition a_canvas : element :=
  Element (HTMLCanvasElement [255; 0; 0; 255]%Z)
          {[ "id" := "c"; "style" := "border: 1px solid" ]}.

Definition a_div : element := Element (HTMLElement "div") {[ "id" := "d" ]}.

(** [<div id="d"><canvas id="c" style="border: 1px solid"></div>] *)
Definition canvas_page : state :=
  initial [a_div; a_canvas] [Node 0 [Node 1 []]] Undefined.

(** [<div id="d"></div>]: no canvas yet. *)
Definition blank_page : state := initial [a_div] [Node 0 []] Undefined.

(** A canvas that was created but attached nowhere. *)
Definition detached_page : state := initial [a_canvas] [] Undefined.

Definition manual_config : config := default_config (ArgString "#c").

Definition periodic_config : config :=
  with_interval (IntervalMs 100) manual_config.

(** The selector names the [div]. *)
Definition div_config : config := default_config (ArgString "#d").

(** The canvas is passed as an element. *)
Definition element_config : config := default_config (ArgElement 0).


(** Classes and attributes, a [style] among them. *)
Definition styled_config : config :=
  {| canvas := ArgString "#c"; imgClassname := "mirror";
     canvasClassname := "fs-exclude";
     canvasAttributes := [("style", "opacity: 0.5"); ("data-private", "1")];
     fileType := "image/png"; quality := Qmake 1 2;
     interval := IntervalNull |}.

(** ** Vocabulary of the setup, element by element *)

(** A token [classList.add] accepts: not empty, no ASCII whitespace. *)
Definition valid_token (t : string) : bool :=
  string_nonempty t && negb (string_exists is_ascii_whitespace t).

(** A class option the hook can pass on: the empty string, for which it
    calls nothing, or tokens separated by single spaces. *)
Definition accepted_classes (classes : string) : Prop :=
  classes = "" \/
  exists l, l <> [] /\ Forall (fun t => valid_token t = true) l /\
            classes = join_tokens l.

(** The canvas once the attribute loop of [updateCanvas] has run. *)
Definition apply_attributes `{Browser} (attrs : list (string * string))
  (e : element) : element :=
  fold_left (fun e kv => write_attribute (ascii_lowercase (fst kv)) (snd kv) e)
            attrs e.

(** An element once [if (classes) el.classList.add(...classes.split(' '))]
    has run. *)
Definition add_classes (classes : string) (e : element) : element :=
  if string_nonempty classes
  then set_attr "class"
         (join_tokens (append_tokens (class_tokens e)
                                     (js_split " " classes))) e
  else e.

(** The canvas and the image once [updateCanvas] has returned. *)
Definition canvas_after `{Browser} (cfg : config) (e : element) : element :=
  set_attr "style" CANVAS_STYLE
    (add_classes (canvasClassname cfg)
       (apply_attributes (canvasAttributes cfg) e)).

Definition image_after (cfg : config) : element :=
  set_attr "style" IMG_STYLE
    (add_classes (imgClassname cfg) (Element HTMLImageElement ∅)).

(** The state once [updateCanvas] has returned, when it started in [s]
    with [canvasRef.current] the element [e] at node [c]. *)
Definition setup_state `{Browser} (cfg : config) (c : node) (e : element)
  (s : state) : state :=
  let i := length (st_heap s) in
  let h := <[c := canvas_after cfg e]> (st_heap s) ++ [image_after cfg] in
  if in_doc c (st_doc s) then image_inserted c i h s
  else image_created i h s.

(** The exception [classList.add] throws for a class option, if any. *)
Definition class_error (classes : string) : option error :=
  if string_nonempty classes
  then invalid_token (js_split " " classes)
  else None.

(** The exception [updateCanvas] throws for a configuration, if any: the
    attribute names are met first, then the classes of the canvas, then
    those of the image. *)
Definition setup_error (cfg : config) : option error :=
  if forallb (fun kv => valid_attribute_name (fst kv)) (canvasAttributes cfg)
  then match class_error (canvasClassname cfg) with
       | Some e => Some e
       | None => class_error (imgClassname cfg)
       end
  else Some InvalidCharacterError.

(** The exception [updateCanvas] throws when [canvasRef.current] is the
    node [c] of the page [s], if any: the one of the strings, or, the
    strings accepted, the one of [after] on the document element. *)
Definition setup_exception (cfg : config) (s : state) (c : node)
  : option error :=
  match setup_error cfg with
  | Some err => Some err
  | None =>
      if is_document_element (st_heap s) (st_doc s) c
      then Some HierarchyRequestError
      else None
  end.

(** The attribute names [updateCanvas] may write on the canvas. *)
Definition setup_names (cfg : config) : list string :=
  "style" :: "class"
  :: map (fun kv => ascii_lowercase (fst kv)) (canvasAttributes cfg).

(** [e'] is [e] but for the attributes named in [names]. *)
Definition touched (names : list string) (e e' : element) : Prop :=
  el_interface e' = el_interface e /\
  forall k, k ∉ names -> attr k e' = attr k e.

(** ** Vocabulary of the runs *)

Definition is_retry (t : timer) : bool :=
  match tm_cb t with CbSetCanvas => true | _ => false end.

Definition is_interval (t : timer) : bool :=
  match tm_cb t with CbCreateImgSrc => true | _ => false end.

(** How many timers of a kind are pending. *)
Definition pending (p : timer -> bool) (s : state) : nat :=
  length (List.filter p (st_timers s)).

(** An interface without the bitmap: the kind of an element. *)
Definition kind (i : interface) : interface :=
  match i with
  | HTMLCanvasElement _ => HTMLCanvasElement []
  | _ => i
  end.

(** [e'] is an element of the kind of [e]; with [exact], it has the
    interface, and for a canvas the bitmap, of [e]. *)
Definition same_kind (exact : bool) (e e' : element) : Prop :=
  kind (el_interface e') = kind (el_interface e) /\
  (exact = true -> el_interface e' = el_interface e).

(** Every element of [h] is still there in [h'], of the kind it was. *)
Definition keeps_elements (exact : bool) (h h' : list element) : Prop :=
  forall n e, h !! n = Some e ->
              exists e', h' !! n = Some e' /\ same_kind exact e e'.

(** A computation that removes no element and changes no kind. *)
Definition gentle {A} (exact : bool) (m : M A) : Prop :=
  forall s, keeps_elements exact (st_heap s) (st_heap (final (m s))).

(** Neither [width] nor [height] is among the names. *)
Definition no_dimension (names : list string) : bool :=
  forallb (fun k => negb (is_dimension k)) names.

(** The lowercased names of the configured attributes. *)
Definition configured_names (cfg : config) : list string :=
  map (fun kv => ascii_lowercase (fst kv)) (canvasAttributes cfg).

(** [e'] is [e] but for the attributes named in [names], and for the
    bitmap when a dimension is among them. *)
Definition written (names : list string) (e e' : element) : Prop :=
  same_kind (no_dimension names) e e' /\
  forall k, k ∉ names -> attr k e' = attr k e.

(** The canvas is resolved and no image exists: where [updateCanvas]
    leaves the hook when it throws before [createImg]. *)
Definition setup_failed (s : state) : Prop :=
  truthy (canvasRef s) = true /\ truthy (imgRef s) = false.

(** The [canvas] option designates the element [c] in the state [s]:
    the selector's first match, the canvas the caller's ref object
    holds, or the canvas that was passed. *)
Definition designates `{Browser} (cfg : config) (s : state) (c : node)
  : Prop :=
  match canvas cfg with
  | ArgString sel =>
      exists p, selector sel = Some p /\
                first_match p (st_heap s) (document_order (st_doc s)) = Ref c
  | ArgRefObject =>
      st_callerRef s = Ref c /\
      exists e, st_heap s !! c = Some e /\ is_canvas e = true
  | ArgElement n =>
      n = c /\ exists e, st_heap s !! c = Some e /\ is_canvas e = true
  | ArgOther => False
  end.

(** A [canvas] option that can never be resolved: a value of none of the
    three forms, or an element that is no canvas. *)
Definition unusable (cfg : config) (s : state) : Prop :=
  match canvas cfg with
  | ArgOther => True
  | ArgElement n => exists e, st_heap s !! n = Some e /\ is_canvas e = false
  | _ => False
  end.

(** Nothing is resolved, and the retry is pending while mounted. *)
Definition retrying (s : state) : Prop :=
  truthy (canvasRef s) = false /\
  (st_phase s = Mounted -> pending is_retry s = 1).

(** ** More pages and configurations *)

(** A configuration of the page with [styled_config], but for an
    attribute name with a space in it. *)
Definition bad_attribute_config : config :=
  {| canvas := ArgString "#c"; imgClassname := "mirror";
     canvasClassname := "fs-exclude";
     canvasAttributes := [("data-private", "1"); ("aria label", "x");
                          ("width", "300")];
     fileType := "image/png"; quality := Qmake 1 2;
     interval := IntervalNull |}.

(** The canvas of the page with classes of its own. *)
Definition classy_canvas : element :=
  Element (HTMLCanvasElement [255; 0; 0; 255]%Z)
          {[ "id" := "c"; "class" := "chart  wide" ]}.

(** Classes for both elements, one of them on the canvas already and
    one given twice, and an attribute name in capitals. *)
Definition classy_config : config :=
  {| canvas := ArgString "#c"; imgClassname := "mirror mirror hidden";
     canvasClassname := "wide fs-exclude";
     canvasAttributes := [("Width", "300")];
     fileType := "image/png"; quality := Qmake 1 2;
     interval := IntervalNull |}.

(** The canvas is handed over through a ref object. *)
Definition ref_config : config := default_config ArgRefObject.

(** A string that is no selector. *)
Definition bad_selector_config : config := default_config (ArgString "c").

(** [<html id="top"><body><canvas id="c" ...></body></html>]: a whole
    document, as nodes 0 to 2. *)
Definition whole_page : state :=
  initial [Element (HTMLElement "html") {[ "id" := "top" ]};
           Element (HTMLElement "body") ∅; a_canvas]
          [Node 0 [Node 1 [Node 2 []]]] Undefined.

(** The selector names the document element. *)
Definition top_config : config := default_config (ArgString "#top").

(** The page with the canvas, [canvasRef.current] set to it. *)
Definition resolved_page : state := with_canvasRef (Ref 1) canvas_page.

(** The same with the canvas that has classes of its own. *)
Definition classy_page : state :=
  with_canvasRef (Ref 1)
    (initial [a_div; classy_canvas] [Node 0 [Node 1 []]] Undefined).

(** The page once the hook is set up in the manual mode and the trigger
    was called twice. *)
Definition queued_page : state :=
  @run id_selectors manual_config [Render; Mount; Invoke; Invoke]
       canvas_page.

(** [<section><canvas id="c"><p></section><div id="d">], as nodes 0 to
    3 of a page: the canvas has a next sibling. *)
Definition crowded_page : state :=
  initial [Element (HTMLElement "section") ∅; a_canvas;
           Element (HTMLElement "p") ∅; a_div]
          [Node 0 [Node 1 []; Node 2 []]; Node 3 []] Undefined.

(** * Properties *)

(** ** The document tree *)

Lemma insert_after_cons c i t r :
  insert_after c i (t :: r) =
  if (root t =? c)%nat then t :: Node i [] :: r
  else insert_after_tree c i t :: insert_after c i r.
Proof. reflexivity. Qed.

Lemma insert_after_tree_node c i m ts :
  insert_after_tree c i (Node m ts) = Node m (insert_after c i ts).
Proof. reflexivity. Qed.

Lemma next_sibling_cons c t r :
  next_sibling c (t :: r) =
  if (root t =? c)%nat
  then match r with [] => None | t' :: _ => Some (root t') end
  else match next_sibling_tree c t with
       | Some x => Some x
       | None => next_sibling c r
       end.
Proof. reflexivity. Qed.

Lemma next_sibling_tree_node c m ts :
  next_sibling_tree c (Node m ts) = next_sibling c ts.
Proof. reflexivity. Qed.

Lemma remove_node_cons n t r :
  remove_node n (t :: r) =
  if (root t =? n)%nat then remove_node n r
  else remove_tree n t :: remove_node n r.
Proof. reflexivity. Qed.

Lemma remove_tree_node n m ts :
  remove_tree n (Node m ts) = Node m (remove_node n ts).
Proof. reflexivity. Qed.

Lemma document_order_cons t r :
  document_order (t :: r) = root t :: document_order (children t)
                                   ++ document_order r.
Proof. destruct t; reflexivity. Qed.

Lemma in_doc_true n f : in_doc n f = true <-> n ∈ document_order f.
Proof. unfold in_doc. by rewrite bool_decide_eq_true. Qed.

Lemma in_doc_false n f : in_doc n f = false <-> n ∉ document_order f.
Proof. unfold in_doc. by rewrite bool_decide_eq_false. Qed.

(** A node that is not attached is removed from nowhere. *)
Lemma remove_node_absent n f :
  n ∉ document_order f -> remove_node n f = f.
Proof.
  revert f.
  assert (Ht : forall t, n ∉ document_order (children t) ->
                         remove_tree n t = t).
  { induction t as [m ts IH] using tree_ind. simpl children.
    rewrite remove_tree_node. intros Hn. f_equal.
    induction IH as [|t r Ht _ IHr]; [reflexivity|].
    rewrite document_order_cons in Hn.
    rewrite remove_node_cons.
    apply not_elem_of_cons in Hn as [Hne Hn].
    apply not_elem_of_app in Hn as [Hc Hr].
    destruct (Nat.eqb_spec (root t) n) as [Heq|_]; [congruence|].
    by rewrite Ht, IHr. }
  induction f as [|t r IHr]; intros Hn; [reflexivity|].
  rewrite document_order_cons in Hn. rewrite remove_node_cons.
  apply not_elem_of_cons in Hn as [Hne Hn].
  apply not_elem_of_app in Hn as [Hc Hr].
  destruct (Nat.eqb_spec (root t) n) as [Heq|_]; [congruence|].
  by rewrite Ht, IHr.
Qed.

(** Where no tree of a forest holds [c], [c] has no sibling to find. *)
Lemma next_sibling_absent c f :
  c ∉ document_order f -> next_sibling c f = None.
Proof.
  revert f.
  assert (Ht : forall t, c ∉ document_order (children t) ->
                         next_sibling_tree c t = None).
  { induction t as [m ts IH] using tree_ind. simpl children.
    rewrite next_sibling_tree_node. intros Hn.
    induction IH as [|t r Ht _ IHr]; [reflexivity|].
    rewrite document_order_cons in Hn. rewrite next_sibling_cons.
    apply not_elem_of_cons in Hn as [Hne Hn].
    apply not_elem_of_app in Hn as [Hc Hr].
    destruct (Nat.eqb_spec (root t) c) as [Heq|_]; [congruence|].
    by rewrite Ht, IHr. }
  induction f as [|t r IHr]; intros Hn; [reflexivity|].
  rewrite document_order_cons in Hn. rewrite next_sibling_cons.
  apply not_elem_of_cons in Hn as [Hne Hn].
  apply not_elem_of_app in Hn as [Hc Hr].
  destruct (Nat.eqb_spec (root t) c) as [Heq|_]; [congruence|].
  by rewrite Ht, IHr.
Qed.

(** [insert_after] leaves a tree without [c] alone. *)
Lemma insert_after_absent c i f :
  c ∉ document_order f -> insert_after c i f = f.
Proof.
  revert f.
  assert (Ht : forall t, c ∉ document_order (children t) ->
                         insert_after_tree c i t = t).
  { induction t as [m ts IH] using tree_ind. simpl children.
    rewrite insert_after_tree_node. intros Hn. f_equal.
    induction IH as [|t r Ht _ IHr]; [reflexivity|].
    rewrite document_order_cons in Hn. rewrite insert_after_cons.
    apply not_elem_of_cons in Hn as [Hne Hn].
    apply not_elem_of_app in Hn as [Hc Hr].
    destruct (Nat.eqb_spec (root t) c) as [Heq|_]; [congruence|].
    by rewrite Ht, IHr. }
  induction f as [|t r IHr]; intros Hn; [reflexivity|].
  rewrite document_order_cons in Hn. rewrite insert_after_cons.
  apply not_elem_of_cons in Hn as [Hne Hn].
  apply not_elem_of_app in Hn as [Hc Hr].
  destruct (Nat.eqb_spec (root t) c) as [Heq|_]; [congruence|].
  by rewrite Ht, IHr.
Qed.

(** The element inserted behind an attached [c] is its next sibling. *)
Lemma next_sibling_insert_after c i f :
  c ∈ document_order f -> next_sibling c (insert_after c i f) = Some i.
Proof.
  revert f.
  assert (Ht : forall t, c ∈ document_order (children t) ->
             next_sibling_tree c (insert_after_tree c i t) = Some i).
  { induction t as [m ts IH] using tree_ind. simpl children.
    rewrite insert_after_tree_node, next_sibling_tree_node. intros Hn.
    induction IH as [|t r Ht _ IHr]; [by apply elem_of_nil in Hn|].
    rewrite insert_after_cons.
    destruct (Nat.eqb_spec (root t) c) as [Heq|Hne].
    - rewrite next_sibling_cons. by rewrite <- Heq, Nat.eqb_refl.
    - rewrite next_sibling_cons.
      assert ((root (insert_after_tree c i t) =? c)%nat = false) as ->.
      { destruct t. simpl in *. by apply Nat.eqb_neq. }
      rewrite document_order_cons in Hn.
      apply elem_of_cons in Hn as [Hn|Hn]; [done|].
      destruct (decide (c ∈ document_order (children t))) as [Hin|Hout].
      + by rewrite Ht.
      + apply elem_of_app in Hn as [Hn|Hn]; [done|].
        destruct t as [m' ts']. simpl children in Hout.
        rewrite insert_after_tree_node, next_sibling_tree_node.
        rewrite insert_after_absent by done.
        rewrite next_sibling_absent by done. by apply IHr. }
  intros f Hn. apply (Ht (body f)). exact Hn.
Qed.

(** Inserting keeps what was attached and attaches [i]. *)
Lemma document_order_insert_after c i f n :
  n ∈ document_order (insert_after c i f) ->
  n = i \/ n ∈ document_order f.
Proof.
  revert f.
  assert (Ht : forall t, n ∈ document_order (children (insert_after_tree c i t))
                         -> n = i \/ n ∈ document_order (children t)).
  { induction t as [m ts IH] using tree_ind.
    rewrite insert_after_tree_node. simpl children.
    induction IH as [|t r Ht _ IHr]; [by right|].
    rewrite insert_after_cons.
    destruct (Nat.eqb_spec (root t) c) as [Heq|Hne].
    - rewrite !document_order_cons. simpl.
      rewrite !elem_of_cons, !elem_of_app, elem_of_cons. tauto.
    - rewrite !document_order_cons.
      destruct t as [m' ts']. rewrite insert_after_tree_node in *.
      simpl in *. rewrite !elem_of_cons, !elem_of_app. tauto. }
  intros f. apply (Ht (body f)).
Qed.

(** ** The capture *)

Ltac state_simpl :=
  cbn [st_heap st_doc st_timers st_frames st_nextTimer st_uncaught
       st_callerRef canvasRef imgRef reselectTimeout st_intervalId st_phase
       st_log with_heap with_doc with_timers with_frames with_nextTimer
       with_uncaught with_callerRef with_canvasRef with_imgRef
       with_reselectTimeout with_intervalId with_phase with_log
       final thrown truthy negb orb andb] in *.

(** Unfolds the field updates down to record literals. *)
Ltac state_norm :=
  unfold with_heap, with_doc, with_timers, with_frames, with_nextTimer,
    with_uncaught, with_callerRef, with_canvasRef, with_imgRef,
    with_reselectTimeout, with_intervalId, with_phase, with_log;
  cbn [st_heap st_doc st_timers st_frames st_nextTimer st_uncaught
       st_callerRef canvasRef imgRef reselectTimeout st_intervalId st_phase
       st_log].

Ltac run_monad :=
  cbv beta iota delta [bind ret get modify throw when emit current deref
                       element_of update_element] in *;
  state_simpl.

Section Capture.
Context `{Browser} (cfg : config).

Lemma createImgSrc_queues s :
  createImgSrc s = Ret tt (with_frames (st_frames s ++ [CbCapture]) s).
Proof. reflexivity. Qed.

Lemma capture_missing s :
  truthy (canvasRef s) = false \/ truthy (imgRef s) = false ->
  capture cfg s = Ret tt s.
Proof.
  intros Hm. unfold capture. run_monad.
  destruct (canvasRef s), (imgRef s); simpl in *; try reflexivity;
    destruct Hm; discriminate.
Qed.

Lemma capture_reads s c i ec ei bitmap :
  canvasRef s = Ref c -> imgRef s = Ref i ->
  st_heap s !! c = Some ec -> el_interface ec = HTMLCanvasElement bitmap ->
  st_heap s !! i = Some ei ->
  capture cfg s =
  Ret tt (with_log (EvSrc i :: EvRead c :: st_log s)
            (with_heap
               (<[i := set_attr "src"
                         (encode bitmap (fileType cfg) (quality cfg)) ei]>
                  (st_heap s)) s)).
Proof.
  intros Hc Hi Hec Hk Hei. unfold capture, toDataURL, set_src. run_monad.
  repeat (progress (rewrite ?Hc, ?Hi, ?Hec, ?Hk, ?Hei; state_simpl)).
  reflexivity.
Qed.

Lemma host_run_missing s :
  truthy (canvasRef s) = false \/ truthy (imgRef s) = false ->
  host_run cfg CbCapture s = s.
Proof.
  intros Hm. unfold host_run. simpl. by rewrite capture_missing.
Qed.

Lemma frame_missing l s :
  truthy (canvasRef s) = false \/ truthy (imgRef s) = false ->
  Forall (fun cb => cb = CbCapture) l ->
  fold_left (fun s' cb => host_run cfg cb s') l s = s.
Proof.
  intros Hm Hl. induction Hl as [|cb l -> _ IH]; [reflexivity|].
  simpl fold_left. by rewrite host_run_missing.
Qed.

Lemma host_run_reads s c i ec ei bitmap :
  canvasRef s = Ref c -> imgRef s = Ref i ->
  st_heap s !! c = Some ec -> el_interface ec = HTMLCanvasElement bitmap ->
  st_heap s !! i = Some ei ->
  host_run cfg CbCapture s =
  with_log (EvSrc i :: EvRead c :: st_log s)
    (with_heap
       (<[i := set_attr "src"
                 (encode bitmap (fileType cfg) (quality cfg)) ei]>
          (st_heap s)) s).
Proof.
  intros. unfold host_run. simpl run_callback.
  by erewrite capture_reads by eassumption.
Qed.

(** Captures leave the canvas and the two refs as they are. *)
Lemma frame_keeps n : forall s c i ec ei bitmap,
  canvasRef s = Ref c -> imgRef s = Ref i -> c <> i ->
  st_heap s !! c = Some ec -> el_interface ec = HTMLCanvasElement bitmap ->
  st_heap s !! i = Some ei ->
  forall s', s' = fold_left (fun s' cb => host_run cfg cb s')
                            (replicate n CbCapture) s ->
  canvasRef s' = Ref c /\ imgRef s' = Ref i /\
  st_heap s' !! c = Some ec /\ exists ei', st_heap s' !! i = Some ei'.
Proof.
  induction n as [|n IH]; intros s c i ec ei bitmap Hc Hi Hne Hec Hk Hei;
    intros s' ->; [by simpl; eauto|].
  rewrite replicate_S_end, fold_left_app. simpl fold_left.
  destruct (IH s c i ec ei bitmap Hc Hi Hne Hec Hk Hei _ eq_refl)
    as (Hc' & Hi' & Hec' & ei' & Hei').
  erewrite host_run_reads by eassumption.
  cbn [canvasRef imgRef st_heap with_log with_heap].
  rewrite list_lookup_insert_ne by done.
  rewrite list_lookup_insert_eq by (by eapply lookup_lt_Some).
  eauto.
Qed.

(** A frame of [n] queued captures reads [n] times. *)
Lemma frame_reads n : forall s c i ec ei bitmap,
  canvasRef s = Ref c -> imgRef s = Ref i -> c <> i ->
  st_heap s !! c = Some ec -> el_interface ec = HTMLCanvasElement bitmap ->
  st_heap s !! i = Some ei ->
  st_log (fold_left (fun s' cb => host_run cfg cb s')
                    (replicate n CbCapture) s)
  = captures n c i (st_log s).
Proof.
  induction n as [|n IH]; intros s c i ec ei bitmap Hc Hi Hne Hec Hk Hei;
    [reflexivity|].
  rewrite replicate_S_end, fold_left_app. simpl fold_left.
  destruct (frame_keeps n s c i ec ei bitmap Hc Hi Hne Hec Hk Hei _ eq_refl)
    as (Hc' & Hi' & Hec' & ei' & Hei').
  erewrite host_run_reads by eassumption.
  cbn [st_log with_log with_heap captures]. by erewrite IH.
Qed.

End Capture.

(** ** The one-time setup *)

Lemma with_heap_id s : with_heap (st_heap s) s = s.
Proof. by destruct s. Qed.

Lemma current_canvasRef (k : node -> M unit) s c :
  canvasRef s = Ref c -> (let* c := current canvasRef in k c) s = k c s.
Proof. intros Hc. run_monad. by rewrite Hc. Qed.

Lemma heap_only_ret : heap_only (ret tt).
Proof. intros s. exists (st_heap s). rewrite with_heap_id. by eauto. Qed.

Lemma heap_only_throw e : heap_only (throw e).
Proof. intros s. exists (st_heap s). rewrite with_heap_id. by eauto. Qed.

Lemma heap_only_seq m k : heap_only m -> heap_only k -> heap_only (m >> k).
Proof.
  intros Hm Hk s. unfold bind.
  destruct (Hm s) as (h & Hlen & [-> | [e ->]]); [|by eauto].
  destruct (Hk (with_heap h s)) as (h' & Hlen' & Hr). exists h'.
  split; [by rewrite Hlen'|]. exact Hr.
Qed.

Lemma heap_only_current ref (k : node -> M unit) :
  (forall n, heap_only (k n)) -> heap_only (let* n := current ref in k n).
Proof.
  intros Hk s. run_monad.
  destruct (ref s); simpl; try apply Hk; apply (heap_only_throw TypeError).
Qed.

Lemma heap_only_update n f : heap_only (update_element n f).
Proof.
  intros s. run_monad. destruct (st_heap s !! n) as [e|] eqn:He.
  - exists (<[n := f e]> (st_heap s)). rewrite length_insert. by eauto.
  - apply (heap_only_throw TypeError).
Qed.

Lemma heap_only_setAttribute `{Browser} n k v :
  heap_only (setAttribute n k v).
Proof.
  unfold setAttribute. destruct (valid_attribute_name k).
  - apply heap_only_update.
  - apply heap_only_throw.
Qed.

Lemma heap_only_classList_add n tokens : heap_only (classList_add n tokens).
Proof.
  unfold classList_add. destruct (invalid_token tokens).
  - apply heap_only_throw.
  - apply heap_only_update.
Qed.

Lemma heap_only_set_style n text : heap_only (set_style n text).
Proof. apply heap_only_update. Qed.

Lemma heap_only_when b m : heap_only m -> heap_only (when b m).
Proof. destruct b; [done|]. intros _. apply heap_only_ret. Qed.

Lemma heap_only_for_each {A} (f : A -> M unit) l :
  (forall x, heap_only (f x)) -> heap_only (for_each f l).
Proof.
  intros Hf. induction l as [|x l IH]; simpl.
  - apply heap_only_ret.
  - by apply heap_only_seq.
Qed.

Lemma set_style_styled n text s s' :
  set_style n text s = Ret tt s' ->
  styled text (st_heap s') n /\ s' = with_heap (st_heap s') s /\
  length (st_heap s') = length (st_heap s).
Proof.
  unfold set_style. run_monad.
  destruct (st_heap s !! n) as [e|] eqn:He; [|done].
  intros [= <-]. simpl. rewrite length_insert. split; [|done].
  exists (set_attr "style" text e). split.
  - apply list_lookup_insert_eq. by eapply lookup_lt_Some.
  - unfold attr, set_attr. cbn [el_attrs]. apply lookup_insert_eq.
Qed.

Section Setup.
Context `{Browser} (cfg : config).

(** [createImg] creates the image, and then either throws on a class
    token or returns with the image styled. *)
Lemma createImg_outcome s :
  exists h,
    length h = S (length (st_heap s)) /\
    (forall n, (n < length (st_heap s))%nat -> h !! n = st_heap s !! n) /\
    ((exists e, createImg cfg s
                = Throw e (image_created (length (st_heap s)) h s))
     \/ (createImg cfg s = Ret tt (image_created (length (st_heap s)) h s)
         /\ styled IMG_STYLE h (length (st_heap s)))).
Proof.
  unfold createImg, new_Image, classList_add, set_style, image_created.
  run_monad.
  set (i := length (st_heap s)).
  set (img := Element HTMLImageElement ∅).
  assert (Hi : (st_heap s ++ [img]) !! i = Some img)
    by (by apply list_lookup_middle).
  assert (Hlen : length (st_heap s ++ [img]) = S i)
    by (rewrite length_app; simpl; lia).
  assert (Hold : forall n, (n < i)%nat ->
                           (st_heap s ++ [img]) !! n = st_heap s !! n)
    by (intros; by apply lookup_app_l).
  destruct (string_nonempty (imgClassname cfg)); state_simpl.
  - destruct (invalid_token _) as [e|]; state_simpl.
    + exists (st_heap s ++ [img]). by eauto 6.
    + eexists. split_and!; last first.
      * right. rewrite Hi. state_simpl.
        rewrite list_lookup_insert_eq by lia. state_simpl.
        split; [state_norm; reflexivity|]. eexists. split.
        -- apply list_lookup_insert_eq. rewrite length_insert. lia.
        -- unfold attr, set_attr. cbn [el_attrs]. apply lookup_insert_eq.
      * intros n Hn. rewrite !list_lookup_insert_ne by lia. by apply Hold.
      * by rewrite !length_insert.
  - eexists. split_and!; last first.
    * right. rewrite Hi. state_simpl.
      split; [state_norm; reflexivity|]. eexists. split.
      -- apply list_lookup_insert_eq. lia.
      -- unfold attr, set_attr. cbn [el_attrs]. apply lookup_insert_eq.
    * intros n Hn. rewrite !list_lookup_insert_ne by lia. by apply Hold.
    * by rewrite !length_insert.
Qed.

Lemma heap_only_prepare : heap_only (prepare cfg).
Proof.
  apply heap_only_seq.
  - apply heap_only_for_each. intros kv. apply heap_only_current.
    intros n. apply heap_only_setAttribute.
  - apply heap_only_when, heap_only_current. intros n.
    apply heap_only_classList_add.
Qed.

Lemma updateCanvas_outcome s c :
  canvasRef s = Ref c -> setup_outcome s c (updateCanvas cfg s).
Proof.
  intros Hc.
  assert (updateCanvas cfg s =
          (prepare cfg >>
           (let* c := current canvasRef in set_style c CANVAS_STYLE) >>
           createImg cfg >>
           let* c := current canvasRef in
           let* img := get imgRef in
           after c img) s) as ->.
  { unfold updateCanvas, prepare, bind. by destruct (for_each _ _ s). }
  unfold bind at 1.
  destruct (heap_only_prepare s) as (h1 & Hlen1 & [-> | [e ->]]);
    [|by apply setup_threw_early].
  unfold bind at 1. unfold bind at 1. unfold current at 1. run_monad.
  rewrite Hc. simpl.
  destruct (set_style c CANVAS_STYLE (with_heap h1 s)) as [[] s2|e s2] eqn:Hs.
  2:{ destruct (heap_only_set_style c CANVAS_STYLE (with_heap h1 s))
        as (h2 & Hlen2 & [Hr | [e' Hr]]); rewrite Hr in Hs; [done|].
      injection Hs as <- <-. apply (setup_threw_early s c e' h2).
      by rewrite Hlen2. }
  apply set_style_styled in Hs as (Hsty & Hs2 & Hlen2).
  change (with_heap (st_heap s2) (with_heap h1 s))
    with (with_heap (st_heap s2) s) in Hs2.
  change (st_heap (with_heap h1 s)) with h1 in Hlen2.
  set (h2 := st_heap s2) in *. clearbody h2. subst s2.
  destruct (createImg_outcome (with_heap h2 s))
    as (h3 & Hlen3 & Hold & Hr).
  change (st_heap (with_heap h2 s)) with h2 in *.
  rewrite Hlen2, Hlen1 in *.
  change (image_created (length (st_heap s)) h3 (with_heap h2 s))
    with (image_created (length (st_heap s)) h3 s) in Hr.
  destruct Hr as [[e Hr] | [Hr Himg]]; rewrite Hr.
  - by apply setup_threw_late.
  - unfold after. run_monad. unfold image_created. state_simpl.
    rewrite Hc.
    assert (Hcan : styled CANVAS_STYLE h3 c).
    { destruct Hsty as (e & He & Ha). exists e. split; [|done].
      rewrite Hold; [done|]. apply lookup_lt_Some in He. lia. }
    state_simpl.
    destruct (is_document_element h3 (st_doc s) c);
      [by apply (setup_threw_late s c HierarchyRequestError h3)|].
    destruct (in_doc c (st_doc s)) eqn:Hin.
    + by apply (setup_attached s c h3).
    + by apply (setup_detached s c h3).
Qed.

End Setup.

(** ** Resolution and capture, case by case *)

Lemma with_canvasRef_id s : with_canvasRef (canvasRef s) s = s.
Proof. by destruct s. Qed.

Section Cases.
Context `{Browser} (cfg : config).

Lemma first_match_found p h order n :
  first_match p h order = Ref n ->
  exists e, h !! n = Some e /\ p e = true /\ In n order.
Proof.
  induction order as [|m order IH]; simpl; [done|].
  destruct (h !! m) as [e|] eqn:He.
  - destruct (p e) eqn:Hp.
    + intros [= <-]. eauto.
    + intros Hf. destruct (IH Hf) as (e' & ? & ? & ?). eauto.
  - intros Hf. destruct (IH Hf) as (e' & ? & ? & ?). eauto.
Qed.

(** [setCanvas] either throws on the selector or assigns some [r] to
    [canvasRef.current] (possibly the value it held) and goes on; an
    element it assigns exists. *)
Lemma setCanvas_assigns s :
  (exists sel, canvas cfg = ArgString sel /\ selector sel = None /\
               setCanvas cfg s = Throw SyntaxError s)
  \/ exists r,
       (forall c, r = Ref c ->
                  canvasRef s = Ref c \/ is_Some (st_heap s !! c)) /\
       setCanvas cfg s = setCanvas_rest cfg (with_canvasRef r s).
Proof.
  assert (Hkeep : exists r,
            (forall c, r = Ref c ->
                       canvasRef s = Ref c \/ is_Some (st_heap s !! c)) /\
            setCanvas_rest cfg s = setCanvas_rest cfg (with_canvasRef r s)).
  { exists (canvasRef s). split; [by auto|]. by rewrite with_canvasRef_id. }
  unfold setCanvas. fold (setCanvas_rest cfg). unfold bind at 1.
  destruct (canvas cfg) as [sel| |n|] eqn:Hcanvas.
  - unfold querySelector. destruct (selector sel) as [p|] eqn:Hsel.
    + right. eexists. split; [|reflexivity].
      intros c Hc. apply first_match_found in Hc as (e & -> & _).
      right. by eexists.
    + left. by eauto.
  - right. unfold canvas_current, canvas_element. rewrite Hcanvas.
    unfold instanceof_HTMLCanvasElement. run_monad.
    destruct (st_callerRef s) as [| |m] eqn:Hr;
      try (state_simpl; exact Hkeep).
    destruct (st_heap s !! m) as [e|] eqn:He; [destruct (is_canvas e)|];
      state_simpl; try exact Hkeep.
    exists (Ref m). split; [|done]. intros c [= <-]. right. by eexists.
  - right. unfold canvas_current, canvas_element. rewrite Hcanvas.
    unfold instanceof_HTMLCanvasElement. run_monad.
    destruct (st_heap s !! n) as [e|] eqn:He; [destruct (is_canvas e)|];
      state_simpl; try exact Hkeep.
    exists (Ref n). split; [|done]. intros c [= <-]. right. by eexists.
  - right. unfold canvas_current, canvas_element. rewrite Hcanvas.
    unfold instanceof_HTMLCanvasElement. run_monad. exact Hkeep.
Qed.

Lemma setCanvas_rest_cases r s :
  (forall c, r = Ref c -> is_Some (st_heap s !! c)) ->
  setCanvas_outcome s (setCanvas_rest cfg (with_canvasRef r s)).
Proof.
  intros Hr. unfold setCanvas_rest. unfold bind at 1. unfold get at 1.
  state_simpl. destruct r as [| |c].
  - by apply (resolve_retry s Undefined).
  - by apply (resolve_retry s Null).
  - apply (resolve_found s c); [by apply Hr|]. run_monad.
    by apply (updateCanvas_outcome cfg (resolved_state c s) c).
Qed.

Lemma setCanvas_cases s :
  truthy (canvasRef s) = false ->
  setCanvas_outcome s (setCanvas cfg s).
Proof.
  intros Hf.
  destruct (setCanvas_assigns s) as [(sel & _ & _ & ->)|(r & Hr & ->)].
  - apply resolve_threw.
  - apply setCanvas_rest_cases. intros c Hc.
    destruct (Hr c Hc) as [Hs|Hs]; [by rewrite Hs in Hf|done].
Qed.

Lemma capture_cases s : capture_outcome s (capture cfg s).
Proof.
  unfold capture, toDataURL, set_src. run_monad.
  destruct (canvasRef s) as [| |c] eqn:Hc;
    destruct (imgRef s) as [| |i] eqn:Hi; state_simpl;
    try (apply capture_abandoned; rewrite ?Hc, ?Hi; simpl; by auto).
  rewrite ?Hc. state_simpl.
  destruct (st_heap s !! c) as [ec|];
    [|by eapply capture_no_method; rewrite ?Hi].
  destruct (el_interface ec) as [bitmap| |tag];
    try (by eapply capture_no_method; rewrite ?Hi).
  state_simpl. rewrite ?Hi. state_simpl.
  destruct (st_heap s !! i) as [ei|].
  - apply (capture_done s c i
             (<[i := set_attr "src"
                       (encode bitmap (fileType cfg) (quality cfg)) ei]>
                (st_heap s))); try done.
    apply length_insert.
  - by eapply capture_no_image.
Qed.

End Cases.

(** ** The invariant *)

Lemma log_ok_resolved_once log : log_ok log -> (count is_resolved log <= 1)%nat.
Proof.
  unfold count. induction log as [|e pre IH]; simpl; [lia|].
  intros [He Hpre]. destruct e; simpl in *; try by apply IH.
  subst pre. simpl. lia.
Qed.

Lemma log_ok_image_once log : log_ok log -> (count is_image log <= 1)%nat.
Proof.
  unfold count. induction log as [|e pre IH]; simpl; [lia|].
  intros [He Hpre]. destruct e; simpl in *; try by apply IH.
  destruct He as [_ He]. unfold count in He. lia.
Qed.

Lemma log_ok_suffix post pre : log_ok (post ++ pre) -> log_ok pre.
Proof. induction post as [|e post IH]; simpl; [done|]. intros [_ ?]. auto. Qed.

Lemma log_ok_at post e pre : log_ok (post ++ e :: pre) -> event_ok e pre.
Proof. intros Hok. apply log_ok_suffix in Hok. by destruct Hok. Qed.

Lemma nodes_exist_spec h d :
  nodes_exist h d = true <-> forall n, n ∈ document_order d -> (n < length h)%nat.
Proof.
  unfold nodes_exist. rewrite forallb_forall. split; intros Hall n Hn.
  - apply Nat.ltb_lt, Hall. by apply list_elem_of_In.
  - apply Nat.ltb_lt, Hall. by apply list_elem_of_In.
Qed.

Lemma nodes_exist_grow h h' d :
  (length h <= length h')%nat -> nodes_exist h d = true ->
  nodes_exist h' d = true.
Proof.
  rewrite !nodes_exist_spec. intros Hle Hall n Hn. specialize (Hall n Hn). lia.
Qed.

Lemma nodes_exist_fresh h d :
  nodes_exist h d = true -> length h ∉ document_order d.
Proof.
  rewrite nodes_exist_spec. intros Hall Hin. specialize (Hall _ Hin). lia.
Qed.

Lemma nodes_exist_insert h h' c d :
  length h' = S (length h) -> nodes_exist h d = true ->
  nodes_exist h' (insert_after c (length h) (remove_node (length h) d)) = true.
Proof.
  intros Hlen Hd. rewrite remove_node_absent by by apply nodes_exist_fresh.
  apply nodes_exist_spec. intros n Hn.
  apply document_order_insert_after in Hn as [->|Hn]; [lia|].
  rewrite nodes_exist_spec in Hd. specialize (Hd n Hn). lia.
Qed.

Section Invariant.
Context `{Browser} (cfg : config).

Lemma Inv_initial h d r : nodes_exist h d = true -> Inv cfg (initial h d r).
Proof. intros Hd. by constructor. Qed.

Lemma timer_ok_transfer s s' t :
  timer_ok cfg s t ->
  st_phase s' = Mounted ->
  (tm_cb t = CbSetCanvas ->
   reselectTimeout s' = reselectTimeout s /\ st_log s' = []) ->
  (tm_cb t = CbCreateImgSrc -> st_intervalId s' = st_intervalId s) ->
  timer_ok cfg s' t.
Proof.
  unfold timer_ok. intros [Hp Ht] Hp' Hretry Hint. split; [done|].
  destruct (tm_cb t); [| |done].
  - destruct (Hretry eq_refl) as [-> ->]. tauto.
  - rewrite (Hint eq_refl). tauto.
Qed.

(** Once something is logged no retry is pending, so the timers do not
    mind the log growing. *)
Lemma timers_ok_logged s s' e :
  Forall (timer_ok cfg s) (st_timers s) -> In e (st_log s) ->
  st_phase s' = st_phase s -> st_intervalId s' = st_intervalId s ->
  Forall (timer_ok cfg s') (st_timers s).
Proof.
  intros Hts He Hp Hi. eapply Forall_impl; [exact Hts|].
  intros t Ht. pose proof Ht as [Hm Hk].
  apply (timer_ok_transfer s); [done|congruence| |done].
  intros Hcb. rewrite Hcb in Hk. destruct Hk as (_ & _ & _ & _ & Hnil).
  rewrite Hnil in He. destruct He.
Qed.

(** Events may be added to a log that already holds one. *)
Lemma Inv_logged s s' e :
  Inv cfg s -> In e (st_log s) ->
  log_ok (st_log s') ->
  (forall e', In e' (st_log s) -> In e' (st_log s')) ->
  canvasRef s' = canvasRef s -> imgRef s' = imgRef s ->
  st_frames s' = st_frames s -> st_timers s' = st_timers s ->
  st_phase s' = st_phase s -> st_intervalId s' = st_intervalId s ->
  st_nextTimer s' = st_nextTimer s ->
  length (st_heap s') = length (st_heap s) -> st_doc s' = st_doc s ->
  Inv cfg s'.
Proof.
  intros [] He Hok Hsub Hc Hi Hf Ht Hp Hid Hn Hh Hd. constructor.
  - done.
  - intros c Hc'. apply Hsub, inv_canvas0. congruence.
  - intros i Hi'. apply Hsub, inv_img0. congruence.
  - rewrite Hc. intros Hun. rewrite (inv_unresolved0 Hun) in He.
    destruct He.
  - by rewrite Hf.
  - rewrite Ht. by eapply timers_ok_logged.
  - rewrite Hp. intros Hearly. rewrite (inv_early0 Hearly) in He.
    destruct He.
  - by rewrite Hn.
  - rewrite Hd. eapply nodes_exist_grow; [|done]. lia.
Qed.

(** A state that differs in the uncaught exceptions only. *)
Lemma Inv_uncaught s l : Inv cfg s -> Inv cfg (with_uncaught l s).
Proof. intros []. by constructor. Qed.

Lemma Inv_capture s : Inv cfg s -> Inv cfg (host_run cfg CbCapture s).
Proof.
  intros HI. unfold host_run. simpl run_callback.
  destruct (capture_cases cfg s) as [Hm|c Hc Hi|c i Hc Hi|c i h Hc Hi Hlen];
    state_simpl.
  - done.
  - by apply Inv_uncaught.
  - apply Inv_uncaught.
    pose proof (inv_canvas _ _ HI c Hc) as Hrc.
    pose proof (inv_img _ _ HI i Hi) as Hri.
    apply (Inv_logged s _ (EvResolved c)); try done.
    + simpl. split; [|exact (inv_log cfg s HI)]. eauto.
    + intros e' He'. by right.
  - pose proof (inv_canvas _ _ HI c Hc) as Hrc.
    pose proof (inv_img _ _ HI i Hi) as Hri.
    apply (Inv_logged s _ (EvResolved c)); try done.
    + simpl. split; [by right|]. split; [|exact (inv_log cfg s HI)]. eauto.
    + intros e' He'. right. by right.
Qed.

Lemma Inv_frame l : forall s,
  Inv cfg s -> Forall (fun cb => cb = CbCapture) l ->
  Inv cfg (fold_left (fun s' cb => host_run cfg cb s') l s).
Proof.
  induction l as [|cb l IH]; intros s HI Hl; [done|].
  apply Forall_cons in Hl as [-> Hl]. simpl. apply IH; [|done].
  by apply Inv_capture.
Qed.

Lemma Inv_frames s l :
  Inv cfg s -> Forall (fun cb => cb = CbCapture) l ->
  Inv cfg (with_frames l s).
Proof. intros [] Hl. by constructor. Qed.


Lemma unresolved_refs s :
  Inv cfg s -> st_log s = [] ->
  truthy (canvasRef s) = false /\ truthy (imgRef s) = false.
Proof.
  intros HI Hlog. split.
  - destruct (canvasRef s) as [| |c] eqn:Hc; try done.
    pose proof (inv_canvas _ _ HI c Hc) as Hin. rewrite Hlog in Hin.
    destruct Hin.
  - destruct (imgRef s) as [| |i] eqn:Hi; try done.
    pose proof (inv_img _ _ HI i Hi) as Hin. rewrite Hlog in Hin.
    destruct Hin.
Qed.

(** The interval does not mind what resolution changes. *)
Lemma timers_ok_resolved s s' :
  Forall (timer_ok cfg s) (st_timers s) ->
  Forall (fun t => tm_cb t <> CbSetCanvas) (st_timers s) ->
  st_phase s' = st_phase s -> st_intervalId s' = st_intervalId s ->
  Forall (timer_ok cfg s') (st_timers s).
Proof.
  intros Hts Hno Hp Hi. apply Forall_forall. intros t Ht.
  rewrite Forall_forall in Hts, Hno.
  pose proof (Hts t Ht) as Hok. pose proof Hok as [Hm _].
  apply (timer_ok_transfer s); [done|congruence| |done].
  intros Hcb. by destruct (Hno t Ht).
Qed.

(** The states resolution leads to. *)
Lemma Inv_resolved s s' c :
  Inv cfg s ->
  Forall (fun t => tm_cb t <> CbSetCanvas) (st_timers s) ->
  st_phase s = Mounted ->
  log_ok (st_log s') -> In (EvResolved c) (st_log s') ->
  canvasRef s' = Ref c ->
  (forall i, imgRef s' = Ref i -> In (EvImage i) (st_log s')) ->
  st_frames s' = st_frames s -> st_timers s' = st_timers s ->
  st_phase s' = st_phase s -> st_intervalId s' = st_intervalId s ->
  st_nextTimer s' = st_nextTimer s ->
  nodes_exist (st_heap s') (st_doc s') = true ->
  Inv cfg s'.
Proof.
  intros [] Hno Hm Hok Hres Hc Hi Hf Ht Hp Hid Hn Hd. constructor.
  - done.
  - intros c' Hc'. congruence.
  - done.
  - by rewrite Hc.
  - by rewrite Hf.
  - rewrite Ht. by apply (timers_ok_resolved s).
  - rewrite Hp, Hm. by intros [|].
  - by rewrite Hn.
  - done.
Qed.

Lemma Inv_setup s c res :
  Inv cfg s ->
  Forall (fun t => tm_cb t <> CbSetCanvas) (st_timers s) ->
  st_phase s = Mounted -> st_log s = [] ->
  setup_outcome (resolved_state c s) c res ->
  Inv cfg (final res) /\ st_timers (final res) = st_timers s /\
  st_phase (final res) = Mounted.
Proof.
  intros HI Hno Hm Hlog Hres.
  destruct (unresolved_refs s HI Hlog) as [_ Himg].
  pose proof (inv_doc _ _ HI) as Hd.
  destruct Hres as [e h Hlen|e h Hlen|h Hlen Hin Hc Hi|h Hlen Hin Hc Hi];
    unfold image_created, image_inserted, resolved_state in *;
    state_simpl; (split; [|done]);
    apply (Inv_resolved s _ c); state_simpl; rewrite ?Hlog;
    try done; try (simpl; by auto).
  - simpl. destruct (imgRef s); try done.
  - eapply nodes_exist_grow; [|done]. lia.
  - simpl. unfold count. simpl. eauto 6.
  - intros i [= <-]. by left.
  - eapply nodes_exist_grow; [|done]. lia.
  - simpl. unfold count. simpl. eauto 6.
  - intros i [= <-]. by left.
  - eapply nodes_exist_grow; [|done]. lia.
  - simpl. unfold count. simpl. split_and!; eauto 6.
  - intros i [= <-]. right. by left.
  - by apply nodes_exist_insert.
Qed.

Lemma Inv_setCanvas s :
  Inv cfg s ->
  Forall (fun t => tm_cb t <> CbSetCanvas) (st_timers s) ->
  st_phase s = Mounted -> st_log s = [] ->
  Inv cfg (final (setCanvas cfg s)) /\
  st_phase (final (setCanvas cfg s)) = Mounted /\
  (st_timers (final (setCanvas cfg s)) = st_timers s \/
   thrown (setCanvas cfg s) = None /\
   st_timers (final (setCanvas cfg s))
   = st_timers s ++ [Timer (st_nextTimer s) CbSetCanvas 100 false]).
Proof.
  intros HI Hno Hm Hlog.
  destruct (unresolved_refs s HI Hlog) as [Hcan Himg].
  destruct (setCanvas_cases cfg s Hcan) as [|r Hr|c res _ Hres].
  - by auto.
  - state_simpl. split; [|by auto]. unfold retry_state.
    destruct HI. constructor; state_simpl; try done.
    + intros c ->. done.
    + apply Forall_app. split.
      * apply (timers_ok_resolved s); done.
      * apply Forall_singleton. split; [done|]. simpl. by rewrite Hlog.
  - destruct (Inv_setup s c res HI Hno Hm Hlog Hres) as (? & ? & ?).
    by auto.
Qed.

Lemma timers_nil s : Inv cfg s -> st_phase s <> Mounted -> st_timers s = [].
Proof.
  intros HI Hp. pose proof (inv_timers _ _ HI) as Hts.
  destruct (st_timers s) as [|t l]; [done|].
  apply Forall_cons in Hts as [[Hm _] _]. done.
Qed.

Lemma Inv_phase s p :
  Inv cfg s -> st_timers s = [] ->
  (p = Uninitialized \/ p = Rendered -> st_log s = []) ->
  Inv cfg (with_phase p s).
Proof.
  intros [] Ht Hp. constructor; state_simpl; try done.
  rewrite Ht. apply Forall_nil_2.
Qed.

Lemma Inv_render s :
  Inv cfg s -> st_phase s = Uninitialized ->
  Inv cfg (with_phase Rendered
             (with_imgRef Undefined (with_canvasRef Undefined s))).
Proof.
  intros HI Hp.
  assert (Ht : st_timers s = []) by (apply timers_nil; [done|by rewrite Hp]).
  pose proof (inv_early _ _ HI (or_introl Hp)) as Hlog.
  destruct HI. constructor; state_simpl; try done.
  rewrite Ht. apply Forall_nil_2.
Qed.

Lemma Inv_useInterval s :
  Inv cfg s -> st_phase s = Mounted ->
  Forall (fun t => tm_cb t = CbSetCanvas) (st_timers s) ->
  Inv cfg (final (useInterval_effect CbCreateImgSrc (interval cfg) s)).
Proof.
  intros HI Hm Hno. unfold useInterval_effect.
  destruct (interval cfg) as [| |ms] eqn:Hiv; try done.
  unfold setInterval, new_timer. run_monad.
  destruct HI. constructor; state_simpl; try done.
  apply Forall_app. split.
  - apply Forall_forall. intros t Ht. rewrite Forall_forall in Hno.
    rewrite Forall_forall in inv_timers0.
    apply (timer_ok_transfer s); [by apply inv_timers0|done| |].
    + intros _. split; [done|]. destruct (inv_timers0 t Ht) as [_ Hk].
      rewrite (Hno t Ht) in Hk. state_simpl. tauto.
    + intros Hcb. rewrite (Hno t Ht) in Hcb. done.
  - apply Forall_singleton. by split.
Qed.

Lemma useInterval_returns cb iv s :
  exists s', useInterval_effect cb iv s = Ret tt s'.
Proof.
  unfold useInterval_effect. destruct iv; by eexists.
Qed.

Lemma Inv_mount s :
  Inv cfg s -> st_phase s = Rendered ->
  Inv cfg (final (step cfg Mount s)).
Proof.
  intros HI Hp. unfold step. rewrite Hp.
  assert (Ht : st_timers s = []) by (apply timers_nil; [done|by rewrite Hp]).
  pose proof (inv_early _ _ HI (or_intror Hp)) as Hlog.
  assert (HI0 : Inv cfg (with_phase Mounted s)).
  { apply Inv_phase; try done; by intros [|]. }
  destruct (Inv_setCanvas (with_phase Mounted s) HI0)
    as (HI1 & Hm1 & Ht1); state_simpl; try done.
  { rewrite Ht. apply Forall_nil_2. }
  unfold effect, bind.
  destruct (setCanvas cfg (with_phase Mounted s)) as [[] s1|e s1];
    state_simpl.
  - pose proof (Inv_useInterval s1 HI1 Hm1) as HI2.
    destruct (useInterval_returns CbCreateImgSrc (interval cfg) s1)
      as [s2 Hs2].
    rewrite Hs2 in *. state_simpl. apply HI2.
    destruct Ht1 as [Ht1|[_ Ht1]]; rewrite Ht1, Ht;
      [apply Forall_nil_2|by apply Forall_singleton].
  - destruct Ht1 as [Ht1|[? _]]; [|done].
    apply Inv_phase; [done|by rewrite Ht1|by intros [|]].
Qed.


Lemma with_timers_id s : with_timers (st_timers s) s = s.
Proof. by destruct s. Qed.

(** The cleanups clear every timer of the hook. *)
Lemma cleanups_clear s l :
  Forall (timer_ok cfg s) l ->
  match st_intervalId s with
  | Some id =>
      filter (fun t => tm_id t <> id)
        match reselectTimeout s with
        | Some (S k) => filter (fun t => tm_id t <> S k) l
        | _ => l
        end
  | None =>
      match reselectTimeout s with
      | Some (S k) => filter (fun t => tm_id t <> S k) l
      | _ => l
      end
  end = [].
Proof.
  induction 1 as [|t l [Hm Ht] Hl IH].
  - destruct (st_intervalId s), (reselectTimeout s) as [[|k]|]; done.
  - destruct (tm_cb t).
    + destruct Ht as (_ & _ & Hre & Hne & _). rewrite Hre in *.
      destruct (tm_id t) as [|k] eqn:Hid; [done|].
      rewrite filter_cons. rewrite Hid.
      destruct (decide (S k <> S k)); [done|]. exact IH.
    + destruct Ht as (_ & _ & Hid). rewrite Hid in *.
      destruct (reselectTimeout s) as [[|k]|];
        rewrite ?filter_cons; repeat case_decide; try done;
        rewrite ?filter_cons; repeat case_decide; try done.
    + done.
Qed.

Lemma unmount_result s :
  Inv cfg s -> st_phase s = Mounted ->
  step cfg Unmount s = Ret tt (with_phase Unmounted (with_timers [] s)).
Proof.
  intros HI Hp. unfold step. rewrite Hp.
  pose proof (cleanups_clear s _ (inv_timers _ _ HI)) as Hclear.
  unfold cleanup, useInterval_cleanup, clearInterval, clearTimeout.
  run_monad.
  destruct (reselectTimeout s) as [[|k]|]; state_simpl;
    destruct (st_intervalId s) as [id|]; state_simpl;
    rewrite ?Hclear; try done;
    rewrite <- (with_timers_id s) at 1; by rewrite Hclear.
Qed.

Lemma Inv_unmount s :
  Inv cfg s -> st_phase s = Mounted ->
  Inv cfg (final (step cfg Unmount s)).
Proof.
  intros HI Hp. rewrite unmount_result by done. state_simpl.
  destruct HI. constructor; state_simpl; try done. by intros [|].
Qed.

Lemma find_timer_some id l t :
  find_timer id l = Some t -> In t l /\ tm_id t = id.
Proof.
  unfold find_timer. intros Hf. apply find_some in Hf as [Hin Hid].
  split; [done|]. by apply Nat.eqb_eq.
Qed.

Lemma Inv_fire id s : Inv cfg s -> Inv cfg (final (step cfg (Fire id) s)).
Proof.
  intros HI.
  assert (step cfg (Fire id) s =
          match find_timer id (st_timers s) with
          | Some t =>
              Ret tt (host_run cfg (tm_cb t)
                        (if tm_repeat t then s
                         else with_timers
                                (filter (fun t' => tm_id t' <> id)
                                        (st_timers s)) s))
          | None => Ret tt s
          end) as ->.
  { unfold step. by destruct (st_phase s). }
  destruct (find_timer id (st_timers s)) as [t|] eqn:Hf; [|done].
  apply find_timer_some in Hf as [Hin <-]. state_simpl.
  pose proof (inv_timers _ _ HI) as Hts.
  rewrite Forall_forall in Hts.
  pose proof (Hts t ltac:(by apply list_elem_of_In)) as [Hm Hk].
  destruct (tm_cb t) eqn:Hcb; [| |done].
  - destruct Hk as (_ & -> & Hre & Hne & Hlog).
    set (s' := with_timers _ s).
    assert (Hno : Forall (fun t' => tm_cb t' <> CbSetCanvas) (st_timers s')).
    { subst s'. state_simpl. apply Forall_forall. intros t' Ht'.
      apply list_elem_of_filter in Ht' as [Hid Ht']. intros Hcb'.
      destruct (Hts t' Ht') as [_ Hk']. rewrite Hcb' in Hk'.
      destruct Hk' as (_ & _ & Hre' & _). congruence. }
    assert (HI' : Inv cfg s').
    { subst s'. destruct HI. constructor; state_simpl; try done.
      apply Forall_forall. intros t' Ht'.
      apply list_elem_of_filter in Ht' as [_ Ht']. by apply Hts. }
    destruct (Inv_setCanvas s' HI' Hno Hm Hlog) as (HI'' & _ & _).
    unfold host_run. simpl run_callback.
    destruct (setCanvas cfg s'); state_simpl; [done|].
    by apply Inv_uncaught.
  - destruct Hk as (-> & _). unfold host_run. simpl.
    apply Inv_frames; [done|]. apply Forall_app. split.
    + exact (inv_frames cfg s HI).
    + by apply Forall_singleton.
Qed.

Lemma Inv_env c s : Inv cfg s -> Inv cfg (apply_change c s).
Proof.
  intros HI. destruct c as [d|e|r|n bitmap]; simpl.
  - destruct (nodes_exist (st_heap s) d) eqn:Hd; [|done].
    destruct HI. by constructor.
  - destruct HI. constructor; state_simpl; try done.
    eapply nodes_exist_grow; [|done]. rewrite length_app. lia.
  - destruct r as [| |n]; [| |destruct (n <? _)%nat]; try done;
      destruct HI; by constructor.
  - destruct (st_heap s !! n); [|done].
    destruct HI. constructor; state_simpl; try done.
    eapply nodes_exist_grow; [|done]. by rewrite length_insert.
Qed.

Lemma Inv_invoke s : Inv cfg s -> Inv cfg (final (call cfg (returned cfg) s)).
Proof.
  intros HI. unfold returned.
  destruct (interval cfg); simpl; try done;
    (apply Inv_frames; [done|]; apply Forall_app; split;
     [exact (inv_frames cfg s HI)|by apply Forall_singleton]).
Qed.

Theorem Inv_step a s : Inv cfg s -> Inv cfg (final (step cfg a s)).
Proof.
  intros HI. destruct a.
  - unfold step. destruct (st_phase s) eqn:Hp; try done.
    by apply Inv_render.
  - destruct (st_phase s) eqn:Hp; try (by unfold step; rewrite Hp).
    by apply Inv_mount.
  - destruct (st_phase s) eqn:Hp; try (by unfold step; rewrite Hp).
    by apply Inv_unmount.
  - unfold step. destruct (st_phase s) eqn:Hp; try done;
      by apply Inv_invoke.
  - apply Inv_fire; done.
  - assert (step cfg Frame s =
            Ret tt (fold_left (fun s' cb => host_run cfg cb s')
                      (st_frames s) (with_frames [] s))) as ->
      by (unfold step; by destruct (st_phase s)).
    state_simpl. apply Inv_frame; [|exact (inv_frames cfg s HI)].
    by apply Inv_frames.
  - assert (step cfg (Env c) s = Ret tt (apply_change c s)) as ->
      by (unfold step; by destruct (st_phase s)).
    by apply Inv_env.
Qed.

Theorem Inv_run acts : forall s, Inv cfg s -> Inv cfg (run cfg acts s).
Proof.
  induction acts as [|a acts IH]; intros s HI; [done|].
  simpl. by apply IH, Inv_step.
Qed.

End Invariant.

(** ** After a deactivation that came before resolution *)

Section TornDown.
Context `{Browser} (cfg : config).

Lemma with_frames_id s : with_frames (st_frames s) s = s.
Proof. by destruct s. Qed.

Lemma unmount_unresolved s :
  Inv cfg s -> st_phase s = Mounted -> truthy (canvasRef s) = false ->
  torn_down_unresolved (final (step cfg Unmount s)).
Proof.
  intros HI Hp Hf. rewrite unmount_result by done.
  pose proof (inv_unresolved _ _ HI Hf) as Hlog.
  destruct (unresolved_refs cfg s HI Hlog) as [_ Hi].
  unfold torn_down_unresolved. state_simpl.
  split_and!; try done. exact (inv_frames _ _ HI).
Qed.

(** What the hook does then changes neither an element nor the
    document, and leaves it torn down. *)
Lemma torn_down_step a s :
  torn_down_unresolved s ->
  torn_down_unresolved (final (step cfg a s)) /\
  (is_env a = false ->
   st_heap (final (step cfg a s)) = st_heap s /\
   st_doc (final (step cfg a s)) = st_doc s).
Proof.
  intros (Hp & Hlog & Ht & Hc & Hi & Hf).
  assert (Hs : torn_down_unresolved s) by done.
  destruct a; simpl is_env.
  - unfold step. by rewrite Hp.
  - unfold step. by rewrite Hp.
  - unfold step. by rewrite Hp.
  - unfold step. rewrite Hp. unfold returned.
    destruct (interval cfg); simpl; try done;
      (split; [|done]); unfold torn_down_unresolved; state_simpl;
      split_and!; try done;
      (apply Forall_app; split; [done|by apply Forall_singleton]).
  - unfold step. rewrite ?Hp, Ht. done.
  - unfold step. rewrite ?Hp.
    rewrite frame_missing by (state_simpl; auto). state_simpl.
    split; [|done]. unfold torn_down_unresolved. state_simpl.
    split_and!; try done.
  - split; [|done]. unfold step. rewrite ?Hp. state_simpl.
    destruct c as [d|e|r|n bitmap]; simpl.
    + by destruct (nodes_exist (st_heap s) d).
    + done.
    + destruct r as [| |n]; [| |destruct (n <? _)%nat]; done.
    + by destruct (st_heap s !! n).
Qed.

Lemma torn_down_run acts : forall s,
  torn_down_unresolved s -> torn_down_unresolved (run cfg acts s).
Proof.
  induction acts as [|a acts IH]; intros s Hs; [done|].
  simpl. apply IH. by apply torn_down_step.
Qed.

End TornDown.

(** ** Where the image goes *)

Section Insertion.
Context `{Browser} (cfg : config).

Lemma setCanvas_inserts s i c :
  truthy (canvasRef s) = false ->
  nodes_exist (st_heap s) (st_doc s) = true ->
  imgRef (final (setCanvas cfg s)) = Ref i -> imgRef s <> Ref i ->
  canvasRef (final (setCanvas cfg s)) = Ref c ->
  in_doc c (st_doc s) = true ->
  thrown (setCanvas cfg s) = None ->
  next_sibling c (st_doc (final (setCanvas cfg s))) = Some i.
Proof.
  intros Hf Hd.
  destruct (setCanvas_cases cfg s Hf) as [|r Hr|c' res _ Hres];
    state_simpl; try done.
  destruct Hres as [e h Hlen|e h Hlen|h Hlen Hin Hc Hi|h Hlen Hin Hc Hi];
    unfold image_created, image_inserted, resolved_state in *;
    state_simpl; try done.
  - intros _ _ [= <-]. congruence.
  - intros [= <-] _ [= <-] Hdoc _.
    rewrite remove_node_absent by by apply nodes_exist_fresh.
    apply next_sibling_insert_after. by apply in_doc_true.
Qed.

Lemma setCanvas_uncaught s :
  truthy (canvasRef s) = false ->
  st_uncaught (final (setCanvas cfg s)) = st_uncaught s.
Proof.
  intros Hf.
  destruct (setCanvas_cases cfg s Hf) as [|r Hr|c' res _ Hres];
    state_simpl; try done.
  by destruct Hres.
Qed.

Lemma useInterval_keeps s :
  let s' := final (useInterval_effect CbCreateImgSrc (interval cfg) s) in
  imgRef s' = imgRef s /\ canvasRef s' = canvasRef s /\
  st_doc s' = st_doc s /\ st_uncaught s' = st_uncaught s.
Proof. unfold useInterval_effect. by destruct (interval cfg). Qed.

Lemma capture_keeps s :
  imgRef (host_run cfg CbCapture s) = imgRef s.
Proof.
  unfold host_run. simpl run_callback.
  by destruct (capture_cases cfg s).
Qed.

Lemma frame_keeps_imgRef l : forall s,
  Forall (fun cb => cb = CbCapture) l ->
  imgRef (fold_left (fun s' cb => host_run cfg cb s') l s) = imgRef s.
Proof.
  induction l as [|cb l IH]; intros s Hl; [done|].
  apply Forall_cons in Hl as [-> Hl]. simpl.
  rewrite IH by done. apply capture_keeps.
Qed.

(** The action that creates the image puts it right behind the canvas,
    unless the canvas is attached nowhere or an exception cut the setup
    short. *)
Lemma image_inserted_step a s i c :
  Inv cfg s ->
  imgRef (final (step cfg a s)) = Ref i -> imgRef s <> Ref i ->
  canvasRef (final (step cfg a s)) = Ref c ->
  in_doc c (st_doc s) = true ->
  thrown (step cfg a s) = None ->
  st_uncaught (final (step cfg a s)) = st_uncaught s ->
  next_sibling c (st_doc (final (step cfg a s))) = Some i.
Proof.
  intros HI. destruct a.
  - unfold step. destruct (st_phase s); simpl; congruence.
  - destruct (st_phase s) eqn:Hp;
      try (unfold step; rewrite Hp; state_simpl; congruence).
    unfold step. rewrite Hp.
    pose proof (inv_early _ _ HI (or_intror Hp)) as Hlog.
    destruct (unresolved_refs cfg s HI Hlog) as [Hcan _].
    pose proof (setCanvas_inserts (with_phase Mounted s) i c Hcan
                  (inv_doc _ _ HI)) as Hins.
    unfold effect, bind.
    destruct (setCanvas cfg (with_phase Mounted s)) as [[] s1|e s1];
      state_simpl; [|done].
    destruct (useInterval_keeps s1) as (Hi & Hc & Hd & _).
    destruct (useInterval_returns CbCreateImgSrc (interval cfg) s1)
      as [s2 Hs2]. rewrite Hs2 in *. state_simpl.
    rewrite Hi, Hc, Hd. auto.
  - destruct (st_phase s) eqn:Hp;
      try (unfold step; rewrite Hp; state_simpl; congruence).
    rewrite unmount_result by done. state_simpl. congruence.
  - unfold step, returned.
    destruct (st_phase s), (interval cfg); simpl; congruence.
  - assert (step cfg (Fire id) s =
            match find_timer id (st_timers s) with
            | Some t =>
                Ret tt (host_run cfg (tm_cb t)
                          (if tm_repeat t then s
                           else with_timers
                                  (filter (fun t' => tm_id t' <> id)
                                          (st_timers s)) s))
            | None => Ret tt s
            end) as ->.
    { unfold step. by destruct (st_phase s). }
    destruct (find_timer id (st_timers s)) as [t|] eqn:Hf;
      [|state_simpl; congruence].
    apply find_timer_some in Hf as [Hin <-]. state_simpl.
    pose proof (inv_timers _ _ HI) as Hts.
    rewrite Forall_forall in Hts.
    pose proof (Hts t ltac:(by apply list_elem_of_In)) as [Hm Hk].
    destruct (tm_cb t) eqn:Hcb; [| |done].
    + destruct Hk as (_ & -> & _ & _ & Hlog).
      destruct (unresolved_refs cfg s HI Hlog) as [Hcan _].
      set (s' := with_timers _ s).
      pose proof (setCanvas_inserts s' i c Hcan (inv_doc _ _ HI)) as Hins.
      pose proof (setCanvas_uncaught s' Hcan) as Hsame.
      unfold host_run. simpl run_callback.
      destruct (setCanvas cfg s') as [[] s1|e s1]; state_simpl.
      * auto.
      * intros _ _ _ _ _ Hun. exfalso.
        state_simpl. rewrite Hsame in Hun.
        apply (f_equal length) in Hun. simpl in Hun. lia.
    + destruct Hk as (-> & _). unfold host_run. simpl. congruence.
  - assert (step cfg Frame s =
            Ret tt (fold_left (fun s' cb => host_run cfg cb s')
                      (st_frames s) (with_frames [] s))) as ->
      by (unfold step; by destruct (st_phase s)).
    state_simpl. rewrite frame_keeps_imgRef by exact (inv_frames _ _ HI).
    state_simpl. congruence.
  - assert (step cfg (Env c0) s = Ret tt (apply_change c0 s)) as ->
      by (unfold step; by destruct (st_phase s)).
    state_simpl. destruct c0 as [d|e|r|n bitmap]; simpl.
    + destruct (nodes_exist (st_heap s) d); simpl; congruence.
    + congruence.
    + destruct r as [| |n]; [| |destruct (n <? _)%nat]; simpl; congruence.
    + destruct (st_heap s !! n); simpl; congruence.
Qed.

(** The interval is armed only where the hook returns [null]. *)
Lemma modes_exclusive s t :
  Inv cfg s -> In t (st_timers s) -> tm_repeat t = true ->
  returned cfg = VNull.
Proof.
  intros HI Hin Hrep. pose proof (inv_timers _ _ HI) as Hts.
  rewrite Forall_forall in Hts.
  destruct (Hts t ltac:(by apply list_elem_of_In)) as [_ Hk].
  unfold returned. destruct (tm_cb t); [| |done].
  - destruct Hk as (_ & Hno & _). congruence.
  - destruct Hk as (_ & -> & _). done.
Qed.

End Insertion.

(** ** What resolution finds *)

Section Resolution.
Context `{Browser} (cfg : config).

Lemma setCanvas_rest_keeps r s :
  canvasRef (final (setCanvas_rest cfg (with_canvasRef r s))) = r.
Proof.
  unfold setCanvas_rest. unfold bind at 1. unfold get at 1. state_simpl.
  destruct r as [| |c]; try done.
  pose proof (updateCanvas_outcome cfg (resolved_state c s) c eq_refl)
    as Hout.
  change ((emit (EvResolved c) >> updateCanvas cfg) (with_canvasRef (Ref c) s))
    with (updateCanvas cfg (resolved_state c s)).
  by destruct Hout.
Qed.

(** With a ref object or an element, what gets resolved is a canvas. *)
Lemma resolved_is_canvas s c :
  (forall sel, canvas cfg <> ArgString sel) ->
  truthy (canvasRef s) = false ->
  canvasRef (final (setCanvas cfg s)) = Ref c ->
  exists e, st_heap s !! c = Some e /\ is_canvas e = true.
Proof.
  intros Hform Hf.
  assert (Hkeep : canvasRef (final (setCanvas_rest cfg s)) = Ref c ->
                  exists e, st_heap s !! c = Some e /\ is_canvas e = true).
  { rewrite <- (with_canvasRef_id s) at 1. rewrite setCanvas_rest_keeps.
    intros Hc. by rewrite Hc in Hf. }
  unfold setCanvas. fold (setCanvas_rest cfg). unfold bind at 1.
  destruct (canvas cfg) as [sel| |n|] eqn:Hcanvas.
  - by destruct (Hform sel).
  - unfold canvas_current, canvas_element. rewrite Hcanvas.
    unfold instanceof_HTMLCanvasElement. run_monad.
    destruct (st_callerRef s) as [| |m] eqn:Hr;
      try (state_simpl; exact Hkeep).
    destruct (st_heap s !! m) as [e|] eqn:He;
      [destruct (is_canvas e) eqn:Hk|]; state_simpl; try exact Hkeep.
    rewrite (setCanvas_rest_keeps (Ref m) s). intros [= <-]. eauto.
  - unfold canvas_current, canvas_element. rewrite Hcanvas.
    unfold instanceof_HTMLCanvasElement. run_monad.
    destruct (st_heap s !! n) as [e|] eqn:He;
      [destruct (is_canvas e) eqn:Hk|]; state_simpl; try exact Hkeep.
    rewrite (setCanvas_rest_keeps (Ref n) s). intros [= <-]. eauto.
  - unfold canvas_current, canvas_element. rewrite Hcanvas.
    unfold instanceof_HTMLCanvasElement. run_monad. exact Hkeep.
Qed.

(** With a selector, it is the first element the selector matches,
    whatever element that is. *)
Lemma resolved_is_first_match s sel p :
  canvas cfg = ArgString sel -> selector sel = Some p ->
  canvasRef (final (setCanvas cfg s))
  = first_match p (st_heap s) (document_order (st_doc s)).
Proof.
  intros Hcanvas Hsel. unfold setCanvas. fold (setCanvas_rest cfg).
  unfold bind at 1. rewrite Hcanvas. unfold querySelector. rewrite Hsel.
  apply (setCanvas_rest_keeps
           (first_match p (st_heap s) (document_order (st_doc s))) s).
Qed.

End Resolution.

(** ** Retrying without end *)

Section Retry.
Context `{Browser} (cfg : config) (sel : string) (p : element -> bool).
Hypothesis Hcanvas : canvas cfg = ArgString sel.
Hypothesis Hsel : selector sel = Some p.

Lemma setCanvas_unmatched s :
  first_match p (st_heap s) (document_order (st_doc s)) = Null ->
  setCanvas cfg s = Ret tt (retry_state (with_canvasRef Null s)).
Proof.
  intros Hnone. unfold setCanvas, querySelector. rewrite Hcanvas, Hsel.
  run_monad. by rewrite Hnone.
Qed.

(** While nothing matches the selector, each firing of the retry timer
    leaves the next one pending, 100 ms later, however often. *)
Lemma retry_indefinitely h d r n :
  first_match p h (document_order d) = Null ->
  returned cfg = VFunction CbCreateImgSrc ->
  let s := Nat.iter n (fun s => final (step cfg (Fire (retry_id s)) s))
                    (run cfg [Render; Mount] (initial h d r)) in
  st_timers s = [Timer (S n) CbSetCanvas 100 false] /\
  reselectTimeout s = Some (S n) /\ st_nextTimer s = S (S n) /\
  st_heap s = h /\ st_doc s = d /\ st_log s = [] /\ st_uncaught s = [].
Proof.
  intros Hnone Hman. induction n as [|n IH].
  - unfold Nat.iter, nat_rect. cbn [run].
    change (final (step cfg Render (initial h d r)))
      with (with_phase Rendered (initial h d r)).
    unfold step. cbn [st_phase with_phase initial].
    unfold effect, bind. rewrite setCanvas_unmatched by done.
    unfold returned in Hman. unfold useInterval_effect.
    destruct (interval cfg); done.
  - cbv zeta in IH |- *. rewrite Nat.iter_succ.
    set (s := Nat.iter n _ _) in *.
    destruct IH as (Ht & Hre & Hnext & Hh & Hd & Hlog & Hun).
    unfold retry_id. rewrite Hre.
    assert (step cfg (Fire (S n)) s =
            Ret tt (host_run cfg CbSetCanvas (with_timers [] s))) as ->.
    { unfold step. rewrite Ht. simpl. rewrite Nat.eqb_refl. simpl.
      rewrite filter_cons. simpl. rewrite decide_False by auto.
      by destruct (st_phase s). }
    unfold host_run. simpl run_callback.
    rewrite setCanvas_unmatched by (state_simpl; by rewrite Hh, Hd).
    unfold retry_state. state_simpl. by rewrite Hnext.
Qed.

End Retry.

(** ** The setup, exactly *)

Lemma update_element_exact n f s e :
  st_heap s !! n = Some e ->
  update_element n f s = Ret tt (with_heap (<[n := f e]> (st_heap s)) s).
Proof. intros He. run_monad. by rewrite He. Qed.

Lemma insert_last {A} (h : list A) (x y : A) :
  <[length h := y]> (h ++ [x]) = h ++ [y].
Proof. rewrite insert_app_r_alt by lia. by rewrite Nat.sub_diag. Qed.

Lemma forallb_Forall_true {A} (f : A -> bool) l :
  forallb f l = true <-> Forall (fun x => f x = true) l.
Proof.
  induction l as [|x l IH]; simpl.
  - split; [by constructor|done].
  - rewrite andb_true_iff, Forall_cons, IH. done.
Qed.

(** Reads [canvasRef.current] where it is known. *)
Ltac read_canvasRef Hc :=
  match goal with
  | |- context [bind (current canvasRef) ?k ?s1] =>
      rewrite (current_canvasRef k s1 _ Hc)
  end.

Lemma same_kind_refl exact e : same_kind exact e e.
Proof. by split. Qed.

Lemma same_kind_trans exact e1 e2 e3 :
  same_kind exact e1 e2 -> same_kind exact e2 e3 -> same_kind exact e1 e3.
Proof.
  intros [Hk1 Hi1] [Hk2 Hi2]. split; [congruence|].
  intros Hx. rewrite Hi2, Hi1; done.
Qed.

Lemma same_kind_weaken exact exact' e e' :
  (exact' = true -> exact = true) ->
  same_kind exact e e' -> same_kind exact' e e'.
Proof. intros Hx [Hk Hi]. split; [done|]. intros Hx'. by apply Hi, Hx. Qed.

Lemma same_kind_set_attr exact k v e : same_kind exact e (set_attr k v e).
Proof. by split. Qed.

Lemma same_kind_is_canvas exact e e' :
  same_kind exact e e' -> is_canvas e' = is_canvas e.
Proof.
  intros [Hk _]. unfold is_canvas.
  by destruct (el_interface e), (el_interface e').
Qed.

Lemma same_kind_is_html exact e e' :
  same_kind exact e e' -> is_html e' = is_html e.
Proof.
  intros [Hk _]. unfold is_html.
  destruct (el_interface e), (el_interface e'); try done.
  simpl in Hk. by injection Hk as ->.
Qed.

Lemma same_kind_draw bitmap e : same_kind false e (draw bitmap e).
Proof. split; [|done]. unfold draw. by destruct e as [[] ?]. Qed.

Lemma same_kind_write_attribute `{Browser} k v e :
  same_kind (negb (is_dimension k)) e (write_attribute k v e).
Proof.
  unfold write_attribute. destruct (is_dimension k); [|by split].
  split; [|done]. unfold set_bitmap_dimensions. by destruct e as [[] ?].
Qed.

Lemma written_refl names e : written names e e.
Proof. split; [apply same_kind_refl|done]. Qed.

Lemma written_trans names e1 e2 e3 :
  written names e1 e2 -> written names e2 e3 -> written names e1 e3.
Proof.
  intros [Hk1 Ha1] [Hk2 Ha2]. split; [by eapply same_kind_trans|].
  intros k Hk. rewrite Ha2 by done. by apply Ha1.
Qed.

Lemma no_dimension_spec names :
  no_dimension names = true <-> forall k, k ∈ names -> is_dimension k = false.
Proof.
  unfold no_dimension. rewrite forallb_forall. split.
  - intros Hall k Hk. apply negb_true_iff, Hall. by apply list_elem_of_In.
  - intros Hall k Hk. apply negb_true_iff, Hall. by apply list_elem_of_In.
Qed.

Lemma written_mono names names' e e' :
  names ⊆ names' -> written names e e' -> written names' e e'.
Proof.
  intros Hsub [Hk Ha]. split.
  - eapply same_kind_weaken; [|exact Hk]. rewrite !no_dimension_spec.
    intros Hall k Hin. apply Hall. by apply Hsub.
  - intros k Hin. apply Ha. auto.
Qed.

Lemma written_set_attr names k v e :
  k ∈ names -> written names e (set_attr k v e).
Proof.
  intros Hk. split; [apply same_kind_set_attr|]. intros k' Hk'.
  unfold attr, set_attr. cbn [el_attrs]. apply lookup_insert_ne.
  by intros ->.
Qed.

Lemma attr_set_bitmap_dimensions `{Browser} k e :
  attr k (set_bitmap_dimensions e) = attr k e.
Proof. unfold set_bitmap_dimensions. by destruct (el_interface e). Qed.

Lemma written_write_attribute `{Browser} k v e :
  written [k] e (write_attribute k v e).
Proof.
  split.
  - eapply same_kind_weaken; [|apply same_kind_write_attribute].
    unfold no_dimension. simpl. by rewrite andb_true_r.
  - intros k' Hk'. unfold write_attribute.
    assert (Hne : k <> k') by (intros ->; apply Hk'; by left).
    destruct (is_dimension k); rewrite ?attr_set_bitmap_dimensions;
      unfold attr, set_attr; cbn [el_attrs]; by apply lookup_insert_ne.
Qed.

Lemma written_apply_attributes `{Browser} l : forall e,
  written (map (fun kv => ascii_lowercase (fst kv)) l) e
          (apply_attributes l e).
Proof.
  induction l as [|kv l IH]; intros e; [apply written_refl|].
  unfold apply_attributes. simpl fold_left.
  eapply written_trans; [|eapply written_mono; [|apply IH]].
  - eapply written_mono; [|apply written_write_attribute].
    intros k ->%list_elem_of_singleton. simpl. by left.
  - simpl. by apply list_subseteq_cons.
Qed.

Lemma written_add_classes classes e :
  written ["class"] e (add_classes classes e).
Proof.
  unfold add_classes. destruct (string_nonempty classes).
  - apply written_set_attr. by left.
  - apply written_refl.
Qed.

Lemma written_canvas_after `{Browser} cfg e :
  written (setup_names cfg) e (canvas_after cfg e).
Proof.
  unfold canvas_after, setup_names.
  eapply written_trans; [|apply written_set_attr; by left].
  eapply written_trans.
  - eapply written_mono; [|apply written_apply_attributes].
    intros k Hk. by do 2 right.
  - eapply written_mono; [|apply written_add_classes].
    intros k ->%list_elem_of_singleton. right. by left.
Qed.

Lemma document_element_insert h d c e e' tail :
  h !! c = Some e -> is_html e' = is_html e ->
  is_document_element (<[c := e']> h ++ tail) d c = is_document_element h d c.
Proof.
  intros He Hh. unfold is_document_element. f_equal.
  apply lookup_lt_Some in He as Hlt.
  rewrite lookup_app_l by by rewrite length_insert.
  rewrite list_lookup_insert_eq by done. by rewrite He.
Qed.


Section Exact.
Context `{Browser} (cfg : config).

Lemma attributes_exact l : forall s c e,
  forallb (fun kv => valid_attribute_name (fst kv)) l = true ->
  canvasRef s = Ref c -> st_heap s !! c = Some e ->
  for_each (fun kv => let* c := current canvasRef in
                      setAttribute c (fst kv) (snd kv)) l s
  = Ret tt (with_heap (<[c := apply_attributes l e]> (st_heap s)) s).
Proof.
  induction l as [|kv l IH]; intros s c e Hl Hc He.
  - simpl. rewrite list_insert_id by done. by rewrite with_heap_id.
  - simpl in Hl. apply andb_true_iff in Hl as [Hkv Hl]. simpl for_each.
    unfold bind at 1. rewrite (current_canvasRef _ s c Hc).
    unfold setAttribute at 1. rewrite Hkv.
    rewrite (update_element_exact c _ s e He). cbv beta iota.
    match goal with
    | |- for_each _ _ ?s1 = _ =>
        rewrite (IH s1 c (write_attribute (ascii_lowercase (fst kv))
                            (snd kv) e) Hl Hc)
    end.
    2:{ state_simpl. apply list_lookup_insert_eq. by eapply lookup_lt_Some. }
    state_simpl. rewrite list_insert_insert_eq. reflexivity.
Qed.

(** An invalid attribute name stops the loop where it stands. *)
Lemma attributes_throw pre k v post : forall s c e,
  forallb (fun kv => valid_attribute_name (fst kv)) pre = true ->
  valid_attribute_name k = false ->
  canvasRef s = Ref c -> st_heap s !! c = Some e ->
  for_each (fun kv => let* c := current canvasRef in
                      setAttribute c (fst kv) (snd kv))
           (pre ++ (k, v) :: post) s
  = Throw InvalidCharacterError
      (with_heap (<[c := apply_attributes pre e]> (st_heap s)) s).
Proof.
  induction pre as [|kv pre IH]; intros s c e Hl Hk Hc He.
  - simpl. unfold bind at 1. rewrite (current_canvasRef _ s c Hc).
    unfold setAttribute at 1. simpl fst. rewrite Hk.
    rewrite list_insert_id by done. by rewrite with_heap_id.
  - simpl in Hl. apply andb_true_iff in Hl as [Hkv Hl].
    simpl app. simpl for_each.
    unfold bind at 1. rewrite (current_canvasRef _ s c Hc).
    unfold setAttribute at 1. rewrite Hkv.
    rewrite (update_element_exact c _ s e He). cbv beta iota.
    match goal with
    | |- for_each _ _ ?s1 = _ =>
        rewrite (IH s1 c (write_attribute (ascii_lowercase (fst kv))
                            (snd kv) e) Hl Hk Hc)
    end.
    2:{ state_simpl. apply list_lookup_insert_eq. by eapply lookup_lt_Some. }
    state_simpl. rewrite list_insert_insert_eq. reflexivity.
Qed.

Lemma first_invalid (l : list (string * string)) :
  forallb (fun kv => valid_attribute_name (fst kv)) l = false ->
  exists pre k v post,
    l = pre ++ (k, v) :: post /\
    forallb (fun kv => valid_attribute_name (fst kv)) pre = true /\
    valid_attribute_name k = false.
Proof.
  induction l as [|[k v] l IH]; simpl; [done|].
  destruct (valid_attribute_name k) eqn:Hk; simpl.
  - intros Hl. destruct (IH Hl) as (pre & k' & v' & post & -> & Hpre & Hk').
    exists ((k, v) :: pre), k', v', post. simpl. by rewrite Hk, Hpre.
  - intros _. by exists [], k, v, l.
Qed.

Lemma classes_exact classes s c e :
  canvasRef s = Ref c -> st_heap s !! c = Some e ->
  when (string_nonempty classes)
    (let* c := current canvasRef in
     classList_add c (js_split " "%char classes)) s
  = match class_error classes with
    | Some err => Throw err s
    | None =>
        Ret tt (with_heap (<[c := add_classes classes e]> (st_heap s)) s)
    end.
Proof.
  intros Hc He. unfold class_error, add_classes, when.
  destruct (string_nonempty classes).
  - rewrite (current_canvasRef _ s c Hc). unfold classList_add.
    destruct (invalid_token _); [done|].
    by rewrite (update_element_exact c _ s e He).
  - rewrite list_insert_id by done. by rewrite with_heap_id.
Qed.

Lemma createImg_exact s :
  createImg cfg s
  = match class_error (imgClassname cfg) with
    | Some err =>
        Throw err (image_created (length (st_heap s))
                     (st_heap s ++ [Element HTMLImageElement ∅]) s)
    | None =>
        Ret tt (image_created (length (st_heap s))
                  (st_heap s ++ [image_after cfg]) s)
    end.
Proof.
  unfold createImg, new_Image, classList_add, set_style, image_created,
    image_after, class_error, add_classes.
  run_monad.
  set (img := Element HTMLImageElement ∅).
  assert (Hi : (st_heap s ++ [img]) !! length (st_heap s) = Some img)
    by (by apply list_lookup_middle).
  destruct (string_nonempty (imgClassname cfg)); state_simpl.
  - destruct (invalid_token _) as [e|]; state_simpl; [done|].
    rewrite Hi. state_simpl. rewrite insert_last.
    rewrite list_lookup_middle by done. state_simpl.
    by rewrite insert_last.
  - rewrite Hi. by state_simpl; rewrite insert_last.
Qed.

(** [after], called with the image just created. *)
Lemma after_image s c i h :
  after c (Ref i) (image_created i h s)
  = if is_document_element h (st_doc s) c
    then Throw HierarchyRequestError (image_created i h s)
    else if in_doc c (st_doc s) then Ret tt (image_inserted c i h s)
         else Ret tt (image_created i h s).
Proof.
  unfold after, image_created, image_inserted. run_monad.
  by destruct (is_document_element h (st_doc s) c), (in_doc c (st_doc s)).
Qed.

(** With strings the DOM accepts, [updateCanvas] gets as far as the call
    of [after]. *)
Lemma updateCanvas_reaches_after s c e :
  canvasRef s = Ref c -> st_heap s !! c = Some e ->
  setup_error cfg = None ->
  updateCanvas cfg s
  = after c (Ref (length (st_heap s)))
      (image_created (length (st_heap s))
         (<[c := canvas_after cfg e]> (st_heap s) ++ [image_after cfg]) s).
Proof.
  intros Hc He. unfold setup_error.
  destruct (forallb _ _) eqn:Hattrs; [|done].
  destruct (class_error (canvasClassname cfg)) eqn:Hcls; [done|].
  intros Himg. assert (Hlt : (c < length (st_heap s))%nat)
    by (by eapply lookup_lt_Some).
  unfold updateCanvas. unfold bind at 1.
  rewrite (attributes_exact _ s c e Hattrs Hc He). cbv beta iota.
  unfold bind at 1.
  rewrite (classes_exact _ _ c (apply_attributes (canvasAttributes cfg) e));
    [|done|by (state_simpl; apply list_lookup_insert_eq)].
  rewrite Hcls. cbv beta iota. state_simpl. rewrite list_insert_insert_eq.
  unfold bind at 1.
  read_canvasRef Hc.
  unfold set_style.
  rewrite (update_element_exact c _ _
             (add_classes (canvasClassname cfg)
                (apply_attributes (canvasAttributes cfg) e)));
    [|by (state_simpl; apply list_lookup_insert_eq)].
  cbv beta iota. state_simpl. rewrite list_insert_insert_eq.
  fold (canvas_after cfg e).
  unfold bind at 1. rewrite createImg_exact, Himg. cbv beta iota.
  state_simpl. rewrite length_insert.
  unfold image_created. run_monad. by rewrite Hc.
Qed.

Lemma canvas_after_html e : is_html (canvas_after cfg e) = is_html e.
Proof.
  destruct (written_canvas_after cfg e) as [Hk _].
  by eapply same_kind_is_html.
Qed.


(** What [updateCanvas] returns, whenever it returns. *)
Lemma updateCanvas_exact s c e :
  canvasRef s = Ref c -> st_heap s !! c = Some e ->
  setup_error cfg = None ->
  is_document_element (st_heap s) (st_doc s) c = false ->
  updateCanvas cfg s = Ret tt (setup_state cfg c e s).
Proof.
  intros Hc He Herr Hroot.
  rewrite (updateCanvas_reaches_after s c e) by done.
  rewrite after_image.
  rewrite (document_element_insert _ _ c e) by auto using canvas_after_html.
  rewrite Hroot. unfold setup_state. by destruct (in_doc c (st_doc s)).
Qed.

(** On the document element the image is created and goes nowhere. *)
Lemma updateCanvas_refused s c e :
  canvasRef s = Ref c -> st_heap s !! c = Some e ->
  setup_error cfg = None ->
  is_document_element (st_heap s) (st_doc s) c = true ->
  updateCanvas cfg s
  = Throw HierarchyRequestError
      (image_created (length (st_heap s))
         (<[c := canvas_after cfg e]> (st_heap s) ++ [image_after cfg]) s).
Proof.
  intros Hc He Herr Hroot.
  rewrite (updateCanvas_reaches_after s c e) by done.
  rewrite after_image.
  rewrite (document_element_insert _ _ c e) by auto using canvas_after_html.
  by rewrite Hroot.
Qed.

(** Whether [updateCanvas] throws, and what. *)
Lemma updateCanvas_thrown s c :
  canvasRef s = Ref c -> is_Some (st_heap s !! c) ->
  thrown (updateCanvas cfg s) = setup_exception cfg s c.
Proof.
  intros Hc [e He]. unfold setup_exception.
  destruct (setup_error cfg) as [err|] eqn:Herr.
  2:{ destruct (is_document_element _ _ c) eqn:Hroot.
      - by rewrite (updateCanvas_refused s c e).
      - by rewrite (updateCanvas_exact s c e). }
  assert (Hlt : (c < length (st_heap s))%nat) by (by eapply lookup_lt_Some).
  unfold setup_error in Herr. unfold updateCanvas. unfold bind at 1.
  destruct (forallb _ _) eqn:Hattrs.
  - rewrite (attributes_exact _ s c e Hattrs Hc He). cbv beta iota.
    unfold bind at 1.
    rewrite (classes_exact _ _ c
               (apply_attributes (canvasAttributes cfg) e));
      [|done|by (state_simpl; apply list_lookup_insert_eq)].
    destruct (class_error (canvasClassname cfg)) eqn:Hcls;
      [by injection Herr as ->|].
    cbv beta iota. state_simpl. rewrite list_insert_insert_eq.
    unfold bind at 1.
    read_canvasRef Hc.
    unfold set_style.
    rewrite (update_element_exact c _ _
               (add_classes (canvasClassname cfg)
                  (apply_attributes (canvasAttributes cfg) e)));
      [|by (state_simpl; apply list_lookup_insert_eq)].
    cbv beta iota. unfold bind at 1. rewrite createImg_exact, Herr. done.
  - injection Herr as <-.
    destruct (first_invalid _ Hattrs) as (pre & k & v & post & -> & Hpre & Hk).
    by rewrite (attributes_throw pre k v post s c e).
Qed.

Lemma setup_state_heap c e s :
  st_heap (setup_state cfg c e s)
  = <[c := canvas_after cfg e]> (st_heap s) ++ [image_after cfg].
Proof. unfold setup_state. by destruct (in_doc c (st_doc s)). Qed.

Lemma returned_setup s s' c e :
  canvasRef s = Ref c -> st_heap s !! c = Some e ->
  updateCanvas cfg s = Ret tt s' ->
  setup_error cfg = None /\ s' = setup_state cfg c e s.
Proof.
  intros Hc He Hret.
  assert (Herr : setup_exception cfg s c = None).
  { rewrite <- (updateCanvas_thrown s c Hc) by by eexists.
    by rewrite Hret. }
  unfold setup_exception in Herr.
  destruct (setup_error cfg) eqn:Hstrings; [done|].
  destruct (is_document_element _ _ c) eqn:Hroot; [done|].
  split; [done|]. rewrite (updateCanvas_exact s c e) in Hret by done.
  by injection Hret.
Qed.

Lemma setup_state_canvas s c e :
  st_heap s !! c = Some e ->
  st_heap (setup_state cfg c e s) !! c = Some (canvas_after cfg e).
Proof.
  intros He. rewrite setup_state_heap.
  apply lookup_lt_Some in He.
  rewrite lookup_app_l by by rewrite length_insert.
  by apply list_lookup_insert_eq.
Qed.

Lemma setup_state_image s c e :
  st_heap (setup_state cfg c e s) !! length (st_heap s)
  = Some (image_after cfg).
Proof.
  rewrite setup_state_heap. apply list_lookup_middle.
  by rewrite length_insert.
Qed.

End Exact.

(** ** Steps, unfolded *)

Lemma run_app `{Browser} cfg acts later : forall s,
  run cfg (acts ++ later) s = run cfg later (run cfg acts s).
Proof. induction acts as [|a acts IH]; intros s; [done|]. simpl. apply IH. Qed.

Section Steps.
Context `{Browser} (cfg : config).

Lemma capture_same s :
  st_timers (host_run cfg CbCapture s) = st_timers s /\
  st_phase (host_run cfg CbCapture s) = st_phase s /\
  canvasRef (host_run cfg CbCapture s) = canvasRef s.
Proof.
  unfold host_run. simpl run_callback. by destruct (capture_cases cfg s).
Qed.

Lemma frame_same l : forall s,
  Forall (fun cb => cb = CbCapture) l ->
  st_timers (fold_left (fun s' cb => host_run cfg cb s') l s) = st_timers s /\
  st_phase (fold_left (fun s' cb => host_run cfg cb s') l s) = st_phase s /\
  canvasRef (fold_left (fun s' cb => host_run cfg cb s') l s) = canvasRef s.
Proof.
  induction l as [|cb l IH]; intros s Hl; [done|].
  apply Forall_cons in Hl as [-> Hl]. simpl.
  destruct (IH (host_run cfg CbCapture s) Hl) as (-> & -> & ->).
  apply capture_same.
Qed.


Lemma step_fire id s :
  step cfg (Fire id) s =
  match find_timer id (st_timers s) with
  | Some t =>
      Ret tt (host_run cfg (tm_cb t)
                (if tm_repeat t then s
                 else with_timers
                        (filter (fun t' => tm_id t' <> id) (st_timers s)) s))
  | None => Ret tt s
  end.
Proof. unfold step. by destruct (st_phase s). Qed.

Lemma step_frame s :
  step cfg Frame s =
  Ret tt (fold_left (fun s' cb => host_run cfg cb s')
            (st_frames s) (with_frames [] s)).
Proof. unfold step. by destruct (st_phase s). Qed.

Lemma step_env c s : step cfg (Env c) s = Ret tt (apply_change c s).
Proof. unfold step. by destruct (st_phase s). Qed.

Lemma step_invoke s :
  step cfg Invoke s = Ret tt s \/
  step cfg Invoke s = call cfg (returned cfg) s.
Proof. unfold step. destruct (st_phase s); auto. Qed.

Lemma apply_change_same c s :
  st_timers (apply_change c s) = st_timers s /\
  st_phase (apply_change c s) = st_phase s /\
  canvasRef (apply_change c s) = canvasRef s /\
  imgRef (apply_change c s) = imgRef s /\
  st_log (apply_change c s) = st_log s /\
  st_frames (apply_change c s) = st_frames s.
Proof.
  destruct c as [d|e|r|n bitmap]; simpl.
  - by destruct (nodes_exist (st_heap s) d).
  - done.
  - destruct r as [| |n]; [| |destruct (n <? _)%nat]; done.
  - by destruct (st_heap s !! n).
Qed.

Lemma invoke_same s :
  let s' := final (call cfg (returned cfg) s) in
  st_timers s' = st_timers s /\ st_phase s' = st_phase s /\
  canvasRef s' = canvasRef s /\ imgRef s' = imgRef s /\
  st_log s' = st_log s /\ st_heap s' = st_heap s /\ st_doc s' = st_doc s.
Proof. unfold returned. by destruct (interval cfg). Qed.


End Steps.

(** ** What the canvas option designates *)

Section Designates.
Context `{Browser} (cfg : config).

Lemma designates_exists s c : designates cfg s c -> is_Some (st_heap s !! c).
Proof.
  unfold designates. destruct (canvas cfg) as [sel| |n|].
  - intros (p & _ & Hf). apply first_match_found in Hf as (e & -> & _).
    by eexists.
  - intros (_ & e & -> & _). by eexists.
  - intros (_ & e & -> & _). by eexists.
  - done.
Qed.

Lemma setCanvas_designated s c :
  designates cfg s c ->
  setCanvas cfg s = updateCanvas cfg (resolved_state c s).
Proof.
  unfold designates, setCanvas, resolved_state.
  destruct (canvas cfg) as [sel| |n|] eqn:Hcanvas.
  - intros (p & Hsel & Hf). unfold querySelector. rewrite Hsel.
    run_monad. by rewrite Hf.
  - intros (Hr & e & He & Hk). unfold canvas_current. rewrite Hcanvas.
    unfold instanceof_HTMLCanvasElement. run_monad.
    rewrite Hr. state_simpl. by rewrite He, Hk.
  - intros (-> & e & He & Hk).
    unfold canvas_current, canvas_element. rewrite Hcanvas.
    unfold instanceof_HTMLCanvasElement. run_monad.
    by rewrite He, Hk.
  - done.
Qed.



End Designates.

(** ** What the hook leaves alone *)

Lemma keeps_elements_refl exact h : keeps_elements exact h h.
Proof. intros n e He. exists e. split; [done|apply same_kind_refl]. Qed.

Lemma keeps_elements_trans exact h1 h2 h3 :
  keeps_elements exact h1 h2 -> keeps_elements exact h2 h3 ->
  keeps_elements exact h1 h3.
Proof.
  intros H12 H23 n e He. destruct (H12 n e He) as (e2 & He2 & Hi2).
  destruct (H23 n e2 He2) as (e3 & He3 & Hi3). exists e3.
  split; [done|by eapply same_kind_trans].
Qed.

Lemma keeps_elements_weaken exact exact' h h' :
  (exact' = true -> exact = true) ->
  keeps_elements exact h h' -> keeps_elements exact' h h'.
Proof.
  intros Hx Hk n e He. destruct (Hk n e He) as (e' & He' & Hs).
  exists e'. split; [done|by eapply same_kind_weaken].
Qed.

Lemma keeps_elements_insert exact h n e e' :
  h !! n = Some e -> same_kind exact e e' ->
  keeps_elements exact h (<[n := e']> h).
Proof.
  intros He Hi m em Hm. destruct (decide (m = n)) as [->|Hne].
  - exists e'. split; [|congruence].
    apply list_lookup_insert_eq. by eapply lookup_lt_Some.
  - exists em. rewrite list_lookup_insert_ne by done.
    split; [done|apply same_kind_refl].
Qed.

Lemma keeps_elements_app exact h l : keeps_elements exact h (h ++ l).
Proof.
  intros n e He. exists e. split; [|apply same_kind_refl].
  by apply lookup_app_l_Some.
Qed.

Lemma gentle_ret {A} exact (a : A) : gentle exact (ret a).
Proof. intros s. apply keeps_elements_refl. Qed.

Lemma gentle_throw {A} exact e : gentle exact (@throw A e).
Proof. intros s. apply keeps_elements_refl. Qed.

Lemma gentle_get {A} exact (f : state -> A) : gentle exact (get f).
Proof. intros s. apply keeps_elements_refl. Qed.

Lemma gentle_modify exact f :
  (forall s, st_heap (f s) = st_heap s) -> gentle exact (modify f).
Proof. intros Hf s. simpl. rewrite Hf. apply keeps_elements_refl. Qed.

Lemma gentle_bind {A B} exact (m : M A) (k : A -> M B) :
  gentle exact m -> (forall a, gentle exact (k a)) -> gentle exact (bind m k).
Proof.
  intros Hm Hk s. unfold bind. specialize (Hm s).
  destruct (m s) as [a s1|e s1]; [|done].
  eapply keeps_elements_trans; [exact Hm|apply Hk].
Qed.

Lemma gentle_when exact b m : gentle exact m -> gentle exact (when b m).
Proof. destruct b; [done|]. intros _. apply gentle_ret. Qed.

Lemma gentle_for_each {A} exact (f : A -> M unit) l :
  (forall x, x ∈ l -> gentle exact (f x)) -> gentle exact (for_each f l).
Proof.
  induction l as [|x l IH]; intros Hf; simpl.
  - apply gentle_ret.
  - apply gentle_bind; [apply Hf; by left|]. intros _. apply IH.
    intros y Hy. apply Hf. by right.
Qed.

Lemma gentle_current exact ref : gentle exact (current ref).
Proof.
  apply gentle_bind; [apply gentle_get|]. intros r.
  destruct r; [apply gentle_throw|apply gentle_throw|apply gentle_ret].
Qed.

Lemma gentle_emit exact e : gentle exact (emit e).
Proof. by apply gentle_modify. Qed.

Lemma gentle_element_of exact n : gentle exact (element_of n).
Proof.
  intros s. unfold element_of. destruct (st_heap s !! n);
    apply keeps_elements_refl.
Qed.

Lemma gentle_update exact n f :
  (forall e, same_kind exact e (f e)) ->
  gentle exact (update_element n f).
Proof.
  intros Hf s. unfold update_element, bind, element_of.
  destruct (st_heap s !! n) as [e|] eqn:He; simpl.
  - by eapply keeps_elements_insert.
  - apply keeps_elements_refl.
Qed.

Lemma gentle_set_attr exact n k (v : element -> string) :
  gentle exact (update_element n (fun e => set_attr k (v e) e)).
Proof. apply gentle_update. intros e. apply same_kind_set_attr. Qed.

Lemma gentle_new_timer exact cb delay repeat :
  gentle exact (new_timer cb delay repeat).
Proof.
  apply gentle_bind; [apply gentle_get|]. intros id.
  apply gentle_bind; [by apply gentle_modify|]. intros _. apply gentle_ret.
Qed.

Lemma gentle_after exact c img : gentle exact (after c img).
Proof.
  unfold after. destruct img; try apply gentle_ret.
  apply gentle_bind; [apply gentle_get|intros d].
  apply gentle_bind; [apply gentle_get|intros h].
  destruct (is_document_element h d c); [apply gentle_throw|].
  destruct (in_doc c d); [|apply gentle_ret].
  apply gentle_bind; [by apply gentle_modify|intros _]. apply gentle_emit.
Qed.

Lemma apply_change_keeps c s :
  keeps_elements false (st_heap s) (st_heap (apply_change c s)).
Proof.
  destruct c as [d|e|r|n bitmap]; simpl.
  - destruct (nodes_exist (st_heap s) d); apply keeps_elements_refl.
  - apply keeps_elements_app.
  - destruct r as [| |n]; [| |destruct (n <? _)%nat];
      apply keeps_elements_refl.
  - destruct (st_heap s !! n) as [e|] eqn:He; [|apply keeps_elements_refl].
    simpl. eapply keeps_elements_insert; [done|apply same_kind_draw].
Qed.

Section Gentle.
Context `{Browser} (cfg : config).

Lemma gentle_createImg exact : gentle exact (createImg cfg).
Proof.
  unfold createImg. apply gentle_bind; [|intros _].
  { apply gentle_bind; [|intros i; by apply gentle_modify].
    unfold new_Image. apply gentle_bind; [apply gentle_get|intros i].
    apply gentle_bind; [|intros _].
    { intros s. simpl. apply keeps_elements_app. }
    apply gentle_bind; [apply gentle_emit|intros _]. apply gentle_ret. }
  apply gentle_bind; [|intros _].
  { apply gentle_when. apply gentle_bind; [apply gentle_current|intros i].
    unfold classList_add. destruct (invalid_token _); [apply gentle_throw|].
    apply gentle_set_attr. }
  apply gentle_bind; [apply gentle_current|intros i].
  apply (gentle_set_attr exact i "style" (fun _ => IMG_STYLE)).
Qed.

(** The attribute loop alone can change a bitmap, and only with [width]
    or [height] among the names. *)
Lemma gentle_updateCanvas :
  gentle (no_dimension (configured_names cfg)) (updateCanvas cfg).
Proof.
  unfold updateCanvas.
  apply gentle_bind; [|intros _].
  { apply gentle_for_each. intros kv Hkv.
    apply gentle_bind; [apply gentle_current|]. intros c.
    unfold setAttribute. destruct (valid_attribute_name _);
      [|apply gentle_throw].
    apply gentle_update. intros e.
    eapply same_kind_weaken; [|apply same_kind_write_attribute].
    rewrite no_dimension_spec. intros Hall. apply negb_true_iff, Hall.
    unfold configured_names. apply list_elem_of_fmap. by exists kv. }
  apply gentle_bind; [|intros _].
  { apply gentle_when. apply gentle_bind; [apply gentle_current|].
    intros c. unfold classList_add.
    destruct (invalid_token _); [apply gentle_throw|].
    apply gentle_set_attr. }
  apply gentle_bind; [|intros _].
  { apply gentle_bind; [apply gentle_current|]. intros c.
    apply (gentle_set_attr _ c "style" (fun _ => CANVAS_STYLE)). }
  apply gentle_bind; [apply gentle_createImg|intros _].
  apply gentle_bind; [apply gentle_current|intros c].
  apply gentle_bind; [apply gentle_get|intros img].
  apply gentle_after.
Qed.

Lemma gentle_instanceof exact x :
  gentle exact (instanceof_HTMLCanvasElement x).
Proof. destruct x; try apply gentle_ret. apply gentle_get. Qed.

Lemma gentle_setCanvas :
  gentle (no_dimension (configured_names cfg)) (setCanvas cfg).
Proof.
  assert (Hother : gentle (no_dimension (configured_names cfg))
            (let* cur := canvas_current cfg in
             let* is_ref := instanceof_HTMLCanvasElement cur in
             if is_ref then modify (with_canvasRef cur)
             else
               let* is_el := instanceof_HTMLCanvasElement
                               (canvas_element cfg) in
               if is_el then modify (with_canvasRef (canvas_element cfg))
               else ret tt)).
  { apply gentle_bind; [|intros cur].
    { unfold canvas_current. destruct (canvas cfg);
        try apply gentle_ret. apply gentle_get. }
    apply gentle_bind; [apply gentle_instanceof|intros b].
    destruct b; [by apply gentle_modify|].
    apply gentle_bind; [apply gentle_instanceof|intros b].
    destruct b; [by apply gentle_modify|apply gentle_ret]. }
  unfold setCanvas. apply gentle_bind; [|intros _].
  - destruct (canvas cfg) as [sel| |n|]; try exact Hother.
    apply gentle_bind; [|intros found; by apply gentle_modify].
    unfold querySelector. destruct (selector sel);
      [apply gentle_get|apply gentle_throw].
  - apply gentle_bind; [apply gentle_get|intros found].
    destruct found as [| |c].
    + apply gentle_bind; [apply gentle_new_timer|intros id].
      by apply gentle_modify.
    + apply gentle_bind; [apply gentle_new_timer|intros id].
      by apply gentle_modify.
    + apply gentle_bind; [apply gentle_emit|intros _].
      apply gentle_updateCanvas.
Qed.

Lemma gentle_capture exact : gentle exact (capture cfg).
Proof.
  unfold capture.
  apply gentle_bind; [apply gentle_get|intros c].
  apply gentle_bind; [apply gentle_get|intros i].
  destruct (negb (truthy c) || negb (truthy i)); [apply gentle_ret|].
  apply gentle_bind; [apply gentle_current|intros c'].
  apply gentle_bind; [|intros url].
  { unfold toDataURL. apply gentle_bind; [apply gentle_element_of|].
    intros e. destruct (el_interface e); try apply gentle_throw.
    apply gentle_bind; [apply gentle_emit|intros _]. apply gentle_ret. }
  apply gentle_bind; [apply gentle_current|intros i'].
  unfold set_src. apply gentle_bind; [|intros _; apply gentle_emit].
  apply (gentle_set_attr exact i' "src" (fun _ => url)).
Qed.

Lemma gentle_run_callback cb :
  gentle (no_dimension (configured_names cfg)) (run_callback cfg cb).
Proof.
  destruct cb; simpl.
  - apply gentle_setCanvas.
  - by apply gentle_modify.
  - apply gentle_capture.
Qed.

Lemma host_run_keeps cb s :
  keeps_elements (no_dimension (configured_names cfg))
    (st_heap s) (st_heap (host_run cfg cb s)).
Proof.
  unfold host_run. pose proof (gentle_run_callback cb s) as Hk.
  by destruct (run_callback cfg cb s).
Qed.

Lemma frame_keeps_elements l : forall s,
  keeps_elements (no_dimension (configured_names cfg)) (st_heap s)
    (st_heap (fold_left (fun s' cb => host_run cfg cb s') l s)).
Proof.
  induction l as [|cb l IH]; intros s; [apply keeps_elements_refl|].
  simpl. eapply keeps_elements_trans; [apply host_run_keeps|apply IH].
Qed.

Lemma step_keeps_elements a s :
  is_env a = false ->
  keeps_elements (no_dimension (configured_names cfg))
    (st_heap s) (st_heap (final (step cfg a s))).
Proof.
  destruct a; simpl is_env; try done; intros _.
  - unfold step. destruct (st_phase s); apply keeps_elements_refl.
  - unfold step. destruct (st_phase s); try apply keeps_elements_refl.
    assert (Hg : gentle (no_dimension (configured_names cfg))
                   (effect cfg >>
                    useInterval_effect CbCreateImgSrc (interval cfg))).
    { apply gentle_bind; [apply gentle_setCanvas|intros _].
      unfold useInterval_effect. destruct (interval cfg);
        try apply gentle_ret.
      apply gentle_bind; [apply gentle_new_timer|intros id].
      by apply gentle_modify. }
    specialize (Hg (with_phase Mounted s)).
    by destruct ((effect cfg >> _) (with_phase Mounted s)).
  - unfold step. destruct (st_phase s); try apply keeps_elements_refl.
    assert (Hg : gentle (no_dimension (configured_names cfg))
                   (cleanup >> useInterval_cleanup >>
                    modify (with_phase Unmounted))).
    { apply gentle_bind; [|intros _].
      { unfold cleanup. apply gentle_bind; [apply gentle_get|intros t].
        destruct t as [[|k]|]; try apply gentle_ret. by apply gentle_modify. }
      apply gentle_bind; [|intros _; by apply gentle_modify].
      unfold useInterval_cleanup.
      apply gentle_bind; [apply gentle_get|intros t].
      destruct t; [by apply gentle_modify|apply gentle_ret]. }
    apply Hg.
  - destruct (step_invoke cfg s) as [->| ->].
    + apply keeps_elements_refl.
    + destruct (invoke_same cfg s) as (_ & _ & _ & _ & _ & -> & _).
      apply keeps_elements_refl.
  - rewrite step_fire.
    destruct (find_timer id (st_timers s)) as [t|];
      [|apply keeps_elements_refl].
    simpl. destruct (tm_repeat t); [apply host_run_keeps|].
    apply (host_run_keeps (tm_cb t)
             (with_timers (filter (fun t' => tm_id t' <> id) (st_timers s))
                s)).
  - rewrite step_frame. simpl.
    apply (frame_keeps_elements _ (with_frames [] s)).
Qed.

Lemma run_keeps_elements acts : forall s,
  Forall (fun a => is_env a = false) acts ->
  keeps_elements (no_dimension (configured_names cfg))
    (st_heap s) (st_heap (run cfg acts s)).
Proof.
  induction acts as [|a acts IH]; intros s Hacts;
    [apply keeps_elements_refl|].
  apply Forall_cons in Hacts as [Ha Hacts]. simpl.
  eapply keeps_elements_trans; [by apply step_keeps_elements|by apply IH].
Qed.

(** Whoever acts, every element stays, of the kind it was. *)
Lemma step_keeps_kinds a s :
  keeps_elements false (st_heap s) (st_heap (final (step cfg a s))).
Proof.
  destruct (is_env a) eqn:Ha.
  - destruct a; try done. rewrite step_env. apply apply_change_keeps.
  - eapply keeps_elements_weaken; [|by apply step_keeps_elements]. done.
Qed.

End Gentle.

(** ** Where nothing throws *)

Section Success.
Context `{Browser} (cfg : config).










End Success.

(** ** The refs, once set *)

Section Refs.
Context `{Browser} (cfg : config).



End Refs.

(** * The specification, claim by claim *)

(** C1.  The value the hook returns: the trigger function [createImgSrc]
    when [interval] is the disabled marker ([null] or [false]).  With a
    duration the code returns [null], not a function that does nothing:
    calling it throws a TypeError in the caller. *)
Theorem returned_null_for_a_duration `{Browser} (cfg : config) (ms : Z)
  (s : state) :
  returned (with_interval IntervalNull cfg) = VFunction CbCreateImgSrc /\
  returned (with_interval IntervalFalse cfg) = VFunction CbCreateImgSrc /\
  returned (with_interval (IntervalMs ms) cfg) = VNull /\
  call (with_interval (IntervalMs ms) cfg)
       (returned (with_interval (IntervalMs ms) cfg)) s
  = Throw TypeError s.
Proof. by split_and!. Qed.

Section OnThePage.
#[local] Existing Instance id_selectors.

(** C2.  With [interval: 100] the hook arms the recurring timer on
    mount, and the path of the other mode, the returned value, is not
    a no-op: invoking it throws a TypeError and changes nothing. *)
Theorem periodic_trigger_path_throws :
  st_timers (run periodic_config [Render; Mount] canvas_page)
  = [Timer 1 CbCreateImgSrc 100 true] /\
  step periodic_config Invoke
       (run periodic_config [Render; Mount] canvas_page)
  = Throw TypeError (run periodic_config [Render; Mount] canvas_page).
Proof. split; vm_compute; reflexivity. Qed.

(** C3, as stated, fails: on a page without the canvas the trigger the
    hook returned queues a capture although no image exists yet. *)
Lemma trigger_wired_before_setup :
  ~ trigger_wired_after_setup manual_config blank_page.
Proof.
  intros Hclaim. destruct (Hclaim [Render; Mount]) as [i Hi].
  - vm_compute. discriminate.
  - vm_compute in Hi. exact Hi.
Qed.

(** C4.  On a page whose [#d] is a [div], the selector form resolves to
    that [div]: no retry is scheduled, setup runs on it and the image is
    put behind it; a capture then fails for want of [toDataURL]. *)
Theorem selector_resolves_to_a_div :
  canvasRef (run div_config [Render; Mount] canvas_page) = Ref 0 /\
  is_canvas <$> st_heap (run div_config [Render; Mount] canvas_page) !! 0
  = Some false /\
  st_timers (run div_config [Render; Mount] canvas_page) = [] /\
  st_log (run div_config [Render; Mount] canvas_page)
  = [EvInserted 0 2; EvImage 2; EvResolved 0] /\
  st_uncaught (run div_config [Render; Mount; Invoke; Frame] canvas_page)
  = [TypeError].
Proof. split_and!; vm_compute; reflexivity. Qed.


(** So does a selector that names the document element: [after] throws a
    HierarchyRequestError out of the effect. *)
Lemma effect_surfaces_HierarchyRequestError :
  ~ no_error_surfaced top_config whole_page.
Proof. intros Hclaim. specialize (Hclaim [Render; Mount]). done. Qed.


(** C8, as stated, fails: for a canvas element that is attached nowhere
    the image is created and inserted nowhere. *)
Lemma image_of_detached_canvas_not_inserted :
  ~ image_always_inserted element_config detached_page.
Proof.
  intros Hclaim. destruct (Hclaim [Render] Mount 1) as (c & Hc & Hn).
  - vm_compute. reflexivity.
  - vm_compute. discriminate.
  - vm_compute in Hc. injection Hc as <-. vm_compute in Hn. discriminate.
Qed.

End OnThePage.

(** C3, amended.  In every run, a read of the canvas comes after the
    resolution of that canvas and after the creation of the image; and the
    trigger the hook returns in manual mode queues its capture from the
    moment the hook has returned, whatever the state of setup. *)
Theorem setup_precedes_capture `{Browser} (cfg : config)
  (h : list element) (d : list tree) (r : jsref) (acts : list action) :
  nodes_exist h d = true ->
  (forall post c pre,
     st_log (run cfg acts (initial h d r)) = post ++ EvRead c :: pre ->
     In (EvResolved c) pre /\ exists i, In (EvImage i) pre) /\
  (returned cfg = VFunction CbCreateImgSrc ->
   st_phase (run cfg acts (initial h d r)) <> Uninitialized ->
   step cfg Invoke (run cfg acts (initial h d r))
   = Ret tt (with_frames
               (st_frames (run cfg acts (initial h d r)) ++ [CbCapture])
               (run cfg acts (initial h d r)))).
Proof.
  intros Hd. split.
  - intros post c pre Hlog.
    pose proof (Inv_run cfg acts _ (Inv_initial cfg h d r Hd)) as HI.
    pose proof (inv_log _ _ HI) as Hok. rewrite Hlog in Hok.
    exact (log_ok_at post (EvRead c) pre Hok).
  - intros Hman Hp. unfold step. rewrite Hman.
    by destruct (st_phase (run cfg acts (initial h d r))).
Qed.



(** C7.  The trigger only queues a frame callback.  Run with both refs
    set, the callback reads the bitmap of the canvas as it then is,
    encodes it with the configured type and quality and assigns the result
    to the [src] of the image.  [n] invocations queue [n] callbacks, and
    the frame that runs them reads [n] times. *)
Theorem capture_trigger `{Browser} (cfg : config) :
  (forall s,
     createImgSrc s = Ret tt (with_frames (st_frames s ++ [CbCapture]) s)) /\
  (forall s c i ec ei bitmap,
     canvasRef s = Ref c -> imgRef s = Ref i ->
     st_heap s !! c = Some ec -> el_interface ec = HTMLCanvasElement bitmap ->
     st_heap s !! i = Some ei ->
     capture cfg s =
     Ret tt (with_log (EvSrc i :: EvRead c :: st_log s)
               (with_heap
                  (<[i := set_attr "src"
                            (encode bitmap (fileType cfg) (quality cfg)) ei]>
                     (st_heap s)) s))) /\
  (forall n s,
     Nat.iter n (fun s' => final (createImgSrc s')) s
     = with_frames (st_frames s ++ replicate n CbCapture) s) /\
  (forall n s c i ec ei bitmap,
     canvasRef s = Ref c -> imgRef s = Ref i -> c <> i ->
     st_heap s !! c = Some ec -> el_interface ec = HTMLCanvasElement bitmap ->
     st_heap s !! i = Some ei ->
     st_frames s = replicate n CbCapture ->
     st_log (final (step cfg Frame s)) = captures n c i (st_log s) /\
     count is_read (st_log (final (step cfg Frame s)))
     = n + count is_read (st_log s)).
Proof.
  split; [|split; [|split]].
  - done.
  - apply capture_reads.
  - induction n as [|n IH]; intros s.
    + simpl. rewrite app_nil_r. by destruct s.
    + rewrite Nat.iter_succ, IH.
      unfold createImgSrc, requestAnimationFrame, modify. state_simpl.
      by rewrite replicate_S_end, app_assoc.
  - intros n s c i ec ei bitmap Hc Hi Hne Hec Hk Hei Hq.
    assert (step cfg Frame s =
            Ret tt (fold_left (fun s' cb => host_run cfg cb s')
                      (st_frames s) (with_frames [] s))) as ->
      by (unfold step; by destruct (st_phase s)).
    state_simpl. rewrite Hq.
    rewrite (frame_reads cfg n (with_frames [] s) c i ec ei bitmap)
      by done.
    state_simpl. split; [done|].
    clear. induction n as [|n IH]; [done|].
    simpl. unfold count in *. simpl. by rewrite IH.
Qed.

(** C8, amended.  In every run the canvas is resolved at most once and at
    most one image is created, after the resolution; the two refs hold
    what was resolved and created.  The action that creates the image
    leaves it as the next sibling of the canvas, provided the canvas was
    attached to the document and no exception cut the setup short. *)
Theorem mirror_image_once `{Browser} (cfg : config)
  (h : list element) (d : list tree) (r : jsref) (acts : list action) :
  nodes_exist h d = true ->
  (count is_resolved (st_log (run cfg acts (initial h d r))) <= 1)%nat /\
  (count is_image (st_log (run cfg acts (initial h d r))) <= 1)%nat /\
  (forall c, canvasRef (run cfg acts (initial h d r)) = Ref c ->
             In (EvResolved c) (st_log (run cfg acts (initial h d r)))) /\
  (forall i, imgRef (run cfg acts (initial h d r)) = Ref i ->
             In (EvImage i) (st_log (run cfg acts (initial h d r)))) /\
  (forall post i pre,
     st_log (run cfg acts (initial h d r)) = post ++ EvImage i :: pre ->
     exists c, In (EvResolved c) pre) /\
  (forall a i c,
     imgRef (final (step cfg a (run cfg acts (initial h d r)))) = Ref i ->
     imgRef (run cfg acts (initial h d r)) <> Ref i ->
     canvasRef (final (step cfg a (run cfg acts (initial h d r)))) = Ref c ->
     in_doc c (st_doc (run cfg acts (initial h d r))) = true ->
     thrown (step cfg a (run cfg acts (initial h d r))) = None ->
     st_uncaught (final (step cfg a (run cfg acts (initial h d r))))
     = st_uncaught (run cfg acts (initial h d r)) ->
     next_sibling c
       (st_doc (final (step cfg a (run cfg acts (initial h d r)))))
     = Some i).
Proof.
  intros Hd.
  pose proof (Inv_run cfg acts _ (Inv_initial cfg h d r Hd)) as HI.
  set (s := run cfg acts (initial h d r)) in *.
  split_and!.
  - apply log_ok_resolved_once, (inv_log _ _ HI).
  - apply log_ok_image_once, (inv_log _ _ HI).
  - apply (inv_canvas _ _ HI).
  - apply (inv_img _ _ HI).
  - intros post i pre Hlog. pose proof (inv_log _ _ HI) as Hok.
    rewrite Hlog in Hok. apply log_ok_at in Hok as [Hres _]. exact Hres.
  - intros a i c. by apply image_inserted_step.
Qed.

(** C9.  When the component is unmounted while nothing is resolved, the
    cleanups leave no timer pending; from then on, whatever happens, no
    image is created, no timer is set, and no action of the hook, of its
    caller or of the browser's queues changes an element or the document:
    only the surroundings themselves still can. *)
Theorem deactivation_before_resolution `{Browser} (cfg : config)
  (h : list element) (d : list tree) (r : jsref)
  (acts later : list action) :
  nodes_exist h d = true ->
  st_phase (run cfg acts (initial h d r)) = Mounted ->
  truthy (canvasRef (run cfg acts (initial h d r))) = false ->
  st_timers (final (step cfg Unmount (run cfg acts (initial h d r)))) = [] /\
  truthy (imgRef (run cfg (acts ++ Unmount :: later) (initial h d r)))
  = false /\
  count is_image (st_log (run cfg (acts ++ Unmount :: later) (initial h d r)))
  = 0 /\
  st_timers (run cfg (acts ++ Unmount :: later) (initial h d r)) = [] /\
  (forall a,
     is_env a = false ->
     st_heap (final (step cfg a
                (run cfg (acts ++ Unmount :: later) (initial h d r))))
     = st_heap (run cfg (acts ++ Unmount :: later) (initial h d r)) /\
     st_doc (final (step cfg a
               (run cfg (acts ++ Unmount :: later) (initial h d r))))
     = st_doc (run cfg (acts ++ Unmount :: later) (initial h d r))).
Proof.
  intros Hd Hp Hf.
  pose proof (Inv_run cfg acts _ (Inv_initial cfg h d r Hd)) as HI.
  pose proof (unmount_unresolved cfg _ HI Hp Hf) as Hdown.
  assert (Hrun : run cfg (acts ++ Unmount :: later) (initial h d r)
                 = run cfg later
                     (final (step cfg Unmount
                               (run cfg acts (initial h d r))))).
  { generalize (initial h d r). clear.
    induction acts as [|a acts IH]; intros s; [done|]. simpl. apply IH. }
  rewrite Hrun.
  pose proof (torn_down_run cfg later _ Hdown) as Hlater.
  split; [by destruct Hdown as (_ & _ & ? & _)|].
  destruct Hlater as (Hp' & Hlog & Ht & Hc & Hi & Hfr).
  split_and!; try done.
  - by rewrite Hlog.
  - intros a Ha. by apply torn_down_step.
Qed.

(** C10.  When [updateCanvas] returns, the inline style of the canvas is
    the constant [CANVAS_STYLE], whatever style the element had and
    whatever [style] the attribute map of the configuration asked for, and
    the inline style of the new image is the constant [IMG_STYLE]. *)
Theorem styles_replaced `{Browser} (cfg : config) (s s' : state) (c : node) :
  canvasRef s = Ref c ->
  updateCanvas cfg s = Ret tt s' ->
  styled CANVAS_STYLE (st_heap s') c /\
  imgRef s' = Ref (length (st_heap s)) /\
  styled IMG_STYLE (st_heap s') (length (st_heap s)).
Proof.
  intros Hc Hret. pose proof (updateCanvas_outcome cfg s c Hc) as Hout.
  rewrite Hret in Hout. inversion Hout; subst; by split_and!.
Qed.

(** ** The statements at work on the page *)

Section Witnesses.
#[local] Existing Instance id_selectors.

(** One capture on the page with the canvas; the trigger on the blank
    page right after the hook has returned. *)
Lemma setup_precedes_capture_witness :
  nodes_exist [a_div; a_canvas] [Node 0 [Node 1 []]] = true /\
  st_log (run manual_config [Render; Mount; Invoke; Frame] canvas_page)
  = [EvSrc 2] ++ EvRead 1 :: [EvInserted 1 2; EvImage 2; EvResolved 1] /\
  (In (EvResolved 1) [EvInserted 1 2; EvImage 2; EvResolved 1] /\
   exists i, In (EvImage i) [EvInserted 1 2; EvImage 2; EvResolved 1]) /\
  step manual_config Invoke (run manual_config [Render] blank_page)
  = Ret tt (with_frames [CbCapture] (run manual_config [Render] blank_page)).
Proof.
  split; [reflexivity|]. split; [vm_compute; reflexivity|]. split.
  - apply (proj1 (setup_precedes_capture manual_config
                    [a_div; a_canvas] [Node 0 [Node 1 []]] Undefined
                    [Render; Mount; Invoke; Frame] eq_refl) [EvSrc 2] 1).
    vm_compute; reflexivity.
  - apply (proj2 (setup_precedes_capture manual_config
                    [a_div] [Node 0 []] Undefined [Render] eq_refl)).
    + reflexivity.
    + vm_compute. discriminate.
Defined.



(** The page after setup, with three captures queued. *)
Lemma capture_trigger_witness :
  canvasRef (run manual_config [Render; Mount; Invoke; Invoke; Invoke]
                 canvas_page) = Ref 1 /\
  imgRef (run manual_config [Render; Mount; Invoke; Invoke; Invoke]
              canvas_page) = Ref 2 /\
  st_frames (run manual_config [Render; Mount; Invoke; Invoke; Invoke]
                 canvas_page) = replicate 3 CbCapture /\
  thrown (capture manual_config
            (run manual_config [Render; Mount] canvas_page)) = None /\
  count is_read
    (st_log (final (step manual_config Frame
                      (run manual_config
                           [Render; Mount; Invoke; Invoke; Invoke]
                           canvas_page))))
  = 3 + count is_read
          (st_log (run manual_config
                       [Render; Mount; Invoke; Invoke; Invoke]
                       canvas_page)).
Proof.
  destruct (capture_trigger manual_config) as (_ & Hcapture & _ & Hframe).
  assert (Hne : 1 <> 2) by (intros [=]).
  assert (Hc : canvasRef (run manual_config
                            [Render; Mount; Invoke; Invoke; Invoke]
                            canvas_page) = Ref 1)
    by (vm_compute; reflexivity).
  assert (Hi : imgRef (run manual_config
                         [Render; Mount; Invoke; Invoke; Invoke]
                         canvas_page) = Ref 2)
    by (vm_compute; reflexivity).
  assert (Hq : st_frames (run manual_config
                            [Render; Mount; Invoke; Invoke; Invoke]
                            canvas_page) = replicate 3 CbCapture)
    by (vm_compute; reflexivity).
  assert (Hec : st_heap (run manual_config
                           [Render; Mount; Invoke; Invoke; Invoke]
                           canvas_page) !! 1
                = Some (set_attr "style" CANVAS_STYLE a_canvas))
    by (vm_compute; reflexivity).
  assert (Hei : st_heap (run manual_config
                           [Render; Mount; Invoke; Invoke; Invoke]
                           canvas_page) !! 2
                = Some (set_attr "style" IMG_STYLE
                          (Element HTMLImageElement ∅)))
    by (vm_compute; reflexivity).
  assert (Hk : el_interface (set_attr "style" CANVAS_STYLE a_canvas)
               = HTMLCanvasElement [255; 0; 0; 255]%Z)
    by reflexivity.
  split; [exact Hc|]. split; [exact Hi|]. split; [exact Hq|]. split.
  - assert (Hc' : canvasRef (run manual_config [Render; Mount] canvas_page)
                  = Ref 1) by (vm_compute; reflexivity).
    assert (Hi' : imgRef (run manual_config [Render; Mount] canvas_page)
                  = Ref 2) by (vm_compute; reflexivity).
    assert (Hec' : st_heap (run manual_config [Render; Mount] canvas_page)
                     !! 1
                   = Some (set_attr "style" CANVAS_STYLE a_canvas))
      by (vm_compute; reflexivity).
    assert (Hei' : st_heap (run manual_config [Render; Mount] canvas_page)
                     !! 2
                   = Some (set_attr "style" IMG_STYLE
                             (Element HTMLImageElement ∅)))
      by (vm_compute; reflexivity).
    by rewrite (Hcapture _ 1 2 _ _ _ Hc' Hi' Hec' Hk Hei').
  - exact (proj2 (Hframe 3 _ 1 2 _ _ _ Hc Hi Hne Hec Hk Hei Hq)).
Defined.

(** The mount on the page with the canvas puts image 2 behind canvas 1. *)
Lemma mirror_image_once_witness :
  nodes_exist [a_div; a_canvas] [Node 0 [Node 1 []]] = true /\
  imgRef (final (step manual_config Mount
                   (run manual_config [Render] canvas_page))) = Ref 2 /\
  canvasRef (final (step manual_config Mount
                      (run manual_config [Render] canvas_page))) = Ref 1 /\
  in_doc 1 (st_doc (run manual_config [Render] canvas_page)) = true /\
  next_sibling 1
    (st_doc (final (step manual_config Mount
                      (run manual_config [Render] canvas_page))))
  = Some 2 /\
  (count is_image
     (st_log (run manual_config [Render; Mount; Invoke; Frame]
                  canvas_page)) <= 1)%nat.
Proof.
  split; [reflexivity|]. split; [vm_compute; reflexivity|].
  split; [vm_compute; reflexivity|]. split; [vm_compute; reflexivity|].
  split.
  - apply (proj2 (proj2 (proj2 (proj2 (proj2
             (mirror_image_once manual_config [a_div; a_canvas]
                [Node 0 [Node 1 []]] Undefined [Render] eq_refl)))))
           Mount 2 1); try (vm_compute; reflexivity).
    vm_compute. discriminate.
  - apply (proj1 (proj2
             (mirror_image_once manual_config [a_div; a_canvas]
                [Node 0 [Node 1 []]] Undefined
                [Render; Mount; Invoke; Frame] eq_refl))).
Defined.

(** On the blank page the retry is pending when the component unmounts. *)
Lemma deactivation_before_resolution_witness :
  nodes_exist [a_div] [Node 0 []] = true /\
  st_timers (run manual_config [Render; Mount] blank_page)
  = [Timer 1 CbSetCanvas 100 false] /\
  st_phase (run manual_config [Render; Mount] blank_page) = Mounted /\
  truthy (canvasRef (run manual_config [Render; Mount] blank_page))
  = false /\
  st_timers (final (step manual_config Unmount
                      (run manual_config [Render; Mount] blank_page)))
  = [] /\
  count is_image
    (st_log (run manual_config
               ([Render; Mount] ++ Unmount :: [Invoke; Fire 1; Frame])
               blank_page)) = 0 /\
  st_heap (final (step manual_config Frame
             (run manual_config
                ([Render; Mount] ++ Unmount :: [Invoke; Fire 1; Frame])
                blank_page)))
  = st_heap (run manual_config
               ([Render; Mount] ++ Unmount :: [Invoke; Fire 1; Frame])
               blank_page).
Proof.
  split; [reflexivity|]. split; [vm_compute; reflexivity|].
  split; [vm_compute; reflexivity|]. split; [vm_compute; reflexivity|].
  destruct (deactivation_before_resolution manual_config
              [a_div] [Node 0 []] Undefined [Render; Mount]
              [Invoke; Fire 1; Frame] eq_refl)
    as (Hcleared & _ & Hnone & _ & Hquiet);
    try (vm_compute; reflexivity).
  split; [exact Hcleared|]. split; [exact Hnone|].
  exact (proj1 (Hquiet Frame eq_refl)).
Defined.

(** The canvas of the page has a style of its own, and the attribute
    map of [styled_config] asks for another. *)
Lemma styles_replaced_witness :
  canvasRef (with_canvasRef (Ref 1) canvas_page) = Ref 1 /\
  attr "style" <$> st_heap canvas_page !! 1
  = Some (Some "border: 1px solid") /\
  updateCanvas styled_config (with_canvasRef (Ref 1) canvas_page)
  = Ret tt (final (updateCanvas styled_config
                     (with_canvasRef (Ref 1) canvas_page))) /\
  styled CANVAS_STYLE
    (st_heap (final (updateCanvas styled_config
                       (with_canvasRef (Ref 1) canvas_page)))) 1 /\
  styled IMG_STYLE
    (st_heap (final (updateCanvas styled_config
                       (with_canvasRef (Ref 1) canvas_page)))) 2.
Proof.
  assert (Hret :
            updateCanvas styled_config (with_canvasRef (Ref 1) canvas_page)
            = Ret tt (final (updateCanvas styled_config
                               (with_canvasRef (Ref 1) canvas_page))))
    by (vm_compute; reflexivity).
  split; [reflexivity|]. split; [vm_compute; reflexivity|].
  split; [exact Hret|].
  destruct (styles_replaced styled_config
              (with_canvasRef (Ref 1) canvas_page) _ 1 eq_refl Hret)
    as (Hcanvas & _ & Himg).
  split; [exact Hcanvas|exact Himg].
Defined.

End Witnesses.

(** * Further properties of the hook *)

(** ** Splitting and joining class names *)

Lemma invalid_token_None l :
  invalid_token l = None <-> Forall (fun t => valid_token t = true) l.
Proof.
  unfold valid_token. induction l as [|t l IH]; simpl.
  - split; [by constructor|done].
  - rewrite Forall_cons. destruct (string_nonempty t); simpl.
    + destruct (string_exists is_ascii_whitespace t); simpl.
      * split; [done|]. by intros [? _].
      * rewrite IH. tauto.
    + split; [done|]. by intros [? _].
Qed.

Lemma js_split_nonempty sep s : js_split sep s <> [].
Proof.
  destruct s as [|c r]; simpl; [done|].
  destruct (Ascii.eqb c sep); [done|]. by destruct (js_split sep r).
Qed.

(** Joining what [split(' ')] gave returns the string. *)
Lemma join_js_split s : join_tokens (js_split " " s) = s.
Proof.
  induction s as [|c r IH]; [done|]. simpl js_split.
  destruct (Ascii.eqb c " ") eqn:Hc.
  - apply Ascii.eqb_eq in Hc as ->.
    pose proof (js_split_nonempty " " r) as Hne.
    destruct (js_split " " r) as [|t ts] eqn:Hr; [done|].
    change (join_tokens ("" :: t :: ts))
      with (String " " (join_tokens (t :: ts))).
    by rewrite IH.
  - pose proof (js_split_nonempty " " r) as Hne.
    destruct (js_split " " r) as [|t ts] eqn:Hr; [done|].
    rewrite <- IH. by destruct ts.
Qed.

Lemma no_whitespace_no_space t :
  string_exists is_ascii_whitespace t = false ->
  string_exists (fun c => Ascii.eqb c " ") t = false.
Proof.
  induction t as [|c t IH]; simpl; [done|].
  intros Hws. apply orb_false_iff in Hws as [Hc Ht].
  rewrite IH by done. rewrite orb_false_r.
  destruct (Ascii.eqb c " ") eqn:Heq; [|done].
  apply Ascii.eqb_eq in Heq as ->. done.
Qed.

Lemma js_split_token t r :
  string_exists (fun c => Ascii.eqb c " ") t = false ->
  js_split " " (t +:+ String " " r) = t :: js_split " " r.
Proof.
  induction t as [|c t IH]; simpl; [done|].
  intros Hsp. apply orb_false_iff in Hsp as [Hc Ht].
  rewrite Hc. by rewrite IH.
Qed.

Lemma js_split_one t :
  string_exists (fun c => Ascii.eqb c " ") t = false ->
  js_split " " t = [t].
Proof.
  induction t as [|c t IH]; simpl; [done|].
  intros Hsp. apply orb_false_iff in Hsp as [Hc Ht].
  rewrite Hc. by rewrite IH.
Qed.

Lemma js_split_join l :
  l <> [] -> Forall (fun t => valid_token t = true) l ->
  js_split " " (join_tokens l) = l.
Proof.
  intros Hne Hl. induction Hl as [|t l Ht Hl IH]; [done|].
  apply andb_true_iff in Ht as [_ Ht]. apply negb_true_iff in Ht.
  apply no_whitespace_no_space in Ht.
  destruct l as [|t' l'].
  - by apply js_split_one.
  - change (join_tokens (t :: t' :: l'))
      with (t +:+ String " " (join_tokens (t' :: l'))).
    rewrite js_split_token by done. by rewrite IH.
Qed.

Lemma split_whitespace_token t r :
  string_exists is_ascii_whitespace t = false ->
  split_whitespace (t +:+ String " " r) = t :: split_whitespace r.
Proof.
  induction t as [|c t IH]; simpl; [done|].
  intros Hsp. apply orb_false_iff in Hsp as [Hc Ht].
  rewrite Hc. by rewrite IH.
Qed.

Lemma split_whitespace_one t :
  string_exists is_ascii_whitespace t = false ->
  split_whitespace t = [t].
Proof.
  induction t as [|c t IH]; simpl; [done|].
  intros Hsp. apply orb_false_iff in Hsp as [Hc Ht].
  rewrite Hc. by rewrite IH.
Qed.

Lemma split_whitespace_join l :
  l <> [] -> Forall (fun t => valid_token t = true) l ->
  split_whitespace (join_tokens l) = l.
Proof.
  intros Hne Hl. induction Hl as [|t l Ht Hl IH]; [done|].
  apply andb_true_iff in Ht as [_ Ht]. apply negb_true_iff in Ht.
  destruct l as [|t' l'].
  - by apply split_whitespace_one.
  - change (join_tokens (t :: t' :: l'))
      with (t +:+ String " " (join_tokens (t' :: l'))).
    rewrite split_whitespace_token by done. by rewrite IH.
Qed.

Lemma split_whitespace_clean s :
  Forall (fun t => string_exists is_ascii_whitespace t = false)
         (split_whitespace s).
Proof.
  induction s as [|c r IH]; simpl; [by repeat constructor|].
  destruct (is_ascii_whitespace c) eqn:Hc; [by constructor|].
  destruct (split_whitespace r) as [|t ts].
  - repeat constructor. simpl. by rewrite Hc.
  - apply Forall_cons in IH as [Ht Hts]. constructor; [|done].
    simpl. by rewrite Hc.
Qed.

Lemma mem_string_spec x l : mem_string x l = true <-> x ∈ l.
Proof.
  induction l as [|y l IH]; simpl.
  - split; [done|]. by intros ?%elem_of_nil.
  - rewrite orb_true_iff, IH, elem_of_cons. unfold string_eqb.
    by rewrite bool_decide_eq_true.
Qed.

(** [append_tokens] keeps [set] in front, adds what is new, once. *)
Lemma append_tokens_spec new : forall set,
  NoDup set ->
  NoDup (append_tokens set new) /\
  (forall t, t ∈ append_tokens set new <-> t ∈ set \/ t ∈ new) /\
  exists added, append_tokens set new = set ++ added.
Proof.
  induction new as [|x new IH]; intros set Hnd; simpl.
  - split; [done|]. split.
    + intros t. rewrite elem_of_nil. tauto.
    + exists []. by rewrite app_nil_r.
  - destruct (mem_string x set) eqn:Hx.
    + apply mem_string_spec in Hx.
      destruct (IH set Hnd) as (Hnd' & Hin & added & Heq).
      split; [done|]. split; [|by eauto].
      intros t. rewrite Hin, elem_of_cons.
      split; [tauto|]. intros [?|[->|?]]; tauto.
    + assert (Hx' : x ∉ set).
      { intros Hin. apply mem_string_spec in Hin. congruence. }
      destruct (IH (set ++ [x])) as (Hnd' & Hin & added & Heq).
      { apply NoDup_app. split; [done|]. split; [|apply NoDup_singleton].
        intros y Hy ->%list_elem_of_singleton. done. }
      split; [done|]. split.
      * intros t. rewrite Hin, elem_of_app, list_elem_of_singleton,
          elem_of_cons. tauto.
      * exists (x :: added). rewrite Heq. by rewrite <- app_assoc.
Qed.

Lemma append_tokens_fresh new : forall set,
  NoDup (set ++ new) -> append_tokens set new = set ++ new.
Proof.
  induction new as [|x new IH]; intros set Hnd; simpl.
  - by rewrite app_nil_r.
  - assert (Hx : mem_string x set = false).
    { destruct (mem_string x set) eqn:Hx; [|done].
      apply mem_string_spec in Hx. apply NoDup_app in Hnd as (_ & Hd & _).
      destruct (Hd x Hx). by left. }
    rewrite Hx. rewrite IH; [by rewrite <- app_assoc|].
    by rewrite <- app_assoc.
Qed.

Lemma append_tokens_valid new : forall set,
  Forall (fun t => valid_token t = true) set ->
  Forall (fun t => valid_token t = true) new ->
  Forall (fun t => valid_token t = true) (append_tokens set new).
Proof.
  induction new as [|x new IH]; intros set Hs Hn; simpl; [done|].
  apply Forall_cons in Hn as [Hx Hn]. apply IH; [|done].
  destruct (mem_string x set); [done|].
  apply Forall_app. split; [done|]. by apply Forall_singleton.
Qed.

(** The tokens of a [class] attribute are valid and distinct. *)
Lemma parse_tokens_valid s :
  Forall (fun t => valid_token t = true) (parse_tokens s) /\
  NoDup (parse_tokens s).
Proof.
  unfold parse_tokens. split.
  - apply append_tokens_valid; [by constructor|].
    apply Forall_forall. intros t Ht.
    apply list_elem_of_filter in Ht as [Hne Ht].
    pose proof (split_whitespace_clean s) as Hclean.
    rewrite Forall_forall in Hclean. unfold valid_token.
    by rewrite Hne, (Hclean t Ht).
  - apply append_tokens_spec. apply NoDup_nil_2.
Qed.

Lemma filter_nonempty_valid l :
  Forall (fun t => valid_token t = true) l ->
  filter (fun t => string_nonempty t = true) l = l.
Proof.
  induction 1 as [|t l Ht Hl IH]; [done|].
  apply andb_true_iff in Ht as [Ht _].
  rewrite filter_cons. rewrite decide_True by done. by rewrite IH.
Qed.

(** Writing a list of distinct tokens to the attribute and reading it
    back gives the list. *)
Lemma parse_join_tokens l :
  Forall (fun t => valid_token t = true) l -> NoDup l ->
  parse_tokens (join_tokens l) = l.
Proof.
  intros Hl Hnd. unfold parse_tokens. destruct l as [|t l]; [done|].
  rewrite split_whitespace_join by done.
  rewrite filter_nonempty_valid by done.
  by apply (append_tokens_fresh _ []).
Qed.

(** ** The setup, element by element *)

Lemma accepted_classes_spec classes :
  accepted_classes classes <-> class_error classes = None.
Proof.
  unfold accepted_classes, class_error. split.
  - intros [->|(l & Hne & Hl & ->)]; [done|].
    destruct (string_nonempty _); [|done].
    rewrite js_split_join by done. by apply invalid_token_None.
  - destruct classes as [|c r]; [by left|]. simpl string_nonempty.
    intros Hok. right. exists (js_split " " (String c r)).
    split; [apply js_split_nonempty|]. split.
    + by apply invalid_token_None.
    + by rewrite join_js_split.
Qed.

Lemma touched_refl names e : touched names e e.
Proof. by split. Qed.

Lemma touched_trans names e1 e2 e3 :
  touched names e1 e2 -> touched names e2 e3 -> touched names e1 e3.
Proof.
  intros [Hi1 Ha1] [Hi2 Ha2]. split; [congruence|].
  intros k Hk. rewrite Ha2 by done. by apply Ha1.
Qed.

Lemma touched_set_attr names k v e :
  k ∈ names -> touched names e (set_attr k v e).
Proof.
  intros Hk. split; [done|]. intros k' Hk'. unfold attr, set_attr.
  cbn [el_attrs]. apply lookup_insert_ne. by intros ->.
Qed.

Lemma touched_mono names names' e e' :
  names ⊆ names' -> touched names e e' -> touched names' e e'.
Proof. intros Hsub [Hi Ha]. split; [done|]. intros k Hk. apply Ha. auto. Qed.

Lemma touched_add_classes classes e :
  touched ["class"] e (add_classes classes e).
Proof.
  unfold add_classes. destruct (string_nonempty classes).
  - apply touched_set_attr. by left.
  - apply touched_refl.
Qed.

(** The last attribute of a name is the one the canvas keeps. *)
Lemma apply_attributes_last `{Browser} pre k v post e :
  Forall (fun kv => ascii_lowercase (fst kv) <> ascii_lowercase k) post ->
  attr (ascii_lowercase k) (apply_attributes (pre ++ (k, v) :: post) e)
  = Some v.
Proof.
  intros Hpost. unfold apply_attributes. rewrite fold_left_app.
  simpl fold_left. fold (apply_attributes pre e).
  set (e1 := write_attribute _ _ _).
  fold (apply_attributes post e1).
  destruct (written_apply_attributes post e1) as [_ Ha].
  rewrite Ha.
  - unfold e1, write_attribute.
    destruct (is_dimension _); rewrite ?attr_set_bitmap_dimensions;
      unfold attr, set_attr; cbn [el_attrs]; apply lookup_insert_eq.
  - intros Hin. apply list_elem_of_fmap in Hin as (kv & Heq & Hin).
    rewrite Forall_forall in Hpost. by destruct (Hpost kv Hin).
Qed.

Lemma class_tokens_valid e :
  Forall (fun t => valid_token t = true) (class_tokens e) /\
  NoDup (class_tokens e).
Proof.
  unfold class_tokens. destruct (attr "class" e).
  - apply parse_tokens_valid.
  - split; [by constructor|apply NoDup_nil_2].
Qed.

(** The class list once [classList.add] has run. *)
Lemma class_tokens_add_classes classes e :
  classes <> "" -> class_error classes = None ->
  class_tokens (add_classes classes e)
  = append_tokens (class_tokens e) (js_split " " classes).
Proof.
  intros Hne Hok. unfold add_classes, class_error in *.
  destruct classes as [|a r]; [done|]. simpl string_nonempty in *.
  cbv iota in *.
  unfold class_tokens at 1, attr, set_attr. cbn [el_attrs].
  rewrite lookup_insert_eq.
  destruct (class_tokens_valid e) as [Hv Hnd].
  apply parse_join_tokens.
  - apply append_tokens_valid; [done|]. by apply invalid_token_None.
  - by apply append_tokens_spec.
Qed.

Lemma class_tokens_touched names e e' :
  "class" ∉ names -> touched names e e' -> class_tokens e' = class_tokens e.
Proof. intros Hk [_ Ha]. unfold class_tokens. by rewrite Ha. Qed.

Lemma class_tokens_written names e e' :
  "class" ∉ names -> written names e e' -> class_tokens e' = class_tokens e.
Proof. intros Hk [_ Ha]. unfold class_tokens. by rewrite Ha. Qed.

Lemma no_dimension_setup_names cfg :
  no_dimension (setup_names cfg) = no_dimension (configured_names cfg).
Proof. reflexivity. Qed.

Section SetupState.
Context `{Browser} (cfg : config).

(** Where [updateCanvas] leaves the elements, however it ends. *)
Lemma updateCanvas_shape s c e :
  canvasRef s = Ref c -> st_heap s !! c = Some e ->
  exists e' tail,
    written (setup_names cfg) e e' /\ (length tail <= 1)%nat /\
    st_heap (final (updateCanvas cfg s)) = <[c := e']> (st_heap s) ++ tail.
Proof.
  intros Hc He.
  assert (Hlt : (c < length (st_heap s))%nat) by (by eapply lookup_lt_Some).
  destruct (setup_error cfg) as [err|] eqn:Herr.
  2:{ exists (canvas_after cfg e), [image_after cfg].
      split; [apply written_canvas_after|]. split; [done|].
      destruct (is_document_element (st_heap s) (st_doc s) c) eqn:Hroot.
      - by rewrite (updateCanvas_refused cfg s c e).
      - rewrite (updateCanvas_exact cfg s c e) by done.
        apply setup_state_heap. }
  assert (Hattrs : written (setup_names cfg) e
                     (apply_attributes (canvasAttributes cfg) e)).
  { eapply written_mono; [|apply written_apply_attributes].
    intros k Hk. by do 2 right. }
  unfold setup_error in Herr. unfold updateCanvas. unfold bind at 1.
  destruct (forallb _ _) eqn:Hvalid.
  - rewrite (attributes_exact _ s c e Hvalid Hc He). cbv beta iota.
    unfold bind at 1.
    rewrite (classes_exact _ _ c
               (apply_attributes (canvasAttributes cfg) e));
      [|done|by (state_simpl; apply list_lookup_insert_eq)].
    destruct (class_error (canvasClassname cfg)) eqn:Hcls.
    + state_simpl. eexists _, []. rewrite app_nil_r. by eauto.
    + cbv beta iota. state_simpl. rewrite list_insert_insert_eq.
      unfold bind at 1. read_canvasRef Hc. unfold set_style.
      rewrite (update_element_exact c _ _
                 (add_classes (canvasClassname cfg)
                    (apply_attributes (canvasAttributes cfg) e)));
        [|by (state_simpl; apply list_lookup_insert_eq)].
      cbv beta iota. state_simpl. rewrite list_insert_insert_eq.
      fold (canvas_after cfg e).
      unfold bind at 1. rewrite createImg_exact, Herr.
      unfold image_created. state_simpl.
      eexists _, [_]. split; [apply written_canvas_after|]. by split.
  - destruct (first_invalid _ Hvalid)
      as (pre & k & v & post & Heq & Hpre & Hk).
    rewrite Heq. rewrite (attributes_throw pre k v post s c e) by done.
    state_simpl. eexists _, []. rewrite app_nil_r.
    split; [|by eauto]. eapply written_mono; [|apply written_apply_attributes].
    intros k' Hk'. do 2 right. unfold setup_names in *. rewrite Heq.
    rewrite map_app. apply elem_of_app. by left.
Qed.

End SetupState.

(** ** The setup: what it writes and when it throws *)

(** X1.  Started with [canvasRef.current] an element of the page,
    [updateCanvas] returns exactly when every attribute name is valid,
    each of the two class options is empty or made of valid tokens
    separated by single spaces, and the element is not the document
    element, behind which [after] can insert nothing; otherwise it
    throws. *)
Theorem setup_returns_iff `{Browser} (cfg : config) (s : state) (c : node) :
  canvasRef s = Ref c -> is_Some (st_heap s !! c) ->
  thrown (updateCanvas cfg s) = None <->
  Forall (fun kv => valid_attribute_name (fst kv) = true)
         (canvasAttributes cfg) /\
  accepted_classes (canvasClassname cfg) /\
  accepted_classes (imgClassname cfg) /\
  is_document_element (st_heap s) (st_doc s) c = false.
Proof.
  intros Hc He. rewrite (updateCanvas_thrown cfg s c Hc He).
  rewrite !accepted_classes_spec, <- forallb_Forall_true.
  unfold setup_exception, setup_error. destruct (forallb _ _).
  - destruct (class_error (canvasClassname cfg)).
    { split; [done|]. by intros (_ & ? & _). }
    destruct (class_error (imgClassname cfg)).
    { split; [done|]. by intros (_ & _ & ? & _). }
    destruct (is_document_element _ _ c); [|done].
    split; [done|]. by intros (_ & _ & _ & ?).
  - split; [done|]. by intros (? & _).
Qed.

(** X2.  An invalid attribute name makes [updateCanvas] throw
    InvalidCharacterError where the loop stands: the attributes before it
    are on the canvas, and nothing else has happened (no class added, the
    inline style as it was, no image created, nothing inserted). *)
Theorem invalid_attribute_stops_setup `{Browser} (cfg : config) (s : state)
    (c : node) (e : element) pre k v post :
  canvasRef s = Ref c -> st_heap s !! c = Some e ->
  canvasAttributes cfg = pre ++ (k, v) :: post ->
  Forall (fun kv => valid_attribute_name (fst kv) = true) pre ->
  valid_attribute_name k = false ->
  updateCanvas cfg s
  = Throw InvalidCharacterError
      (with_heap (<[c := apply_attributes pre e]> (st_heap s)) s).
Proof.
  intros Hc He Heq Hpre Hk. apply forallb_Forall_true in Hpre.
  unfold updateCanvas. unfold bind at 1. rewrite Heq.
  by rewrite (attributes_throw pre k v post s c e).
Qed.

(** X3.  When [updateCanvas] returns, the canvas carries every configured
    attribute under its lowercased name, with the value of the last entry
    of that name; [style] is excepted, and [class] when a canvas class
    is configured, as the later steps write those. *)
Theorem configured_attributes_set `{Browser} (cfg : config) (s s' : state)
    (c : node) (e : element) pre k v post :
  canvasRef s = Ref c -> st_heap s !! c = Some e ->
  updateCanvas cfg s = Ret tt s' ->
  canvasAttributes cfg = pre ++ (k, v) :: post ->
  Forall (fun kv => ascii_lowercase (fst kv) <> ascii_lowercase k) post ->
  ascii_lowercase k <> "style" ->
  ascii_lowercase k <> "class" \/ canvasClassname cfg = "" ->
  exists e', st_heap s' !! c = Some e' /\
             attr (ascii_lowercase k) e' = Some v.
Proof.
  intros Hc He Hret Heq Hpost Hstyle Hclass.
  destruct (returned_setup cfg s s' c e Hc He Hret) as [_ ->].
  exists (canvas_after cfg e). split; [by apply setup_state_canvas|].
  unfold canvas_after.
  unfold attr at 1, set_attr at 1. cbn [el_attrs].
  rewrite lookup_insert_ne by done.
  change (attr (ascii_lowercase k)
            (add_classes (canvasClassname cfg)
               (apply_attributes (canvasAttributes cfg) e)) = Some v).
  rewrite Heq.
  destruct Hclass as [Hclass| ->].
  - destruct (touched_add_classes (canvasClassname cfg)
                (apply_attributes (pre ++ (k, v) :: post) e)) as [_ Ha].
    rewrite Ha; [by apply apply_attributes_last|].
    by intros Hin%list_elem_of_singleton.
  - by apply apply_attributes_last.
Qed.

(** X4.  However [updateCanvas] ends, it changes no element but the
    canvas, adds at most one element, and on the canvas changes nothing
    but the attributes [style], [class] and the configured ones, and the
    bitmap when [width] or [height] is among the configured names, as
    setting a dimension clears it: the element stays of its kind, every
    other attribute stays, and with no dimension configured the bitmap
    stays. *)
Theorem setup_touches_the_canvas_only `{Browser} (cfg : config) (s : state)
    (c : node) (e : element) :
  canvasRef s = Ref c -> st_heap s !! c = Some e ->
  let s' := final (updateCanvas cfg s) in
  (forall n, n <> c -> (n < length (st_heap s))%nat ->
             st_heap s' !! n = st_heap s !! n) /\
  (length (st_heap s) <= length (st_heap s') <= S (length (st_heap s)))%nat /\
  exists e', st_heap s' !! c = Some e' /\
             kind (el_interface e') = kind (el_interface e) /\
             (no_dimension (configured_names cfg) = true ->
              el_interface e' = el_interface e) /\
             forall k, k ∉ setup_names cfg -> attr k e' = attr k e.
Proof.
  intros Hc He s'.
  destruct (updateCanvas_shape cfg s c e Hc He)
    as (e' & tail & [[Hk Hi] Ha] & Htail & Hheap).
  rewrite no_dimension_setup_names in Hi.
  subst s'. rewrite Hheap. apply lookup_lt_Some in He as Hlt. split_and!.
  - intros n Hn Hlen. rewrite lookup_app_l by by rewrite length_insert.
    by apply list_lookup_insert_ne.
  - rewrite length_app, length_insert. lia.
  - rewrite length_app, length_insert. lia.
  - exists e'. split; [|done].
    rewrite lookup_app_l by by rewrite length_insert.
    by apply list_lookup_insert_eq.
Qed.

(** X5.  When [updateCanvas] returns with a canvas class configured (and
    no [class] among the configured attributes), the class list of the
    canvas holds the classes it had, in their order, followed by the
    configured ones it did not have; nothing is listed twice. *)
Theorem canvas_classes_added `{Browser} (cfg : config) (s s' : state)
    (c : node) (e : element) :
  canvasRef s = Ref c -> st_heap s !! c = Some e ->
  updateCanvas cfg s = Ret tt s' ->
  canvasClassname cfg <> "" ->
  Forall (fun kv => ascii_lowercase (fst kv) <> "class")
         (canvasAttributes cfg) ->
  exists e' added,
    st_heap s' !! c = Some e' /\
    class_tokens e' = class_tokens e ++ added /\
    NoDup (class_tokens e') /\
    forall t, t ∈ class_tokens e' <->
              t ∈ class_tokens e \/
              t ∈ js_split " " (canvasClassname cfg).
Proof.
  intros Hc He Hret Hne Hnoclass.
  destruct (returned_setup cfg s s' c e Hc He Hret) as [Herr ->].
  assert (Hcls : class_error (canvasClassname cfg) = None).
  { unfold setup_error in Herr. destruct (forallb _ _); [|done].
    by destruct (class_error (canvasClassname cfg)). }
  assert (Htok : class_tokens (canvas_after cfg e)
                 = append_tokens (class_tokens e)
                     (js_split " " (canvasClassname cfg))).
  { unfold canvas_after.
    rewrite (class_tokens_touched ["style"]
               (add_classes (canvasClassname cfg)
                  (apply_attributes (canvasAttributes cfg) e)));
      [| |apply touched_set_attr; by left].
    2:{ by intros ?%list_elem_of_singleton. }
    rewrite class_tokens_add_classes by done. f_equal.
    eapply class_tokens_written; [|apply written_apply_attributes].
    intros Hin. apply list_elem_of_fmap in Hin as (kv & Heq & Hin).
    rewrite Forall_forall in Hnoclass. by destruct (Hnoclass kv Hin). }
  destruct (class_tokens_valid e) as [_ Hnd].
  destruct (append_tokens_spec (js_split " " (canvasClassname cfg))
              (class_tokens e) Hnd) as (Hnd' & Hin & added & Hadd).
  exists (canvas_after cfg e), added.
  split; [by apply setup_state_canvas|]. rewrite Htok. by split_and!.
Qed.

(** X6.  When [updateCanvas] returns, [imgRef.current] is a new element
    of the page, an image, whose class list holds the configured image
    classes, each once, and which has no attribute besides [class] and
    [style]: no [src] before the first capture. *)
Theorem image_created_plain `{Browser} (cfg : config) (s s' : state)
    (c : node) (e : element) :
  canvasRef s = Ref c -> st_heap s !! c = Some e ->
  updateCanvas cfg s = Ret tt s' ->
  imgRef s' = Ref (length (st_heap s)) /\
  exists img,
    st_heap s' !! length (st_heap s) = Some img /\
    el_interface img = HTMLImageElement /\
    NoDup (class_tokens img) /\
    (forall t, t ∈ class_tokens img <->
               imgClassname cfg <> "" /\
               t ∈ js_split " " (imgClassname cfg)) /\
    forall k, k <> "class" -> k <> "style" -> attr k img = None.
Proof.
  intros Hc He Hret.
  destruct (returned_setup cfg s s' c e Hc He Hret) as [Herr ->].
  assert (Hcls : class_error (imgClassname cfg) = None).
  { unfold setup_error in Herr. destruct (forallb _ _); [|done].
    by destruct (class_error (canvasClassname cfg)). }
  split.
  { unfold setup_state, image_inserted, image_created.
    by destruct (in_doc c (st_doc s)). }
  exists (image_after cfg). split; [apply setup_state_image|].
  set (img0 := Element HTMLImageElement ∅).
  assert (Htouched : touched ["class"; "style"] img0 (image_after cfg)).
  { unfold image_after. eapply touched_trans.
    - eapply touched_mono; [|apply touched_add_classes].
      intros k ->%list_elem_of_singleton. by left.
    - apply touched_set_attr. right. by left. }
  assert (Htok : class_tokens (image_after cfg)
                 = class_tokens (add_classes (imgClassname cfg) img0)).
  { unfold image_after. eapply class_tokens_touched;
      [|apply touched_set_attr; by left].
    by intros ?%list_elem_of_singleton. }
  destruct Htouched as [Hi Ha]. split; [done|]. rewrite Htok.
  split; [apply class_tokens_valid|]. split.
  - intros t. destruct (decide (imgClassname cfg = "")) as [Hempty|Hne].
    + unfold add_classes. rewrite Hempty. simpl.
      unfold class_tokens, attr. simpl. rewrite lookup_empty.
      rewrite elem_of_nil. tauto.
    + rewrite class_tokens_add_classes by done.
      destruct (append_tokens_spec (js_split " " (imgClassname cfg))
                  (class_tokens img0)) as (_ & Hin & _).
      { apply class_tokens_valid. }
      rewrite Hin. unfold class_tokens at 1, attr. simpl.
      rewrite lookup_empty. rewrite elem_of_nil. tauto.
  - intros k Hk1 Hk2. rewrite Ha.
    + unfold attr. simpl. apply lookup_empty.
    + intros Hin. apply elem_of_cons in Hin as [->|Hin]; [done|].
      by apply list_elem_of_singleton in Hin.
Qed.

(** ** Captures, one after the other *)

Lemma set_attr_twice k v w e :
  set_attr k v (set_attr k w e) = set_attr k v e.
Proof. unfold set_attr. cbn [el_interface el_attrs]. by rewrite insert_insert_eq. Qed.

Lemma frames_replicate (l : list callback) :
  Forall (fun cb => cb = CbCapture) l -> l = replicate (length l) CbCapture.
Proof. induction 1 as [|cb l -> _ IH]; [done|]. simpl. by rewrite <- IH. Qed.

Section Captures.
Context `{Browser} (cfg : config).

(** One capture or more in a row leave the elements as one does. *)
Lemma frame_heap n : forall s c i ec ei bitmap,
  canvasRef s = Ref c -> imgRef s = Ref i -> c <> i ->
  st_heap s !! c = Some ec -> el_interface ec = HTMLCanvasElement bitmap ->
  st_heap s !! i = Some ei ->
  st_heap (fold_left (fun s' cb => host_run cfg cb s')
                     (replicate (S n) CbCapture) s)
  = <[i := set_attr "src" (encode bitmap (fileType cfg) (quality cfg)) ei]>
      (st_heap s).
Proof.
  induction n as [|n IH]; intros s c i ec ei bitmap Hc Hi Hne Hec Hk Hei.
  - simpl. by erewrite host_run_reads by eassumption.
  - rewrite replicate_S_end, fold_left_app. cbn [fold_left].
    destruct (frame_keeps cfg (S n) s c i ec ei bitmap Hc Hi Hne Hec Hk Hei
                _ eq_refl) as (Hc' & Hi' & Hec' & ei' & Hei').
    pose proof (IH s c i ec ei bitmap Hc Hi Hne Hec Hk Hei) as Hheap.
    erewrite host_run_reads by eassumption. state_simpl.
    rewrite Hheap in Hei' |- *.
    rewrite list_lookup_insert_eq in Hei' by (by eapply lookup_lt_Some).
    injection Hei' as <-.
    by rewrite list_insert_insert_eq, set_attr_twice.
Qed.

Lemma frame_step_heap s c i ec ei bitmap n :
  canvasRef s = Ref c -> imgRef s = Ref i -> c <> i ->
  st_heap s !! c = Some ec -> el_interface ec = HTMLCanvasElement bitmap ->
  st_heap s !! i = Some ei ->
  st_frames s = replicate (S n) CbCapture ->
  st_heap (final (step cfg Frame s))
  = <[i := set_attr "src" (encode bitmap (fileType cfg) (quality cfg)) ei]>
      (st_heap s).
Proof.
  intros Hc Hi Hne Hec Hk Hei Hf.
  assert (step cfg Frame s =
          Ret tt (fold_left (fun s' cb => host_run cfg cb s')
                    (st_frames s) (with_frames [] s))) as ->
    by (unfold step; by destruct (st_phase s)).
  rewrite Hf. cbn [final].
  by rewrite (frame_heap n (with_frames [] s) c i ec ei bitmap).
Qed.

End Captures.

(** ** The capture: what it writes *)

(** X7.  However the arrow function of [createImgSrc] ends, it changes
    nothing but the [src] attribute of the image [imgRef.current]: every
    other element, the canvas and its bitmap among them, the document,
    the timers, the frame queue and both refs stay as they are. *)
Theorem capture_writes_src_only `{Browser} (cfg : config) (s : state) :
  let s' := final (capture cfg s) in
  st_doc s' = st_doc s /\ st_timers s' = st_timers s /\
  st_frames s' = st_frames s /\ canvasRef s' = canvasRef s /\
  imgRef s' = imgRef s /\ length (st_heap s') = length (st_heap s) /\
  (forall n, imgRef s <> Ref n -> st_heap s' !! n = st_heap s !! n) /\
  (forall i e, imgRef s = Ref i -> st_heap s !! i = Some e ->
               exists e', st_heap s' !! i = Some e' /\ touched ["src"] e e').
Proof.
  unfold capture, toDataURL, set_src. run_monad.
  assert (Hsame : forall s0 : state,
            st_heap s0 = st_heap s -> st_doc s0 = st_doc s ->
            st_timers s0 = st_timers s -> st_frames s0 = st_frames s ->
            canvasRef s0 = canvasRef s -> imgRef s0 = imgRef s ->
            st_doc s0 = st_doc s /\ st_timers s0 = st_timers s /\
            st_frames s0 = st_frames s /\ canvasRef s0 = canvasRef s /\
            imgRef s0 = imgRef s /\
            length (st_heap s0) = length (st_heap s) /\
            (forall n, imgRef s <> Ref n ->
                       st_heap s0 !! n = st_heap s !! n) /\
            (forall i e, imgRef s = Ref i -> st_heap s !! i = Some e ->
                         exists e', st_heap s0 !! i = Some e' /\
                                    touched ["src"] e e')).
  { intros s0 Hh Hd Ht Hf Hc Hi. rewrite Hh. split_and!; try done.
    intros i e _ He. exists e. split; [done|apply touched_refl]. }
  destruct (canvasRef s) as [| |c] eqn:Hc;
    destruct (imgRef s) as [| |i] eqn:Hi; state_simpl;
    try (apply Hsame; by rewrite ?Hc, ?Hi).
  rewrite ?Hc. state_simpl.
  destruct (st_heap s !! c) as [ec|]; state_simpl;
    [|by apply Hsame; rewrite ?Hc, ?Hi].
  destruct (el_interface ec) as [bitmap| |tag]; state_simpl;
    try (apply Hsame; by rewrite ?Hc, ?Hi).
  rewrite ?Hi. state_simpl.
  destruct (st_heap s !! i) as [ei|] eqn:Hei; state_simpl;
    [|by apply Hsame; rewrite ?Hc, ?Hi].
  split_and!; try done.
  - apply length_insert.
  - intros n Hn. apply list_lookup_insert_ne. congruence.
  - intros i' e [= <-] He. eexists. split.
    + apply list_lookup_insert_eq. by eapply lookup_lt_Some.
    + assert (e = ei) as -> by congruence.
      apply touched_set_attr. by left.
Qed.

(** X8.  A frame with one queued capture or more leaves the elements as
    a single capture does: the image's [src] is the encoding of the
    canvas's bitmap, whatever it was before, and nothing else differs. *)
Theorem repeated_captures_agree `{Browser} (cfg : config) (s : state)
    (c i : node) (ec ei : element) (bitmap : list Z) (n : nat) :
  canvasRef s = Ref c -> imgRef s = Ref i -> c <> i ->
  st_heap s !! c = Some ec -> el_interface ec = HTMLCanvasElement bitmap ->
  st_heap s !! i = Some ei ->
  st_frames s = replicate (S n) CbCapture ->
  st_heap (final (step cfg Frame s))
  = <[i := set_attr "src" (encode bitmap (fileType cfg) (quality cfg)) ei]>
      (st_heap s).
Proof.
  by apply frame_step_heap.
Qed.

(** X9.  A capture encodes the canvas as it is when the frame runs, not
    as it was when the capture was queued: after a drawing that comes
    between the two, the image's [src] is the encoding of the new
    bitmap, with the configured type and quality. *)
Theorem capture_sees_latest_drawing `{Browser} (cfg : config) (s : state)
    (c i : node) (ec ei : element) (drawn : list Z) (n : nat) :
  canvasRef s = Ref c -> imgRef s = Ref i -> c <> i ->
  st_heap s !! c = Some ec -> is_canvas ec = true ->
  st_heap s !! i = Some ei ->
  st_frames s = replicate (S n) CbCapture ->
  attr "src" <$> st_heap (run cfg [Env (Draw c drawn); Frame] s) !! i
  = Some (Some (encode drawn (fileType cfg) (quality cfg))).
Proof.
  intros Hc Hi Hne Hec Hk Hei Hf. cbn [run].
  assert (step cfg (Env (Draw c drawn)) s
          = Ret tt (with_heap (<[c := draw drawn ec]> (st_heap s)) s)) as ->.
  { unfold step. simpl. rewrite Hec. by destruct (st_phase s). }
  cbn [final].
  assert (Hdrawn : el_interface (draw drawn ec) = HTMLCanvasElement drawn).
  { unfold draw, is_canvas in *. by destruct (el_interface ec). }
  apply lookup_lt_Some in Hec as Hlt.
  rewrite (frame_step_heap cfg _ c i (draw drawn ec) ei drawn n);
    state_simpl; try done.
  - rewrite list_lookup_insert_eq by (rewrite length_insert;
                                       by eapply lookup_lt_Some).
    simpl. unfold attr, set_attr. cbn [el_attrs].
    by rewrite lookup_insert_eq.
  - by apply list_lookup_insert_eq.
  - by rewrite list_lookup_insert_ne.
Qed.

(** ** The timers of the hook *)

Lemma filter_filter_le {A} (p : A -> bool) (P : A -> Prop)
    `{!forall x, Decision (P x)} (l : list A) :
  (length (List.filter p (filter P l)) <= length (List.filter p l))%nat.
Proof.
  induction l as [|x l IH]; [done|]. rewrite filter_cons.
  destruct (decide (P x)); simpl; destruct (p x); simpl; lia.
Qed.

Section Timers.
Context `{Browser} (cfg : config).

Lemma useInterval_timers s :
  st_timers (final (useInterval_effect CbCreateImgSrc (interval cfg) s))
  = st_timers s \/
  exists ms,
    st_timers (final (useInterval_effect CbCreateImgSrc (interval cfg) s))
    = st_timers s ++ [Timer (st_nextTimer s) CbCreateImgSrc ms true].
Proof.
  unfold useInterval_effect. destruct (interval cfg) as [| |ms]; try by left.
  right. by exists ms.
Qed.

(** A retry that is pending is the only one, and so is the interval. *)
Lemma pending_step a s :
  Inv cfg s ->
  (pending is_retry s <= 1)%nat /\ (pending is_interval s <= 1)%nat ->
  (pending is_retry (final (step cfg a s)) <= 1)%nat /\
  (pending is_interval (final (step cfg a s)) <= 1)%nat.
Proof.
  intros HI [Hr Hi]. unfold pending in *. destruct a.
  - unfold step. by destruct (st_phase s).
  - destruct (st_phase s) eqn:Hp; try (by unfold step; rewrite Hp).
    unfold step. rewrite Hp.
    assert (Ht : st_timers s = [])
      by (apply (timers_nil cfg); [done|by rewrite Hp]).
    pose proof (inv_early _ _ HI (or_intror Hp)) as Hlog.
    assert (HI0 : Inv cfg (with_phase Mounted s)).
    { apply Inv_phase; try done; by intros [|]. }
    destruct (Inv_setCanvas cfg (with_phase Mounted s) HI0)
      as (HI1 & Hm1 & Ht1); state_simpl; try done.
    { rewrite Ht. apply Forall_nil_2. }
    unfold effect, bind.
    destruct (setCanvas cfg (with_phase Mounted s)) as [[] s1|e s1];
      state_simpl.
    + destruct (useInterval_returns CbCreateImgSrc (interval cfg) s1)
        as [s2 Hs2].
      pose proof (useInterval_timers s1) as Hs. rewrite Hs2 in *.
      state_simpl.
      destruct Hs as [->|[ms ->]];
        destruct Ht1 as [->|[_ ->]]; rewrite Ht; simpl; lia.
    + destruct Ht1 as [->|[? _]]; [|done]. rewrite Ht. simpl. lia.
  - destruct (st_phase s) eqn:Hp; try (by unfold step; rewrite Hp).
    rewrite (unmount_result cfg) by done. simpl. lia.
  - assert (step cfg Invoke s = Ret tt s
            \/ step cfg Invoke s = call cfg (returned cfg) s) as [->| ->].
    { unfold step. destruct (st_phase s); auto. }
    + done.
    + by destruct (invoke_same cfg s) as (-> & _).
  - rewrite step_fire.
    destruct (find_timer id (st_timers s)) as [t|] eqn:Hf; [|done].
    apply find_timer_some in Hf as [Hin <-]. state_simpl.
    pose proof (inv_timers _ _ HI) as Hts.
    rewrite Forall_forall in Hts.
    pose proof (Hts t ltac:(by apply list_elem_of_In)) as [Hm Hk].
    destruct (tm_cb t) eqn:Hcb; [| |done].
    + destruct Hk as (_ & -> & Hre & Hne & Hlog).
      set (s' := with_timers _ s).
      assert (Hno : Forall (fun t' => tm_cb t' <> CbSetCanvas) (st_timers s')).
      { subst s'. state_simpl. apply Forall_forall. intros t' Ht'.
        apply list_elem_of_filter in Ht' as [Hid Ht']. intros Hcb'.
        destruct (Hts t' Ht') as [_ Hk']. rewrite Hcb' in Hk'.
        destruct Hk' as (_ & _ & Hre' & _). congruence. }
      assert (HI' : Inv cfg s').
      { subst s'. destruct HI. constructor; state_simpl; try done.
        apply Forall_forall. intros t' Ht'.
        apply list_elem_of_filter in Ht' as [_ Ht']. by apply Hts. }
      assert (Hnone : length (List.filter is_retry (st_timers s')) = 0).
      { clear -Hno. induction Hno as [|t' l Ht' _ IH]; [done|].
        simpl. unfold is_retry at 1. by destruct (tm_cb t'). }
      assert (Hint : (length (List.filter is_interval (st_timers s')) <= 1)%nat).
      { subst s'. state_simpl.
        etransitivity; [apply filter_filter_le|done]. }
      destruct (Inv_setCanvas cfg s' HI' Hno Hm Hlog) as (_ & _ & Ht1).
      clearbody s'. unfold host_run. simpl run_callback.
      destruct (setCanvas cfg s') as [[] s1|e s1]; state_simpl;
        (destruct Ht1 as [->|[Hthrown ->]];
         [lia|try discriminate Hthrown;
              rewrite !List.filter_app, !length_app; simpl; lia]).
    + destruct Hk as (-> & _). unfold host_run. simpl. done.
  - rewrite step_frame. state_simpl.
    destruct (frame_same cfg (st_frames s) (with_frames [] s)
                (inv_frames _ _ HI)) as (-> & _). done.
  - rewrite step_env. state_simpl.
    by destruct (apply_change_same c s) as (-> & _).
Qed.

Lemma pending_run acts : forall s,
  Inv cfg s ->
  (pending is_retry s <= 1)%nat /\ (pending is_interval s <= 1)%nat ->
  (pending is_retry (run cfg acts s) <= 1)%nat /\
  (pending is_interval (run cfg acts s) <= 1)%nat.
Proof.
  induction acts as [|a acts IH]; intros s HI Hp; [done|].
  simpl. apply IH; [by apply Inv_step|by apply pending_step].
Qed.

(** ** After the unmount *)

Lemma unmounted_step a s :
  Inv cfg s -> st_phase s = Unmounted ->
  st_phase (final (step cfg a s)) = Unmounted.
Proof.
  intros HI Hp. destruct a.
  - unfold step. by rewrite Hp.
  - unfold step. by rewrite Hp.
  - unfold step. by rewrite Hp.
  - unfold step. rewrite Hp. by destruct (invoke_same cfg s) as (_ & -> & _).
  - rewrite step_fire.
    rewrite (timers_nil cfg s HI) by (by rewrite Hp). done.
  - rewrite step_frame. state_simpl.
    destruct (frame_same cfg (st_frames s) (with_frames [] s)
                (inv_frames _ _ HI)) as (_ & -> & _). done.
  - rewrite step_env. state_simpl.
    by destruct (apply_change_same c s) as (_ & -> & _).
Qed.

Lemma unmounted_run acts : forall s,
  Inv cfg s -> st_phase s = Unmounted ->
  st_phase (run cfg acts s) = Unmounted.
Proof.
  induction acts as [|a acts IH]; intros s HI Hp; [done|].
  simpl. apply IH; [by apply Inv_step|by apply unmounted_step].
Qed.

(** ** After a setup that failed *)

Lemma setup_failed_step a s :
  Inv cfg s -> setup_failed s ->
  setup_failed (final (step cfg a s)) /\
  canvasRef (final (step cfg a s)) = canvasRef s /\
  st_log (final (step cfg a s)) = st_log s.
Proof.
  intros HI [Hc Hi].
  assert (Hlog : st_log s <> []).
  { intros Hlog. destruct (unresolved_refs cfg s HI Hlog) as [Hc' _].
    congruence. }
  assert (Hs : setup_failed s) by done.
  destruct a.
  - unfold step. destruct (st_phase s) eqn:Hp; try done.
    by destruct (Hlog (inv_early _ _ HI (or_introl Hp))).
  - unfold step. destruct (st_phase s) eqn:Hp; try done.
    by destruct (Hlog (inv_early _ _ HI (or_intror Hp))).
  - destruct (st_phase s) eqn:Hp; try (by unfold step; rewrite Hp).
    by rewrite (unmount_result cfg).
  - assert (step cfg Invoke s = Ret tt s
            \/ step cfg Invoke s = call cfg (returned cfg) s) as [->| ->].
    { unfold step. destruct (st_phase s); auto. }
    + done.
    + unfold setup_failed.
      by destruct (invoke_same cfg s) as (_ & _ & -> & -> & -> & _).
  - rewrite step_fire.
    destruct (find_timer id (st_timers s)) as [t|] eqn:Hf; [|done].
    apply find_timer_some in Hf as [Hin <-]. state_simpl.
    pose proof (inv_timers _ _ HI) as Hts.
    rewrite Forall_forall in Hts.
    pose proof (Hts t ltac:(by apply list_elem_of_In)) as [Hm Hk].
    destruct (tm_cb t) eqn:Hcb; [| |done].
    + by destruct Hk as (_ & _ & _ & _ & ?).
    + destruct Hk as (-> & _). unfold host_run. simpl. done.
  - rewrite step_frame. state_simpl.
    rewrite frame_missing; [done|by right|exact (inv_frames _ _ HI)].
  - rewrite step_env. state_simpl. unfold setup_failed.
    by destruct (apply_change_same c s) as (_ & _ & -> & -> & -> & _).
Qed.

Lemma setup_failed_run acts : forall s,
  Inv cfg s -> setup_failed s ->
  setup_failed (run cfg acts s) /\
  canvasRef (run cfg acts s) = canvasRef s /\
  st_log (run cfg acts s) = st_log s.
Proof.
  induction acts as [|a acts IH]; intros s HI Hs; [done|].
  simpl. destruct (setup_failed_step a s HI Hs) as (Hs' & Hc & Hlog).
  destruct (IH _ (Inv_step cfg a s HI) Hs') as (? & -> & ->). done.
Qed.

End Timers.

(** ** Timers, unmount and failure over a run *)

(** X10.  In every run at most one retry of [setCanvas] and at most one
    interval are pending.  A pending retry is a one-shot timer of 100 ms
    and means that nothing is resolved; a pending interval repeats with
    the configured duration; and there are timers only while the
    component is mounted. *)
Theorem timers_of_the_hook `{Browser} (cfg : config)
  (h : list element) (d : list tree) (r : jsref) (acts : list action) :
  nodes_exist h d = true ->
  let s := run cfg acts (initial h d r) in
  (pending is_retry s <= 1)%nat /\ (pending is_interval s <= 1)%nat /\
  forall t, In t (st_timers s) ->
    st_phase s = Mounted /\
    (is_retry t = true /\ tm_delay t = 100%Z /\ tm_repeat t = false /\
     truthy (canvasRef s) = false
     \/ is_interval t = true /\ tm_repeat t = true /\
        interval cfg = IntervalMs (tm_delay t)).
Proof.
  intros Hd s.
  pose proof (Inv_run cfg acts _ (Inv_initial cfg h d r Hd)) as HI.
  fold s in HI.
  destruct (pending_run cfg acts (initial h d r) (Inv_initial cfg h d r Hd))
    as [Hr Hi]; [by unfold pending; simpl; lia|].
  split; [done|]. split; [done|]. intros t Ht.
  pose proof (inv_timers _ _ HI) as Hts. rewrite Forall_forall in Hts.
  destruct (Hts t ltac:(by apply list_elem_of_In)) as [Hm Hk].
  split; [done|]. unfold is_retry, is_interval.
  destruct (tm_cb t); [| |done].
  - left. destruct Hk as (? & ? & _ & _ & Hlog).
    by destruct (unresolved_refs cfg s HI Hlog).
  - right. tauto.
Qed.

(** X11.  The unmount of a mounted component, resolved or not, leaves no
    timer pending and returns; it changes neither the refs nor an element
    nor the document nor the queue of frame callbacks; and whatever
    happens afterwards, no timer is ever pending again. *)
Theorem deactivation_is_final `{Browser} (cfg : config)
  (h : list element) (d : list tree) (r : jsref)
  (acts later : list action) :
  nodes_exist h d = true ->
  st_phase (run cfg acts (initial h d r)) = Mounted ->
  let s := run cfg acts (initial h d r) in
  step cfg Unmount s = Ret tt (with_phase Unmounted (with_timers [] s)) /\
  st_timers (run cfg (acts ++ Unmount :: later) (initial h d r)) = [] /\
  st_phase (run cfg (acts ++ Unmount :: later) (initial h d r)) = Unmounted.
Proof.
  intros Hd Hp s.
  pose proof (Inv_run cfg acts _ (Inv_initial cfg h d r Hd)) as HI.
  fold s in HI, Hp.
  pose proof (unmount_result cfg s HI Hp) as Hun. split; [done|].
  rewrite run_app. fold s. cbn [run]. rewrite Hun. cbn [final].
  assert (HI' : Inv cfg (with_phase Unmounted (with_timers [] s))).
  { pose proof (Inv_unmount cfg s HI Hp) as HI'. by rewrite Hun in HI'. }
  pose proof (unmounted_run cfg later _ HI' eq_refl) as Hphase.
  split; [|done].
  apply (timers_nil cfg); [by apply Inv_run|]. by rewrite Hphase.
Qed.

(** X12.  Once [canvasRef.current] is set and no image exists, which is
    where [updateCanvas] leaves the hook when it throws before
    [createImg], nothing brings the setup back: in every later state the
    canvas ref is the same, there is still no image, and nothing more is
    logged, so no image is created or inserted and no capture reads. *)
Theorem failed_setup_is_final `{Browser} (cfg : config)
  (h : list element) (d : list tree) (r : jsref)
  (acts later : list action) :
  nodes_exist h d = true ->
  setup_failed (run cfg acts (initial h d r)) ->
  canvasRef (run cfg (acts ++ later) (initial h d r))
  = canvasRef (run cfg acts (initial h d r)) /\
  truthy (imgRef (run cfg (acts ++ later) (initial h d r))) = false /\
  st_log (run cfg (acts ++ later) (initial h d r))
  = st_log (run cfg acts (initial h d r)).
Proof.
  intros Hd Hs.
  pose proof (Inv_run cfg acts _ (Inv_initial cfg h d r Hd)) as HI.
  rewrite run_app.
  destruct (setup_failed_run cfg later _ HI Hs) as ([_ Hi] & Hc & Hlog).
  done.
Qed.

(** X13.  No action of the hook, of its caller or of the browser's
    queues removes an element or changes what kind of element it is:
    over any run of such actions every element is still there, an element
    of the interface it had.  Unless [width] or [height] is among the
    configured attributes, whose setting clears the canvas, a canvas also
    keeps the bitmap it had: the hook itself never draws. *)
Theorem hook_never_draws `{Browser} (cfg : config) (s : state)
    (acts : list action) (n : node) (e : element) :
  Forall (fun a => is_env a = false) acts ->
  st_heap s !! n = Some e ->
  exists e', st_heap (run cfg acts s) !! n = Some e' /\
             kind (el_interface e') = kind (el_interface e) /\
             (no_dimension (configured_names cfg) = true ->
              el_interface e' = el_interface e).
Proof.
  intros Hacts He. by apply (run_keeps_elements cfg acts s Hacts).
Qed.

(** ** Resolution that succeeds *)

Section Resolves.
Context `{Browser} (cfg : config).

Lemma setCanvas_resolves s c e :
  designates cfg s c -> st_heap s !! c = Some e -> setup_error cfg = None ->
  is_document_element (st_heap s) (st_doc s) c = false ->
  setCanvas cfg s = Ret tt (setup_state cfg c e (resolved_state c s)).
Proof.
  intros Hd He Herr Hroot. rewrite (setCanvas_designated cfg s c Hd).
  by apply updateCanvas_exact.
Qed.

Lemma setup_state_facts s c e :
  let s' := setup_state cfg c e s in
  imgRef s' = Ref (length (st_heap s)) /\ canvasRef s' = canvasRef s /\
  st_timers s' = st_timers s /\ st_uncaught s' = st_uncaught s /\
  st_phase s' = st_phase s /\ st_nextTimer s' = st_nextTimer s /\
  length (st_heap s') = S (length (st_heap s)) /\
  (nodes_exist (st_heap s) (st_doc s) = true ->
   in_doc c (st_doc s) = true ->
   next_sibling c (st_doc s') = Some (length (st_heap s))).
Proof.
  intros s'. split_and!;
    try (subst s'; unfold setup_state, image_inserted, image_created;
         by destruct (in_doc c (st_doc s))).
  - subst s'. rewrite setup_state_heap, length_app, length_insert.
    simpl. lia.
  - intros Hd Hin. subst s'. unfold setup_state. rewrite Hin.
    unfold image_inserted. state_simpl.
    rewrite remove_node_absent by by apply nodes_exist_fresh.
    apply next_sibling_insert_after. by apply in_doc_true.
Qed.

Lemma no_retry_pending l :
  Forall (fun t => tm_cb t <> CbSetCanvas) l ->
  length (List.filter is_retry l) = 0.
Proof.
  induction 1 as [|t l Ht _ IH]; [done|].
  simpl. unfold is_retry at 1. by destruct (tm_cb t).
Qed.

End Resolves.

(** ** The canvas found at once, or late *)

(** X14.  When the [canvas] option designates an element at activation,
    the configured strings raise no exception and the element is not the
    document element, the mount resolves that element and completes the
    setup at once: both refs are set, one element, the image, is new, the
    image follows the canvas if the canvas is in the document, no retry
    is pending and nothing was thrown. *)
Theorem activation_completes_setup `{Browser} (cfg : config)
  (h : list element) (d : list tree) (r : jsref) (c : node) :
  nodes_exist h d = true ->
  designates cfg (initial h d r) c -> setup_error cfg = None ->
  is_document_element h d c = false ->
  let s := run cfg [Render; Mount] (initial h d r) in
  surfaced cfg [Render; Mount] (initial h d r) = [] /\
  canvasRef s = Ref c /\ imgRef s = Ref (length h) /\
  st_phase s = Mounted /\ pending is_retry s = 0 /\ st_uncaught s = [] /\
  length (st_heap s) = S (length h) /\
  (in_doc c d = true -> next_sibling c (st_doc s) = Some (length h)).
Proof.
  intros Hd Hdes Herr Hroot. cbn [run surfaced].
  change (step cfg Render (initial h d r))
    with (Ret tt (with_phase Rendered (initial h d r))).
  cbn [final]. set (s1 := with_phase Rendered (initial h d r)).
  destruct (designates_exists cfg _ c Hdes) as [e He].
  assert (Hset : setCanvas cfg (with_phase Mounted s1)
                 = Ret tt (setup_state cfg c e
                             (resolved_state c (with_phase Mounted s1))))
    by (by apply setCanvas_resolves).
  assert (Hstep : step cfg Mount s1
                  = useInterval_effect CbCreateImgSrc (interval cfg)
                      (setup_state cfg c e
                         (resolved_state c (with_phase Mounted s1)))).
  { unfold step. cbn [st_phase s1 with_phase]. unfold effect, bind.
    rewrite Hset.
    destruct (useInterval_returns CbCreateImgSrc (interval cfg)
                (setup_state cfg c e
                   (resolved_state c (with_phase Mounted s1))))
      as [s3 Hs3].
    by rewrite Hs3. }
  rewrite Hstep.
  set (s2 := setup_state cfg c e (resolved_state c (with_phase Mounted s1))).
  destruct (setup_state_facts cfg (resolved_state c (with_phase Mounted s1)) c e)
    as (Hi & Hc & Ht & Hu & Hp & _ & Hlen & Hnext).
  fold s2 in Hi, Hc, Ht, Hu, Hp, Hlen, Hnext.
  destruct (useInterval_keeps cfg s2) as (Hi3 & Hc3 & Hd3 & Hu3).
  pose proof (useInterval_timers cfg s2) as Ht3.
  destruct (useInterval_returns CbCreateImgSrc (interval cfg) s2)
    as [s3 Hs3].
  rewrite Hs3 in *. cbn [final] in *.
  split; [done|]. rewrite Hi3, Hc3, Hd3, Hu3.
  split; [by rewrite Hc|]. split; [by rewrite Hi|].
  assert (Hsame : st_phase s3 = st_phase s2 /\
                  st_heap s3 = st_heap s2).
  { unfold useInterval_effect in Hs3.
    destruct (interval cfg); by injection Hs3 as <-. }
  destruct Hsame as [-> ->]. split; [by rewrite Hp|].
  split.
  { unfold pending. destruct Ht3 as [->|[ms ->]]; rewrite Ht; done. }
  split; [by rewrite Hu|]. split; [done|].
  intros Hin. by apply Hnext.
Qed.

(** X15.  When the retry timer fires in a state in which the [canvas]
    option designates an element (the caller's ref object has been
    filled, the selector has come to match) that is not the document
    element, and the configured strings raise no exception, that run of
    [setCanvas] resolves the element and completes the setup, and no
    further retry is pending. *)
Theorem retry_resolves_late `{Browser} (cfg : config)
  (h : list element) (d : list tree) (r : jsref) (acts : list action)
  (id : nat) (t : timer) (c : node) :
  nodes_exist h d = true ->
  let s := run cfg acts (initial h d r) in
  find_timer id (st_timers s) = Some t -> tm_cb t = CbSetCanvas ->
  designates cfg s c -> setup_error cfg = None ->
  is_document_element (st_heap s) (st_doc s) c = false ->
  let s' := final (step cfg (Fire id) s) in
  canvasRef s' = Ref c /\ imgRef s' = Ref (length (st_heap s)) /\
  pending is_retry s' = 0 /\ st_uncaught s' = st_uncaught s /\
  length (st_heap s') = S (length (st_heap s)) /\
  (in_doc c (st_doc s) = true ->
   next_sibling c (st_doc s') = Some (length (st_heap s))).
Proof.
  intros Hd s Hf Hcb Hdes Herr Hroot.
  pose proof (Inv_run cfg acts _ (Inv_initial cfg h d r Hd)) as HI.
  fold s in HI. rewrite step_fire, Hf. cbn [final].
  apply find_timer_some in Hf as [Hin <-].
  pose proof (inv_timers _ _ HI) as Hts. rewrite Forall_forall in Hts.
  pose proof (Hts t ltac:(by apply list_elem_of_In)) as [Hm Hk].
  rewrite Hcb in Hk |- *. destruct Hk as (_ & -> & Hre & _ & _).
  set (s1 := with_timers _ s).
  assert (Hno : Forall (fun t' => tm_cb t' <> CbSetCanvas) (st_timers s1)).
  { subst s1. state_simpl. apply Forall_forall. intros t' Ht'.
    apply list_elem_of_filter in Ht' as [Hid Ht']. intros Hcb'.
    destruct (Hts t' Ht') as [_ Hk']. rewrite Hcb' in Hk'.
    destruct Hk' as (_ & _ & Hre' & _). congruence. }
  destruct (designates_exists cfg _ c Hdes) as [e He].
  unfold host_run. simpl run_callback.
  rewrite (setCanvas_resolves cfg s1 c e); [|done|done|done|done].
  destruct (setup_state_facts cfg (resolved_state c s1) c e)
    as (Hi & Hc & Ht & Hu & _ & _ & Hlen & Hnext).
  split; [by rewrite Hc|]. split; [done|].
  split; [unfold pending; rewrite Ht; by apply no_retry_pending|].
  split; [done|]. split; [done|].
  intros Hdoc. apply Hnext; [|done]. exact (inv_doc _ _ HI).
Qed.

(** ** The periodic mode, and captures that fail *)

Section Periodic.
Context `{Browser} (cfg : config).

Lemma tick_queues s id t :
  Inv cfg s ->
  find_timer id (st_timers s) = Some t -> tm_cb t = CbCreateImgSrc ->
  step cfg (Fire id) s = Ret tt (with_frames (st_frames s ++ [CbCapture]) s).
Proof.
  intros HI Hf Hcb. rewrite step_fire, Hf.
  apply find_timer_some in Hf as [Hin _].
  pose proof (inv_timers _ _ HI) as Hts. rewrite Forall_forall in Hts.
  destruct (Hts t ltac:(by apply list_elem_of_In)) as [_ Hk].
  rewrite Hcb in Hk |- *. by destruct Hk as (-> & _).
Qed.

Lemma host_run_no_method s c e :
  canvasRef s = Ref c -> truthy (imgRef s) = true ->
  st_heap s !! c = Some e -> is_canvas e = false ->
  host_run cfg CbCapture s = with_uncaught (TypeError :: st_uncaught s) s.
Proof.
  intros Hc Hi He Hk. unfold host_run. simpl run_callback.
  unfold capture, toDataURL. run_monad.
  destruct (imgRef s) as [| |i] eqn:Hi'; try done.
  repeat (progress (rewrite ?Hc, ?Hi', ?He; state_simpl)).
  unfold is_canvas in Hk. by destruct (el_interface e).
Qed.

Lemma frame_no_method n : forall s c e,
  canvasRef s = Ref c -> truthy (imgRef s) = true ->
  st_heap s !! c = Some e -> is_canvas e = false ->
  fold_left (fun s' cb => host_run cfg cb s') (replicate n CbCapture) s
  = with_uncaught (replicate n TypeError ++ st_uncaught s) s.
Proof.
  induction n as [|n IH]; intros s c e Hc Hi He Hk.
  - simpl. by destruct s.
  - simpl. rewrite (host_run_no_method s c e) by done.
    rewrite (IH _ c e) by done. state_norm. f_equal.
    change (TypeError :: replicate n TypeError ++ st_uncaught s)
      with (replicate (S n) TypeError ++ st_uncaught s).
    by rewrite replicate_S_end, <- app_assoc.
Qed.

End Periodic.

(** ** A canvas option that cannot be resolved *)

Section Unusable.
Context `{Browser} (cfg : config).

Lemma unusable_keeps s s' :
  (forall n e, st_heap s !! n = Some e -> is_canvas e = false ->
               exists e', st_heap s' !! n = Some e' /\ is_canvas e' = false) ->
  unusable cfg s -> unusable cfg s'.
Proof.
  unfold unusable. intros Hk. destruct (canvas cfg); try done.
  intros (e & He & Hc). by apply (Hk n e).
Qed.

Lemma unusable_step a s : unusable cfg s -> unusable cfg (final (step cfg a s)).
Proof.
  apply unusable_keeps. intros n e He Hk.
  destruct (step_keeps_kinds cfg a s n e He) as (e' & He' & Hs).
  exists e'. split; [done|]. by rewrite (same_kind_is_canvas _ _ _ Hs).
Qed.

Lemma setCanvas_unusable s :
  unusable cfg s -> truthy (canvasRef s) = false ->
  setCanvas cfg s = Ret tt (retry_state s).
Proof.
  unfold unusable. intros Hu Hf.
  assert (Hrest : setCanvas_rest cfg s = Ret tt (retry_state s)).
  { unfold setCanvas_rest, setTimeout, new_timer. run_monad.
    by destruct (canvasRef s). }
  unfold setCanvas. fold (setCanvas_rest cfg). unfold bind at 1.
  destruct (canvas cfg) as [sel| |n|] eqn:Hcanvas; try done.
  - destruct Hu as (e & He & Hk).
    unfold canvas_current, canvas_element. rewrite Hcanvas.
    unfold instanceof_HTMLCanvasElement. run_monad. rewrite He, Hk.
    exact Hrest.
  - unfold canvas_current, canvas_element. rewrite Hcanvas.
    unfold instanceof_HTMLCanvasElement. run_monad. exact Hrest.
Qed.

Lemma retrying_step a s :
  Inv cfg s -> unusable cfg s -> retrying s ->
  retrying (final (step cfg a s)) /\ thrown (step cfg a s) = None
  \/ a = Invoke /\ returned cfg = VNull /\ retrying (final (step cfg a s)).
Proof.
  intros HI Hu Hs. pose proof Hs as [Hc Hr].
  assert (Hsame : forall s' : state,
            canvasRef s' = canvasRef s -> st_phase s' = st_phase s ->
            st_timers s' = st_timers s -> retrying s').
  { intros s' Hc' Hp' Ht'. unfold retrying, pending. by rewrite Hc', Hp', Ht'. }
  destruct a.
  - left. unfold step. by destruct (st_phase s) eqn:Hp.
  - left. destruct (st_phase s) eqn:Hp; try (by unfold step; rewrite Hp).
    unfold step. rewrite Hp. unfold effect, bind.
    rewrite setCanvas_unusable by done.
    assert (Ht : st_timers s = [])
      by (apply (timers_nil cfg); [done|by rewrite Hp]).
    unfold retrying, pending.
    unfold useInterval_effect, setInterval, new_timer, retry_state.
    destruct (interval cfg); run_monad; rewrite Ht; by simpl.
  - left. destruct (st_phase s) eqn:Hp; try (by unfold step; rewrite Hp).
    rewrite (unmount_result cfg) by done. split; [|done]. by split.
  - assert (step cfg Invoke s = Ret tt s
            \/ step cfg Invoke s = call cfg (returned cfg) s) as [->| ->].
    { unfold step. destruct (st_phase s); auto. }
    + by left.
    + destruct (invoke_same cfg s) as (Ht & Hp & Hc' & _).
      cbv zeta in Ht, Hp, Hc'.
      pose proof (Hsame _ Hc' Hp Ht) as Hs'.
      destruct (returned cfg) eqn:Hret; [left|right]; [|done].
      split; [done|]. unfold returned in Hret.
      destruct (interval cfg); try done; by injection Hret as <-.
  - left. rewrite step_fire.
    destruct (find_timer id (st_timers s)) as [t|] eqn:Hf; [|done].
    apply find_timer_some in Hf as [Hin <-]. state_simpl.
    pose proof (inv_timers _ _ HI) as Hts.
    rewrite Forall_forall in Hts.
    pose proof (Hts t ltac:(by apply list_elem_of_In)) as [Hm Hk].
    destruct (tm_cb t) eqn:Hcb; [| |done].
    + destruct Hk as (_ & -> & Hre & Hne & Hlog).
      set (s' := with_timers _ s).
      assert (Hno : Forall (fun t' => tm_cb t' <> CbSetCanvas) (st_timers s')).
      { subst s'. state_simpl. apply Forall_forall. intros t' Ht'.
        apply list_elem_of_filter in Ht' as [Hid Ht']. intros Hcb'.
        destruct (Hts t' Ht') as [_ Hk']. rewrite Hcb' in Hk'.
        destruct Hk' as (_ & _ & Hre' & _). congruence. }
      apply no_retry_pending in Hno.
      unfold host_run. simpl run_callback.
      rewrite (setCanvas_unusable s') by done.
      unfold retry_state, retrying, pending. state_simpl.
      split; [|done]. split; [done|].
      intros _. rewrite List.filter_app, length_app, Hno. done.
    + destruct Hk as (-> & _). unfold host_run. simpl.
      split; [|done]. by apply Hsame.
  - left. rewrite step_frame. state_simpl.
    rewrite frame_missing; [|by left|exact (inv_frames _ _ HI)].
    split; [|done]. by apply Hsame.
  - left. rewrite step_env. state_simpl.
    destruct (apply_change_same c s) as (Ht & Hp & Hc' & _).
    split; [|done]. by apply Hsame.
Qed.

Lemma retrying_run acts : forall s,
  Inv cfg s -> unusable cfg s -> retrying s ->
  retrying (run cfg acts s) /\
  (returned cfg = VFunction CbCreateImgSrc -> surfaced cfg acts s = []).
Proof.
  induction acts as [|a acts IH]; intros s HI Hu Hr; [done|].
  cbn [run surfaced].
  destruct (IH _ (Inv_step cfg a s HI) (unusable_step a s Hu)) as [Hr' Hs'].
  { destruct (retrying_step a s HI Hu Hr) as [[? _]|(_ & _ & ?)]; done. }
  split; [done|]. intros Hman.
  destruct (retrying_step a s HI Hu Hr) as [[_ Hret]|(_ & Hnull & _)];
    [|congruence].
  destruct (step cfg a s); [by apply Hs'|done].
Qed.

End Unusable.

(** ** The interval, and options that cannot work *)

(** X16.  The unmount does not clear the refs: when the hook is set up
    and in the manual mode, a trigger that comes after the unmount still
    has its frame read the canvas and write the image's [src]. *)
Theorem capture_after_unmount `{Browser} (cfg : config)
  (h : list element) (d : list tree) (r : jsref) (acts : list action)
  (c i : node) (ec ei : element) (bitmap : list Z) :
  nodes_exist h d = true ->
  let s := run cfg acts (initial h d r) in
  st_phase s = Mounted -> returned cfg = VFunction CbCreateImgSrc ->
  canvasRef s = Ref c -> imgRef s = Ref i -> c <> i ->
  st_heap s !! c = Some ec -> el_interface ec = HTMLCanvasElement bitmap ->
  st_heap s !! i = Some ei ->
  st_heap (run cfg [Unmount; Invoke; Frame] s)
  = <[i := set_attr "src" (encode bitmap (fileType cfg) (quality cfg)) ei]>
      (st_heap s).
Proof.
  intros Hd s Hp Hman Hc Hi Hne Hec Hk Hei.
  pose proof (Inv_run cfg acts _ (Inv_initial cfg h d r Hd)) as HI.
  fold s in HI. cbn [run].
  rewrite (unmount_result cfg s HI Hp). cbn [final].
  assert (step cfg Invoke (with_phase Unmounted (with_timers [] s))
          = Ret tt (with_frames (st_frames s ++ [CbCapture])
                      (with_phase Unmounted (with_timers [] s)))) as ->.
  { unfold step. cbn [st_phase with_phase]. by rewrite Hman. }
  cbn [final].
  rewrite (frame_step_heap cfg _ c i ec ei bitmap (length (st_frames s)));
    state_simpl; try done.
  rewrite replicate_S_end. f_equal.
  apply frames_replicate. exact (inv_frames _ _ HI).
Qed.

(** X17.  In every run in which the hook is set up, the firing of the
    pending interval followed by a frame leaves the image's [src] the
    encoding of the canvas's bitmap, as a call of the trigger of the
    manual mode would; the timers stay as they are, the interval armed. *)
Theorem periodic_capture_refreshes `{Browser} (cfg : config)
  (h : list element) (d : list tree) (r : jsref) (acts : list action)
  (id : nat) (t : timer) (c i : node) (ec ei : element) (bitmap : list Z) :
  nodes_exist h d = true ->
  let s := run cfg acts (initial h d r) in
  find_timer id (st_timers s) = Some t -> tm_cb t = CbCreateImgSrc ->
  canvasRef s = Ref c -> imgRef s = Ref i -> c <> i ->
  st_heap s !! c = Some ec -> el_interface ec = HTMLCanvasElement bitmap ->
  st_heap s !! i = Some ei ->
  st_heap (run cfg [Fire id; Frame] s)
  = <[i := set_attr "src" (encode bitmap (fileType cfg) (quality cfg)) ei]>
      (st_heap s) /\
  st_timers (run cfg [Fire id; Frame] s) = st_timers s.
Proof.
  intros Hd s Hf Hcb Hc Hi Hne Hec Hk Hei.
  pose proof (Inv_run cfg acts _ (Inv_initial cfg h d r Hd)) as HI.
  fold s in HI. cbn [run].
  rewrite (tick_queues cfg s id t HI Hf Hcb). cbn [final].
  assert (Hq : st_frames (with_frames (st_frames s ++ [CbCapture]) s)
               = replicate (S (length (st_frames s))) CbCapture).
  { state_simpl. rewrite replicate_S_end. f_equal.
    apply frames_replicate. exact (inv_frames _ _ HI). }
  split.
  - by rewrite (frame_step_heap cfg _ c i ec ei bitmap
                  (length (st_frames s))).
  - rewrite step_frame. cbn [final].
    destruct (frame_same cfg
                (st_frames (with_frames (st_frames s ++ [CbCapture]) s))
                (with_frames []
                   (with_frames (st_frames s ++ [CbCapture]) s)))
      as (-> & _); [|done].
    rewrite Hq. clear. induction (S (length (st_frames s))) as [|n IH];
      by constructor.
Qed.

(** X18.  When the resolved element is no canvas, every queued capture
    throws a TypeError that goes to the browser's error report, and
    writes nothing: the elements and the log stay as they are. *)
Theorem capture_of_non_canvas_throws `{Browser} (cfg : config) (s : state)
    (c : node) (e : element) (n : nat) :
  canvasRef s = Ref c -> truthy (imgRef s) = true ->
  st_heap s !! c = Some e -> is_canvas e = false ->
  st_frames s = replicate n CbCapture ->
  step cfg Frame s
  = Ret tt (with_uncaught (replicate n TypeError ++ st_uncaught s)
              (with_frames [] s)).
Proof.
  intros Hc Hi He Hk Hf. rewrite step_frame, Hf.
  by rewrite (frame_no_method cfg n (with_frames [] s) c e).
Qed.

(** X19.  A [canvas] string that is no selector makes the effect throw a
    SyntaxError at the mount, before any retry is scheduled: from then
    on nothing is ever resolved and no timer is ever pending. *)
Theorem invalid_selector_is_fatal `{Browser} (cfg : config)
  (h : list element) (d : list tree) (r : jsref) (sel : string)
  (later : list action) :
  canvas cfg = ArgString sel -> selector sel = None ->
  surfaced cfg [Render; Mount] (initial h d r) = [SyntaxError] /\
  let s := run cfg ([Render; Mount] ++ later) (initial h d r) in
  st_phase s = Unmounted /\ st_timers s = [] /\ st_log s = [] /\
  truthy (canvasRef s) = false.
Proof.
  intros Hcanvas Hsel. rewrite run_app. cbn [run surfaced].
  change (step cfg Render (initial h d r))
    with (Ret tt (with_phase Rendered (initial h d r))).
  cbn [final]. set (s1 := with_phase Rendered (initial h d r)).
  assert (Hstep : step cfg Mount s1
                  = Throw SyntaxError
                      (with_phase Unmounted (with_phase Mounted s1))).
  { unfold step. cbn [st_phase s1 with_phase].
    unfold effect, setCanvas, querySelector, bind.
    by rewrite Hcanvas, Hsel. }
  rewrite Hstep. split; [done|]. cbn [final].
  assert (Hdown : torn_down_unresolved
                    (with_phase Unmounted (with_phase Mounted s1)))
    by (by split_and!).
  destruct (torn_down_run cfg later _ Hdown) as (? & ? & ? & ? & _).
  done.
Qed.

(** X20.  A [canvas] option of none of the three forms, or an element
    that is no canvas, is never reported and never resolved: in every
    run nothing is resolved, a retry of [setCanvas] is pending as long
    as the component is mounted, and in the manual mode no exception
    reaches the caller or the framework. *)
Theorem unusable_canvas_retries_forever `{Browser} (cfg : config)
  (h : list element) (d : list tree) (r : jsref) (acts : list action) :
  nodes_exist h d = true -> unusable cfg (initial h d r) ->
  let s := run cfg acts (initial h d r) in
  truthy (canvasRef s) = false /\ st_log s = [] /\
  (st_phase s = Mounted -> pending is_retry s = 1) /\
  (returned cfg = VFunction CbCreateImgSrc ->
   surfaced cfg acts (initial h d r) = []).
Proof.
  intros Hd Hu s.
  pose proof (Inv_initial cfg h d r Hd) as HI0.
  destruct (retrying_run cfg acts (initial h d r) HI0 Hu) as [[Hc Hr] Hs].
  { split; [done|]. by intros. }
  split; [done|]. split; [|by split].
  apply (inv_unresolved cfg); [|done]. by apply Inv_run.
Qed.

(** ** The document around the image *)

Lemma filter_absent (i : nat) (l : list nat) :
  i ∉ l -> filter (fun n => n <> i) l = l.
Proof.
  induction l as [|x l IH]; [done|]. intros Hi.
  apply not_elem_of_cons in Hi as [Hne Hi].
  rewrite filter_cons. rewrite decide_True by done. by rewrite IH.
Qed.

(** Without the inserted element the document reads as before. *)
Lemma document_order_without c i f :
  i ∉ document_order f ->
  filter (fun n => n <> i) (document_order (insert_after c i f))
  = document_order f.
Proof.
  revert f.
  assert (Ht : forall t,
             i ∉ document_order (children t) ->
             filter (fun n => n <> i)
                    (document_order (children (insert_after_tree c i t)))
             = document_order (children t)).
  { induction t as [m ts IH] using tree_ind.
    rewrite insert_after_tree_node. simpl children.
    induction IH as [|t r Ht _ IHr]; [done|]. intros Hi.
    rewrite document_order_cons in Hi.
    apply not_elem_of_cons in Hi as [Hne Hi].
    apply not_elem_of_app in Hi as [Hc Hr].
    rewrite insert_after_cons.
    destruct (Nat.eqb_spec (root t) c) as [Heq|Hnc].
    - rewrite (document_order_cons t), (document_order_cons t r).
      rewrite filter_cons, decide_True by done.
      rewrite filter_app, (filter_absent i _ Hc).
      rewrite document_order_cons. simpl root. simpl children.
      rewrite filter_cons, decide_False by (intros Hn; by apply Hn).
      simpl. by rewrite (filter_absent i _ Hr).
    - rewrite document_order_cons.
      assert (root (insert_after_tree c i t) = root t) as ->
        by (by destruct t).
      rewrite filter_cons, decide_True by done.
      rewrite filter_app, Ht, IHr by done.
      by rewrite document_order_cons. }
  intros f. apply (Ht (body f)).
Qed.

Section Document.
Context `{Browser} (cfg : config).

Lemma setup_state_doc s c e :
  nodes_exist (st_heap s) (st_doc s) = true ->
  st_doc (setup_state cfg c e s)
  = if in_doc c (st_doc s)
    then insert_after c (length (st_heap s)) (st_doc s)
    else st_doc s.
Proof.
  intros Hd. unfold setup_state. destruct (in_doc c (st_doc s)); [|done].
  unfold image_inserted. state_simpl.
  by rewrite remove_node_absent by by apply nodes_exist_fresh.
Qed.

End Document.

(** ** The document after the setup *)

(** X21.  When [updateCanvas] returns, the document holds the elements
    it held, in the order it held them, and the image besides, as the
    next sibling of the canvas; nothing is detached or moved.  For a
    canvas that is in no document, the document is what it was. *)
Theorem document_gains_the_image_only `{Browser} (cfg : config)
    (s s' : state) (c : node) (e : element) :
  nodes_exist (st_heap s) (st_doc s) = true ->
  canvasRef s = Ref c -> st_heap s !! c = Some e ->
  updateCanvas cfg s = Ret tt s' ->
  (in_doc c (st_doc s) = true ->
   next_sibling c (st_doc s') = Some (length (st_heap s)) /\
   filter (fun n => n <> length (st_heap s)) (document_order (st_doc s'))
   = document_order (st_doc s)) /\
  (in_doc c (st_doc s) = false -> st_doc s' = st_doc s).
Proof.
  intros Hd Hc He Hret.
  destruct (returned_setup cfg s s' c e Hc He Hret) as [_ ->].
  rewrite setup_state_doc by done.
  split; intros Hin; rewrite Hin; [|done]. split.
  - apply next_sibling_insert_after. by apply in_doc_true.
  - apply document_order_without. by apply nodes_exist_fresh.
Qed.

(** ** The properties at work on the page *)

Section MoreWitnesses.
#[local] Existing Instance id_selectors.

(** The canvas of the page, and the document element of a whole
    document. *)
Lemma setup_returns_iff_witness :
  (thrown (updateCanvas styled_config resolved_page) = None <->
   Forall (fun kv => valid_attribute_name (fst kv) = true)
          (canvasAttributes styled_config) /\
   accepted_classes (canvasClassname styled_config) /\
   accepted_classes (imgClassname styled_config) /\
   is_document_element (st_heap resolved_page) (st_doc resolved_page) 1
   = false) /\
  is_document_element (st_heap whole_page) (st_doc whole_page) 0 = true /\
  thrown (updateCanvas styled_config (with_canvasRef (Ref 0) whole_page))
  = Some HierarchyRequestError /\
  (thrown (updateCanvas styled_config (with_canvasRef (Ref 0) whole_page))
   = None <->
   Forall (fun kv => valid_attribute_name (fst kv) = true)
          (canvasAttributes styled_config) /\
   accepted_classes (canvasClassname styled_config) /\
   accepted_classes (imgClassname styled_config) /\
   is_document_element (st_heap whole_page) (st_doc whole_page) 0 = false).
Proof.
  split.
  { apply (setup_returns_iff styled_config resolved_page 1);
      [reflexivity|by eexists]. }
  split; [vm_compute; reflexivity|]. split; [vm_compute; reflexivity|].
  apply (setup_returns_iff styled_config
           (with_canvasRef (Ref 0) whole_page) 0);
    [reflexivity|by eexists].
Defined.

(** The second of three attributes has a space in its name. *)
Lemma invalid_attribute_stops_setup_witness :
  updateCanvas bad_attribute_config resolved_page
  = Throw InvalidCharacterError
      (with_heap (<[1 := set_attr "data-private" "1" a_canvas]>
                    (st_heap resolved_page)) resolved_page).
Proof.
  apply (invalid_attribute_stops_setup bad_attribute_config resolved_page 1
           a_canvas [("data-private", "1")] "aria label" "x"
           [("width", "300")]);
    [reflexivity|reflexivity|reflexivity|repeat constructor|reflexivity].
Defined.

Lemma configured_attributes_set_witness :
  exists e',
    st_heap (final (updateCanvas styled_config resolved_page)) !! 1
    = Some e' /\
    attr "data-private" e' = Some "1".
Proof.
  assert (Hret : updateCanvas styled_config resolved_page
                 = Ret tt (final (updateCanvas styled_config resolved_page)))
    by (vm_compute; reflexivity).
  apply (configured_attributes_set styled_config resolved_page _ 1 a_canvas
           [("style", "opacity: 0.5")] "data-private" "1" []);
    [reflexivity|reflexivity|exact Hret|reflexivity|constructor| |].
  - vm_compute. discriminate.
  - left. vm_compute. discriminate.
Defined.

(** Without a dimension among the attributes the bitmap stays; the
    [Width] of [classy_config] clears it. *)
Lemma setup_touches_the_canvas_only_witness :
  no_dimension (configured_names styled_config) = true /\
  (exists e',
     st_heap (final (updateCanvas styled_config resolved_page)) !! 1
     = Some e' /\
     el_interface e' = HTMLCanvasElement [255; 0; 0; 255]%Z /\
     attr "id" e' = Some "c") /\
  no_dimension (configured_names classy_config) = false /\
  el_interface
    <$> st_heap (final (updateCanvas classy_config classy_page)) !! 1
  = Some (HTMLCanvasElement (blank (Some "300") None)) /\
  (forall n, n <> 1 -> (n < length (st_heap classy_page))%nat ->
             st_heap (final (updateCanvas classy_config classy_page)) !! n
             = st_heap classy_page !! n) /\
  exists e',
    st_heap (final (updateCanvas classy_config classy_page)) !! 1
    = Some e' /\
    kind (el_interface e') = kind (el_interface classy_canvas) /\
    forall k, k ∉ setup_names classy_config ->
              attr k e' = attr k classy_canvas.
Proof.
  assert (Hplain : no_dimension (configured_names styled_config) = true)
    by (vm_compute; reflexivity).
  split; [exact Hplain|]. split.
  { destruct (setup_touches_the_canvas_only styled_config resolved_page 1
                a_canvas eq_refl eq_refl)
      as (_ & _ & e' & He' & _ & Hi & Ha).
    exists e'. split; [exact He'|]. split; [exact (Hi Hplain)|].
    apply (Ha "id"). vm_compute.
    intros Hin. repeat (apply elem_of_cons in Hin as [Hin|Hin];
                        [discriminate Hin|]).
    by apply elem_of_nil in Hin. }
  split; [vm_compute; reflexivity|]. split; [vm_compute; reflexivity|].
  destruct (setup_touches_the_canvas_only classy_config classy_page 1
              classy_canvas eq_refl eq_refl)
    as (Hothers & _ & e' & He' & Hk & _ & Ha).
  split; [exact Hothers|]. by exists e'.
Defined.

(** The canvas has the classes [chart] and [wide]; [wide] and
    [fs-exclude] are configured. *)
Lemma canvas_classes_added_witness :
  attr "class"
    <$> st_heap (final (updateCanvas classy_config classy_page)) !! 1
  = Some (Some "chart wide fs-exclude") /\
  exists e' added,
    st_heap (final (updateCanvas classy_config classy_page)) !! 1
    = Some e' /\
    class_tokens e' = class_tokens classy_canvas ++ added /\
    NoDup (class_tokens e') /\
    forall t, t ∈ class_tokens e' <->
              t ∈ class_tokens classy_canvas \/
              t ∈ js_split " " (canvasClassname classy_config).
Proof.
  assert (Hret : updateCanvas classy_config classy_page
                 = Ret tt (final (updateCanvas classy_config classy_page)))
    by (vm_compute; reflexivity).
  split; [vm_compute; reflexivity|].
  apply (canvas_classes_added classy_config classy_page _ 1 classy_canvas);
    [reflexivity|reflexivity|exact Hret| |].
  - vm_compute. discriminate.
  - constructor; [|constructor]. vm_compute. discriminate.
Defined.

(** [mirror] is configured twice for the image. *)
Lemma image_created_plain_witness :
  attr "class"
    <$> st_heap (final (updateCanvas classy_config classy_page)) !! 2
  = Some (Some "mirror hidden") /\
  imgRef (final (updateCanvas classy_config classy_page)) = Ref 2 /\
  exists img,
    st_heap (final (updateCanvas classy_config classy_page)) !! 2
    = Some img /\
    el_interface img = HTMLImageElement /\
    NoDup (class_tokens img) /\
    (forall t, t ∈ class_tokens img <->
               imgClassname classy_config <> "" /\
               t ∈ js_split " " (imgClassname classy_config)) /\
    forall k, k <> "class" -> k <> "style" -> attr k img = None.
Proof.
  assert (Hret : updateCanvas classy_config classy_page
                 = Ret tt (final (updateCanvas classy_config classy_page)))
    by (vm_compute; reflexivity).
  split; [vm_compute; reflexivity|].
  apply (image_created_plain classy_config classy_page _ 1 classy_canvas);
    [reflexivity|reflexivity|exact Hret].
Defined.

(** Two captures are queued on the page. *)
Lemma repeated_captures_agree_witness :
  st_frames queued_page = replicate 2 CbCapture /\
  st_heap (final (step manual_config Frame queued_page))
  = <[2 := set_attr "src"
             (encode [255; 0; 0; 255]%Z (fileType manual_config)
                     (quality manual_config))
             (set_attr "style" IMG_STYLE (Element HTMLImageElement ∅))]>
      (st_heap queued_page).
Proof.
  assert (Hc : canvasRef queued_page = Ref 1) by (vm_compute; reflexivity).
  assert (Hi : imgRef queued_page = Ref 2) by (vm_compute; reflexivity).
  assert (Hne : 1 <> 2) by (intros [=]).
  assert (Hec : st_heap queued_page !! 1
                = Some (set_attr "style" CANVAS_STYLE a_canvas))
    by (vm_compute; reflexivity).
  assert (Hei : st_heap queued_page !! 2
                = Some (set_attr "style" IMG_STYLE
                          (Element HTMLImageElement ∅)))
    by (vm_compute; reflexivity).
  assert (Hq : st_frames queued_page = replicate 2 CbCapture)
    by (vm_compute; reflexivity).
  split; [exact Hq|].
  exact (repeated_captures_agree manual_config queued_page 1 2 _ _
           [255; 0; 0; 255]%Z 1 Hc Hi Hne Hec eq_refl Hei Hq).
Defined.

(** The canvas is drawn on between the trigger and the frame. *)
Lemma capture_sees_latest_drawing_witness :
  attr "src"
    <$> st_heap (run manual_config
                   [Env (Draw 1 [0; 0; 0; 255; 9; 9; 9; 255]%Z); Frame]
                   queued_page) !! 2
  = Some (Some (encode [0; 0; 0; 255; 9; 9; 9; 255]%Z
                       (fileType manual_config) (quality manual_config))).
Proof.
  assert (Hc : canvasRef queued_page = Ref 1) by (vm_compute; reflexivity).
  assert (Hi : imgRef queued_page = Ref 2) by (vm_compute; reflexivity).
  assert (Hne : 1 <> 2) by (intros [=]).
  assert (Hec : st_heap queued_page !! 1
                = Some (set_attr "style" CANVAS_STYLE a_canvas))
    by (vm_compute; reflexivity).
  assert (Hei : st_heap queued_page !! 2
                = Some (set_attr "style" IMG_STYLE
                          (Element HTMLImageElement ∅)))
    by (vm_compute; reflexivity).
  assert (Hq : st_frames queued_page = replicate 2 CbCapture)
    by (vm_compute; reflexivity).
  exact (capture_sees_latest_drawing manual_config queued_page 1 2 _ _
           [0; 0; 0; 255; 9; 9; 9; 255]%Z 1 Hc Hi Hne Hec eq_refl Hei Hq).
Defined.

(** On the blank page with a duration, the retry and the interval. *)
Lemma timers_of_the_hook_witness :
  nodes_exist [a_div] [Node 0 []] = true /\
  st_timers (run periodic_config [Render; Mount] blank_page)
  = [Timer 1 CbSetCanvas 100 false; Timer 2 CbCreateImgSrc 100 true] /\
  (pending is_retry (run periodic_config [Render; Mount] blank_page)
   <= 1)%nat /\
  (pending is_interval (run periodic_config [Render; Mount] blank_page)
   <= 1)%nat.
Proof.
  split; [reflexivity|]. split; [vm_compute; reflexivity|].
  destruct (timers_of_the_hook periodic_config [a_div] [Node 0 []]
              Undefined [Render; Mount] eq_refl) as (Hr & Hi & _).
  split; [exact Hr|exact Hi].
Defined.

(** The unmount of the set-up hook with its interval armed. *)
Lemma deactivation_is_final_witness :
  st_timers (run periodic_config [Render; Mount] canvas_page)
  = [Timer 1 CbCreateImgSrc 100 true] /\
  st_timers (run periodic_config
               ([Render; Mount] ++ Unmount :: [Fire 1; Frame; Mount])
               canvas_page) = [] /\
  st_phase (run periodic_config
              ([Render; Mount] ++ Unmount :: [Fire 1; Frame; Mount])
              canvas_page) = Unmounted.
Proof.
  split; [vm_compute; reflexivity|].
  assert (Hp : st_phase (run periodic_config [Render; Mount] canvas_page)
               = Mounted) by (vm_compute; reflexivity).
  destruct (deactivation_is_final periodic_config
              [a_div; a_canvas] [Node 0 [Node 1 []]] Undefined
              [Render; Mount] [Fire 1; Frame; Mount] eq_refl Hp)
    as (_ & Ht & Hph).
  split; [exact Ht|exact Hph].
Defined.

(** The mount with the invalid attribute name, and what comes after. *)
Lemma failed_setup_is_final_witness :
  surfaced bad_attribute_config [Render; Mount] canvas_page
  = [InvalidCharacterError] /\
  canvasRef (run bad_attribute_config
               ([Render; Mount] ++ [Invoke; Frame; Fire 1; Mount])
               canvas_page)
  = canvasRef (run bad_attribute_config [Render; Mount] canvas_page) /\
  truthy (imgRef (run bad_attribute_config
                    ([Render; Mount] ++ [Invoke; Frame; Fire 1; Mount])
                    canvas_page)) = false /\
  st_log (run bad_attribute_config
            ([Render; Mount] ++ [Invoke; Frame; Fire 1; Mount])
            canvas_page)
  = st_log (run bad_attribute_config [Render; Mount] canvas_page).
Proof.
  split; [vm_compute; reflexivity|].
  assert (Hf : setup_failed
                 (run bad_attribute_config [Render; Mount] canvas_page))
    by (split; vm_compute; reflexivity).
  exact (failed_setup_is_final bad_attribute_config
           [a_div; a_canvas] [Node 0 [Node 1 []]] Undefined
           [Render; Mount] [Invoke; Frame; Fire 1; Mount] eq_refl Hf).
Defined.

(** A life of the hook on the page, without and with a dimension among
    the configured attributes. *)
Lemma hook_never_draws_witness :
  no_dimension (configured_names styled_config) = true /\
  (exists e',
     st_heap (run styled_config [Render; Mount; Invoke; Frame; Unmount]
                  canvas_page) !! 1 = Some e' /\
     el_interface e' = HTMLCanvasElement [255; 0; 0; 255]%Z) /\
  el_interface
    <$> st_heap (run classy_config [Render; Mount; Invoke; Frame; Unmount]
                     canvas_page) !! 1
  = Some (HTMLCanvasElement (blank (Some "300") None)) /\
  exists e',
    st_heap (run classy_config [Render; Mount; Invoke; Frame; Unmount]
                 canvas_page) !! 1 = Some e' /\
    kind (el_interface e') = HTMLCanvasElement [].
Proof.
  assert (Hplain : no_dimension (configured_names styled_config) = true)
    by (vm_compute; reflexivity).
  split; [exact Hplain|]. split.
  { destruct (hook_never_draws styled_config canvas_page
                [Render; Mount; Invoke; Frame; Unmount] 1 a_canvas)
      as (e' & He' & _ & Hi); [repeat constructor|reflexivity|].
    exists e'. split; [exact He'|exact (Hi Hplain)]. }
  split; [vm_compute; reflexivity|].
  destruct (hook_never_draws classy_config canvas_page
              [Render; Mount; Invoke; Frame; Unmount] 1 a_canvas)
    as (e' & He' & Hk & _); [repeat constructor|reflexivity|].
  by exists e'.
Defined.

(** The canvas of a whole document is found and set up; a selector that
    names the document element makes the effect throw. *)
Lemma activation_completes_setup_witness :
  designates styled_config whole_page 2 /\
  is_document_element (st_heap whole_page) (st_doc whole_page) 2 = false /\
  surfaced styled_config [Render; Mount] whole_page = [] /\
  canvasRef (run styled_config [Render; Mount] whole_page) = Ref 2 /\
  imgRef (run styled_config [Render; Mount] whole_page) = Ref 3 /\
  next_sibling 2 (st_doc (run styled_config [Render; Mount] whole_page))
  = Some 3 /\
  designates top_config whole_page 0 /\
  surfaced top_config [Render; Mount] whole_page = [HierarchyRequestError].
Proof.
  assert (Hdes : designates styled_config whole_page 2).
  { eexists. split; [reflexivity|vm_compute; reflexivity]. }
  assert (Herr : setup_error styled_config = None)
    by (vm_compute; reflexivity).
  assert (Hroot : is_document_element (st_heap whole_page)
                    (st_doc whole_page) 2 = false)
    by (vm_compute; reflexivity).
  split; [exact Hdes|]. split; [exact Hroot|].
  destruct (activation_completes_setup styled_config
              (st_heap whole_page) (st_doc whole_page) Undefined 2
              eq_refl Hdes Herr Hroot)
    as (Hs & Hc & Hi & _ & _ & _ & _ & Hnext).
  split; [exact Hs|]. split; [exact Hc|]. split; [exact Hi|].
  split; [apply Hnext; vm_compute; reflexivity|].
  split; [|vm_compute; reflexivity].
  eexists. split; [reflexivity|vm_compute; reflexivity].
Defined.

(** The caller's ref object is filled after the mount; the retry then
    finds the canvas. *)
Lemma retry_resolves_late_witness :
  truthy (canvasRef (run ref_config
                       [Render; Mount; Env (SetCallerRef (Ref 1))]
                       canvas_page)) = false /\
  canvasRef (final (step ref_config (Fire 1)
                      (run ref_config
                         [Render; Mount; Env (SetCallerRef (Ref 1))]
                         canvas_page))) = Ref 1 /\
  imgRef (final (step ref_config (Fire 1)
                   (run ref_config
                      [Render; Mount; Env (SetCallerRef (Ref 1))]
                      canvas_page))) = Ref 2 /\
  pending is_retry
    (final (step ref_config (Fire 1)
              (run ref_config
                 [Render; Mount; Env (SetCallerRef (Ref 1))]
                 canvas_page))) = 0.
Proof.
  split; [vm_compute; reflexivity|].
  assert (Hf : find_timer 1
                 (st_timers (run ref_config
                               [Render; Mount; Env (SetCallerRef (Ref 1))]
                               canvas_page))
               = Some (Timer 1 CbSetCanvas 100 false))
    by (vm_compute; reflexivity).
  assert (Hdes : designates ref_config
                   (run ref_config
                      [Render; Mount; Env (SetCallerRef (Ref 1))]
                      canvas_page) 1).
  { split; [vm_compute; reflexivity|]. exists a_canvas.
    split; vm_compute; reflexivity. }
  assert (Herr : setup_error ref_config = None)
    by (vm_compute; reflexivity).
  assert (Hroot : is_document_element
                    (st_heap (run ref_config
                                [Render; Mount; Env (SetCallerRef (Ref 1))]
                                canvas_page))
                    (st_doc (run ref_config
                               [Render; Mount; Env (SetCallerRef (Ref 1))]
                               canvas_page)) 1 = false)
    by (vm_compute; reflexivity).
  destruct (retry_resolves_late ref_config
              [a_div; a_canvas] [Node 0 [Node 1 []]] Undefined
              [Render; Mount; Env (SetCallerRef (Ref 1))] 1 _ 1
              eq_refl Hf eq_refl Hdes Herr Hroot)
    as (Hc & Hi & Hp & _).
  split; [exact Hc|]. split; [exact Hi|exact Hp].
Defined.

Lemma capture_after_unmount_witness :
  st_heap (run manual_config [Unmount; Invoke; Frame]
             (run manual_config [Render; Mount] canvas_page))
  = <[2 := set_attr "src"
             (encode [255; 0; 0; 255]%Z (fileType manual_config)
                     (quality manual_config))
             (set_attr "style" IMG_STYLE (Element HTMLImageElement ∅))]>
      (st_heap (run manual_config [Render; Mount] canvas_page)).
Proof.
  assert (Hp : st_phase (run manual_config [Render; Mount] canvas_page)
               = Mounted) by (vm_compute; reflexivity).
  assert (Hc : canvasRef (run manual_config [Render; Mount] canvas_page)
               = Ref 1) by (vm_compute; reflexivity).
  assert (Hi : imgRef (run manual_config [Render; Mount] canvas_page)
               = Ref 2) by (vm_compute; reflexivity).
  assert (Hne : 1 <> 2) by (intros [=]).
  assert (Hec : st_heap (run manual_config [Render; Mount] canvas_page) !! 1
                = Some (set_attr "style" CANVAS_STYLE a_canvas))
    by (vm_compute; reflexivity).
  assert (Hei : st_heap (run manual_config [Render; Mount] canvas_page) !! 2
                = Some (set_attr "style" IMG_STYLE
                          (Element HTMLImageElement ∅)))
    by (vm_compute; reflexivity).
  exact (capture_after_unmount manual_config
           [a_div; a_canvas] [Node 0 [Node 1 []]] Undefined [Render; Mount]
           1 2 _ _ [255; 0; 0; 255]%Z eq_refl Hp eq_refl Hc Hi Hne Hec
           eq_refl Hei).
Defined.

(** The set-up hook with its interval armed: a tick, then a frame. *)
Lemma periodic_capture_refreshes_witness :
  st_timers (run periodic_config [Render; Mount] canvas_page)
  = [Timer 1 CbCreateImgSrc 100 true] /\
  st_heap (run periodic_config [Fire 1; Frame]
             (run periodic_config [Render; Mount] canvas_page))
  = <[2 := set_attr "src"
             (encode [255; 0; 0; 255]%Z (fileType periodic_config)
                     (quality periodic_config))
             (set_attr "style" IMG_STYLE (Element HTMLImageElement ∅))]>
      (st_heap (run periodic_config [Render; Mount] canvas_page)) /\
  st_timers (run periodic_config [Fire 1; Frame]
               (run periodic_config [Render; Mount] canvas_page))
  = st_timers (run periodic_config [Render; Mount] canvas_page).
Proof.
  assert (Hf : find_timer 1
                 (st_timers (run periodic_config [Render; Mount]
                               canvas_page))
               = Some (Timer 1 CbCreateImgSrc 100 true))
    by (vm_compute; reflexivity).
  assert (Hc : canvasRef (run periodic_config [Render; Mount] canvas_page)
               = Ref 1) by (vm_compute; reflexivity).
  assert (Hi : imgRef (run periodic_config [Render; Mount] canvas_page)
               = Ref 2) by (vm_compute; reflexivity).
  assert (Hne : 1 <> 2) by (intros [=]).
  assert (Hec : st_heap (run periodic_config [Render; Mount] canvas_page)
                  !! 1
                = Some (set_attr "style" CANVAS_STYLE a_canvas))
    by (vm_compute; reflexivity).
  assert (Hei : st_heap (run periodic_config [Render; Mount] canvas_page)
                  !! 2
                = Some (set_attr "style" IMG_STYLE
                          (Element HTMLImageElement ∅)))
    by (vm_compute; reflexivity).
  split; [vm_compute; reflexivity|].
  exact (periodic_capture_refreshes periodic_config
           [a_div; a_canvas] [Node 0 [Node 1 []]] Undefined [Render; Mount]
           1 _ 1 2 _ _ [255; 0; 0; 255]%Z eq_refl Hf eq_refl Hc Hi Hne Hec
           eq_refl Hei).
Defined.

(** The selector names the [div]; two captures are queued. *)
Lemma capture_of_non_canvas_throws_witness :
  step div_config Frame
       (run div_config [Render; Mount; Invoke; Invoke] canvas_page)
  = Ret tt
      (with_uncaught
         (replicate 2 TypeError
          ++ st_uncaught (run div_config [Render; Mount; Invoke; Invoke]
                              canvas_page))
         (with_frames []
            (run div_config [Render; Mount; Invoke; Invoke] canvas_page))).
Proof.
  assert (Hc : canvasRef (run div_config [Render; Mount; Invoke; Invoke]
                              canvas_page) = Ref 0)
    by (vm_compute; reflexivity).
  assert (Hi : truthy (imgRef (run div_config
                                 [Render; Mount; Invoke; Invoke]
                                 canvas_page)) = true)
    by (vm_compute; reflexivity).
  assert (He : st_heap (run div_config [Render; Mount; Invoke; Invoke]
                            canvas_page) !! 0
               = Some (set_attr "style" CANVAS_STYLE a_div))
    by (vm_compute; reflexivity).
  assert (Hq : st_frames (run div_config [Render; Mount; Invoke; Invoke]
                              canvas_page) = replicate 2 CbCapture)
    by (vm_compute; reflexivity).
  exact (capture_of_non_canvas_throws div_config _ 0 _ 2 Hc Hi He eq_refl
           Hq).
Defined.

Lemma invalid_selector_is_fatal_witness :
  surfaced bad_selector_config [Render; Mount] canvas_page = [SyntaxError] /\
  st_timers (run bad_selector_config
               ([Render; Mount] ++ [Invoke; Frame; Fire 1; Mount])
               canvas_page) = [] /\
  st_log (run bad_selector_config
            ([Render; Mount] ++ [Invoke; Frame; Fire 1; Mount])
            canvas_page) = [].
Proof.
  assert (Hsel : selector "c" = None) by (vm_compute; reflexivity).
  destruct (invalid_selector_is_fatal bad_selector_config
              [a_div; a_canvas] [Node 0 [Node 1 []]] Undefined "c"
              [Invoke; Frame; Fire 1; Mount] eq_refl Hsel)
    as (Hs & _ & Ht & Hl & _).
  split; [exact Hs|]. split; [exact Ht|exact Hl].
Defined.

(** Node 0 of the page, its [div], is passed as the canvas; the retry
    fires twice. *)
Lemma unusable_canvas_retries_forever_witness :
  unusable element_config canvas_page /\
  st_timers (run element_config [Render; Mount; Fire 1; Fire 2]
                 canvas_page) = [Timer 3 CbSetCanvas 100 false] /\
  truthy (canvasRef (run element_config [Render; Mount; Fire 1; Fire 2]
                         canvas_page)) = false /\
  surfaced element_config [Render; Mount; Fire 1; Fire 2] canvas_page
  = [].
Proof.
  assert (Hu : unusable element_config canvas_page).
  { exists a_div. split; reflexivity. }
  split; [exact Hu|]. split; [vm_compute; reflexivity|].
  destruct (unusable_canvas_retries_forever element_config
              [a_div; a_canvas] [Node 0 [Node 1 []]] Undefined
              [Render; Mount; Fire 1; Fire 2] eq_refl Hu)
    as (Hc & _ & _ & Hs).
  split; [exact Hc|]. apply Hs. reflexivity.
Defined.

(** The canvas of the page has a paragraph behind it. *)
Lemma document_gains_the_image_only_witness :
  document_order (st_doc crowded_page) = [0; 1; 2; 3] /\
  document_order
    (st_doc (final (updateCanvas styled_config
                      (with_canvasRef (Ref 1) crowded_page))))
  = [0; 1; 4; 2; 3] /\
  next_sibling 1
    (st_doc (final (updateCanvas styled_config
                      (with_canvasRef (Ref 1) crowded_page)))) = Some 4 /\
  filter (fun n => n <> 4)
    (document_order
       (st_doc (final (updateCanvas styled_config
                         (with_canvasRef (Ref 1) crowded_page)))))
  = [0; 1; 2; 3].
Proof.
  assert (Hret : updateCanvas styled_config
                   (with_canvasRef (Ref 1) crowded_page)
                 = Ret tt (final (updateCanvas styled_config
                                    (with_canvasRef (Ref 1) crowded_page))))
    by (vm_compute; reflexivity).
  split; [reflexivity|]. split; [vm_compute; reflexivity|].
  destruct (document_gains_the_image_only styled_config
              (with_canvasRef (Ref 1) crowded_page) _ 1 a_canvas
              eq_refl eq_refl eq_refl Hret) as [Hin _].
  apply Hin. vm_compute. reflexivity.
Defined.

End MoreWitnesses.
